(** * Gemini Content Studio: the AI gateway and the session controller

    A shallow embedding of [services/geminiService.ts], [App.tsx],
    [components/KnowledgeBaseManager.tsx] and [types.ts], with the
    properties of the specification proved over it.

    Conventions.
    - A JavaScript string is a Rocq [string]; one [ascii] stands for one
      UTF-16 code unit below 256.  Code units from 256 on do not occur in
      the model; a JSON text that names one by an escape is told apart
      by [Json.beyond].
    - An [async] function of the gateway is a tree of remote calls
      ([Async]); a handler of the session controller is a tree of state
      updates and remote calls ([Proc]).
    - [Date.now()] and the answer of [window.confirm] are inputs of the
      operation that reads them. *)

From Stdlib Require Import String Ascii List Bool Arith NArith ZArith Lia.
From stdpp Require Import base decidable option list strings pretty gmap.

Import ListNotations.
Local Open Scope string_scope.

(* ===================================================================== *)
(** * JavaScript strings *)
(* ===================================================================== *)

Module JS.

(** The double quote, the line feed and the backslash, as one-character
    strings and as characters. *)
Definition dq_char : ascii := ascii_of_nat 34.
Definition lf_char : ascii := ascii_of_nat 10.
Definition bs_char : ascii := ascii_of_nat 92.
Definition dq : string := String dq_char "".
Definition lf : string := String lf_char "".

(** [q s] is [s] between double quotes. *)
Definition q (s : string) : string := dq +:+ s +:+ dq.

(** [WhiteSpace] and [LineTerminator] of ECMAScript below code unit 256:
    TAB, LF, VT, FF, CR, SP and NBSP.  This is the class stripped by
    [String.prototype.trim] and matched by [\s]. *)
Definition is_js_space (c : ascii) : bool :=
  let n := nat_of_ascii c in
  ((n =? 9) || (n =? 10) || (n =? 11) || (n =? 12) || (n =? 13)
   || (n =? 32) || (n =? 160))%nat.

(** [\w]: ASCII letters, digits and the underscore. *)
Definition is_word (c : ascii) : bool :=
  let n := nat_of_ascii c in
  (((65 <=? n) && (n <=? 90)) || ((97 <=? n) && (n <=? 122))
   || ((48 <=? n) && (n <=? 57)) || (n =? 95))%nat.

Definition is_empty (s : string) : bool :=
  match s with EmptyString => true | String _ _ => false end.

(** Truthiness of a string: every string but the empty one. *)
Definition truthy (s : string) : bool := negb (is_empty s).

Fixpoint all_chars (p : ascii -> bool) (s : string) : bool :=
  match s with
  | EmptyString => true
  | String c s' => p c && all_chars p s'
  end.

Fixpoint trimStart (s : string) : string :=
  match s with
  | EmptyString => EmptyString
  | String c s' => if is_js_space c then trimStart s' else s
  end.

Fixpoint trimEnd (s : string) : string :=
  match s with
  | EmptyString => EmptyString
  | String c s' =>
      let t := trimEnd s' in
      if is_js_space c && is_empty t then EmptyString else String c t
  end.

(** [String.prototype.trim]. *)
Definition trim (s : string) : string := trimEnd (trimStart s).

(** [s.startsWith(p)], returning what follows the prefix. *)
Fixpoint strip_prefix (p s : string) : option string :=
  match p, s with
  | EmptyString, _ => Some s
  | String a p', String b s' =>
      if Ascii.eqb a b then strip_prefix p' s' else None
  | String _ _, EmptyString => None
  end.

(** [hay.includes(needle)]. *)
Fixpoint includes (needle hay : string) : bool :=
  match strip_prefix needle hay with
  | Some _ => true
  | None =>
      match hay with
      | EmptyString => false
      | String _ hay' => includes needle hay'
      end
  end.

(** The first [n] code units of [s]. *)
Fixpoint take (n : nat) (s : string) : string :=
  match n, s with
  | S n', String c s' => String c (take n' s')
  | _, _ => EmptyString
  end.

(** [xs.join(sep)]. *)
Fixpoint join (sep : string) (xs : list string) : string :=
  match xs with
  | [] => ""
  | [x] => x
  | x :: xs' => x +:+ sep +:+ join sep xs'
  end.

(** [a || b] on a value that may be [undefined]: the left operand when
    it is a non-empty string. *)
Definition or_else (a : option string) (b : string) : string :=
  match a with
  | Some s => if truthy s then s else b
  | None => b
  end.

End JS.

(* ===================================================================== *)
(** * Regular expressions: a backtracking matcher *)
(* ===================================================================== *)

Module Regex.

(** The fragment of ECMAScript patterns that the repository uses.  A
    quantified atom is a character class, so one iteration always
    consumes one code unit. *)
Inductive re : Type :=
| Lit (s : string)               (* a literal run of characters *)
| Cls (p : ascii -> bool)        (* one character of a class *)
| Seq (r1 r2 : re)               (* r1 r2 *)
| Opt (r : re)                   (* r?   greedy *)
| StarG (p : ascii -> bool)      (* c*   greedy *)
| StarL (p : ascii -> bool)      (* c*?  lazy *)
| Grp (n : nat) (r : re)         (* capture group number n *)
| Eos.                           (* $ without the m flag *)

(** Captures: the most recent binding of a group comes first. *)
Definition caps : Type := list (nat * string).

Definition capture (n : nat) (c : caps) : option string :=
  snd <$> List.find (fun p => Nat.eqb (fst p) n) c.

Definition or_try {A} (a b : option A) : option A :=
  match a with Some x => Some x | None => b end.

Section Matcher.
Context {A : Type}.

(** Greedy star: the longest run first, shorter ones on failure of
    the continuation. *)
Fixpoint starG (p : ascii -> bool) (s : string)
    (k : string -> option A) : option A :=
  match s with
  | String c s' =>
      if p c then or_try (starG p s' k) (k s) else k s
  | EmptyString => k s
  end.

(** Lazy star: the empty run first, longer ones on failure. *)
Fixpoint starL (p : ascii -> bool) (s : string)
    (k : string -> option A) : option A :=
  match k s with
  | Some x => Some x
  | None =>
      match s with
      | String c s' => if p c then starL p s' k else None
      | EmptyString => None
      end
  end.
End Matcher.

(** [m r s c k]: match [r] at the front of [s] with captures [c], then
    continue with [k] on the rest; [None] is failure, which makes the
    caller try its next alternative. *)
Fixpoint m (r : re) (s : string) (c : caps)
    (k : string -> caps -> option caps) : option caps :=
  match r with
  | Lit l =>
      match JS.strip_prefix l s with
      | Some rest => k rest c
      | None => None
      end
  | Cls p =>
      match s with
      | String a s' => if p a then k s' c else None
      | EmptyString => None
      end
  | Seq r1 r2 => m r1 s c (fun s1 c1 => m r2 s1 c1 k)
  | Opt r1 =>
      (* RepeatMatcher with min = 0: an iteration that consumes nothing
         is rejected *)
      or_try
        (m r1 s c (fun s1 c1 =>
           if Nat.eqb (String.length s1) (String.length s) then None
           else k s1 c1))
        (k s c)
  | StarG p => starG p s (fun s1 => k s1 c)
  | StarL p => starL p s (fun s1 => k s1 c)
  | Grp n r1 =>
      m r1 s c (fun s1 c1 =>
        k s1 ((n, JS.take (String.length s - String.length s1) s) :: c1))
  | Eos =>
      match s with
      | EmptyString => k s c
      | String _ _ => None
      end
  end.

(** [s.match(r)] for a pattern that starts with [^] and has neither the
    [g] nor the [m] flag: the only start index that can match is 0. *)
Definition match_anchored (r : re) (s : string) : option caps :=
  m r s [] (fun _ c => Some c).

End Regex.

Infix "⋅" := Regex.Seq (at level 60, right associativity).

(* ===================================================================== *)
(** * JSON: [JSON.parse] and [JSON.stringify] *)
(* ===================================================================== *)

Module Json.

(** A parsed JSON value.  A number keeps its lexeme; the members of an
    object are kept in source order, with repeated keys. *)
#[warnings="-register-all"]
Inductive json : Type :=
| JNull
| JBool (b : bool)
| JNum (lexeme : string)
| JStr (s : string)
| JArr (elems : list json)
| JObj (members : list (string * json)).

(** Property read [o.key] on a parsed object: of two members with the
    same key the later one wins; [None] is [undefined]. *)
Fixpoint lookup (key : string) (ms : list (string * json)) : option json :=
  match ms with
  | [] => None
  | (k, v) :: ms' =>
      match lookup key ms' with
      | Some v' => Some v'
      | None => if String.eqb k key then Some v else None
      end
  end.

Definition get (key : string) (v : json) : option json :=
  match v with
  | JObj ms => lookup key ms
  | _ => None
  end.

(** ** Tokens *)

Inductive token : Type :=
| TLBrace | TRBrace | TLBracket | TRBracket | TColon | TComma
| TStr (s : string) | TNum (lexeme : string)
| TTrue | TFalse | TNull.

Inductive lexstate : Type :=
| LDefault
| LStr (acc : list ascii)                      (* inside a string *)
| LEsc (acc : list ascii)                      (* after a backslash *)
| LUni (digits : list ascii) (acc : list ascii) (* after \u *)
| LNum (acc : list ascii)                      (* inside a number *)
| LWord (acc : list ascii).                    (* inside true/false/null *)

Definition is_json_ws (c : ascii) : bool :=
  let n := nat_of_ascii c in
  ((n =? 32) || (n =? 9) || (n =? 10) || (n =? 13))%nat.

Definition is_digit (c : ascii) : bool :=
  let n := nat_of_ascii c in ((48 <=? n) && (n <=? 57))%nat.

Definition is_lower (c : ascii) : bool :=
  let n := nat_of_ascii c in ((97 <=? n) && (n <=? 122))%nat.

Definition is_num_char (c : ascii) : bool :=
  is_digit c || Ascii.eqb c "-" || Ascii.eqb c "+" || Ascii.eqb c "."
  || Ascii.eqb c "e" || Ascii.eqb c "E".

Definition hex_value (c : ascii) : option nat :=
  let n := nat_of_ascii c in
  if ((48 <=? n) && (n <=? 57))%nat then Some (n - 48)
  else if ((65 <=? n) && (n <=? 70))%nat then Some (n - 55)
  else if ((97 <=? n) && (n <=? 102))%nat then Some (n - 87)
  else None.

Definition of_rev (acc : list ascii) : string :=
  string_of_list_ascii (List.rev acc).

(** The number grammar: an optional minus sign; then a single 0 or a
    non-zero digit followed by digits; then optionally a point and one
    or more digits; then optionally e or E, an optional sign and one or
    more digits. *)
Fixpoint digits1 (s : string) (seen : bool) : option string :=
  match s with
  | String c s' => if is_digit c then digits1 s' true
                   else if seen then Some s else None
  | EmptyString => if seen then Some s else None
  end.

Definition num_exp (s : string) : bool :=
  match s with
  | EmptyString => true
  | String c s' =>
      if Ascii.eqb c "e" || Ascii.eqb c "E" then
        let s'' := match s' with
                   | String d t =>
                       if Ascii.eqb d "+" || Ascii.eqb d "-" then t else s'
                   | EmptyString => s'
                   end in
        match digits1 s'' false with
        | Some EmptyString => true
        | _ => false
        end
      else false
  end.

Definition num_frac (s : string) : bool :=
  match s with
  | String "." s' =>
      match digits1 s' false with
      | Some rest => num_exp rest
      | None => false
      end
  | _ => num_exp s
  end.

Definition num_int (s : string) : bool :=
  match s with
  | String "0" s' => num_frac s'
  | String c s' =>
      if is_digit c then
        match digits1 s true with
        | Some rest => num_frac rest
        | None => false
        end
      else false
  | EmptyString => false
  end.

Definition valid_number (s : string) : bool :=
  match s with
  | String "-" s' => num_int s'
  | _ => num_int s
  end.

Definition word_token (s : string) : option token :=
  if String.eqb s "true" then Some TTrue
  else if String.eqb s "false" then Some TFalse
  else if String.eqb s "null" then Some TNull
  else None.

Definition num_token (acc : list ascii) : option token :=
  let s := of_rev acc in
  if valid_number s then Some (TNum s) else None.

(** One character read in the default state: the state that follows and
    the tokens completed by it. *)
Definition lex_start (c : ascii) : option (lexstate * list token) :=
  if is_json_ws c then Some (LDefault, [])
  else if Ascii.eqb c "{" then Some (LDefault, [TLBrace])
  else if Ascii.eqb c "}" then Some (LDefault, [TRBrace])
  else if Ascii.eqb c "[" then Some (LDefault, [TLBracket])
  else if Ascii.eqb c "]" then Some (LDefault, [TRBracket])
  else if Ascii.eqb c ":" then Some (LDefault, [TColon])
  else if Ascii.eqb c "," then Some (LDefault, [TComma])
  else if Ascii.eqb c JS.dq_char then Some (LStr [], [])
  else if is_digit c || Ascii.eqb c "-" then Some (LNum [c], [])
  else if is_lower c then Some (LWord [c], [])
  else None.

Definition lex_escape (c : ascii) : option ascii :=
  if Ascii.eqb c JS.dq_char then Some JS.dq_char
  else if Ascii.eqb c JS.bs_char then Some JS.bs_char
  else if Ascii.eqb c "/" then Some "/"%char
  else if Ascii.eqb c "b" then Some (ascii_of_nat 8)
  else if Ascii.eqb c "f" then Some (ascii_of_nat 12)
  else if Ascii.eqb c "n" then Some (ascii_of_nat 10)
  else if Ascii.eqb c "r" then Some (ascii_of_nat 13)
  else if Ascii.eqb c "t" then Some (ascii_of_nat 9)
  else None.

(** The code unit of four hexadecimal digits, most significant last in
    [digits]. *)
Definition unicode_value (digits : list ascii) : option nat :=
  foldr (fun d acc =>
           match acc, hex_value d with
           | Some a, Some h => Some (16 * a + h)
           | _, _ => None
           end) (Some 0) digits.

(** One step of the lexer.  [None] is a syntax error, with one
    exception: an escape [\uXXXX] for a code unit from 256 on is good
    JSON, but a string here holds code units below 256 only, so the
    lexer has no value for it and stops there as well.  [wide] below
    tells the two apart. *)
Definition lex_step (st : lexstate) (c : ascii)
    : option (lexstate * list token) :=
  match st with
  | LDefault => lex_start c
  | LStr acc =>
      if Ascii.eqb c JS.dq_char then Some (LDefault, [TStr (of_rev acc)])
      else if Ascii.eqb c JS.bs_char then Some (LEsc acc, [])
      else if (nat_of_ascii c <? 32)%nat then None
      else Some (LStr (c :: acc), [])
  | LEsc acc =>
      if Ascii.eqb c "u" then Some (LUni [] acc, [])
      else match lex_escape c with
           | Some e => Some (LStr (e :: acc), [])
           | None => None
           end
  | LUni ds acc =>
      match hex_value c with
      | None => None
      | Some _ =>
          if (List.length ds =? 3)%nat then
            match unicode_value (c :: ds) with
            | Some n =>
                (* from 256 on: not a syntax error, see [wide] *)
                if (n <? 256)%nat then Some (LStr (ascii_of_nat n :: acc), [])
                else None
            | None => None
            end
          else Some (LUni (c :: ds) acc, [])
      end
  | LNum acc =>
      if is_num_char c then Some (LNum (c :: acc), [])
      else match num_token acc, lex_start c with
           | Some t, Some (st', ts) => Some (st', t :: ts)
           | _, _ => None
           end
  | LWord acc =>
      if is_lower c then Some (LWord (c :: acc), [])
      else match word_token (of_rev acc), lex_start c with
           | Some t, Some (st', ts) => Some (st', t :: ts)
           | _, _ => None
           end
  end.

(** Reading [c] in state [st] completes an escape [\uXXXX] that names a
    code unit from 256 on: the one case in which [lex_step] stops on
    text that [JSON.parse] accepts. *)
Definition wide (st : lexstate) (c : ascii) : bool :=
  match st, hex_value c with
  | LUni ds _, Some _ =>
      (List.length ds =? 3)%nat
      && match unicode_value (c :: ds) with
         | Some n => (256 <=? n)%nat
         | None => false
         end
  | _, _ => false
  end.

(** At the end of the input. *)
Definition lex_end (st : lexstate) : option (list token) :=
  match st with
  | LDefault => Some []
  | LNum acc => (fun t => [t]) <$> num_token acc
  | LWord acc => (fun t => [t]) <$> word_token (of_rev acc)
  | LStr _ | LEsc _ | LUni _ _ => None
  end.

Fixpoint lex (st : lexstate) (s : string) : option (list token) :=
  match s with
  | EmptyString => lex_end st
  | String c s' =>
      match lex_step st c with
      | Some (st', ts) => (fun rest => (ts ++ rest)%list) <$> lex st' s'
      | None => None
      end
  end.

(** The lexer, started in [st] on [s], comes to an escape for a code
    unit from 256 on before any syntax error.  Such a text is beyond
    what the model reads: what [lex] and [parse] give for it says
    nothing about [JSON.parse]. *)
Fixpoint beyond (st : lexstate) (s : string) : bool :=
  match s with
  | EmptyString => false
  | String c s' =>
      wide st c
      || match lex_step st c with
         | Some (st', _) => beyond st' s'
         | None => false
         end
  end.

(** ** The parser: one token per step, with an explicit stack *)

Inductive frame : Type :=
| FArr (acc : list json)                        (* elements so far, reversed *)
| FObj (acc : list (string * json)) (key : string). (* members so far, key awaiting its value *)

Inductive pstate : Type :=
| PValue (close : bool) (stk : list frame)
    (* a value is expected; [close]: just after an opening bracket *)
| PKey (close : bool) (acc : list (string * json)) (stk : list frame)
| PColon (key : string) (acc : list (string * json)) (stk : list frame)
| PDone (v : json) (stk : list frame).
    (* a value is complete; the frames wait for it *)

Definition pstep (st : pstate) (t : token) : option pstate :=
  match st with
  | PValue close stk =>
      match t with
      | TLBracket => Some (PValue true (FArr [] :: stk))
      | TLBrace => Some (PKey true [] stk)
      | TStr s => Some (PDone (JStr s) stk)
      | TNum n => Some (PDone (JNum n) stk)
      | TTrue => Some (PDone (JBool true) stk)
      | TFalse => Some (PDone (JBool false) stk)
      | TNull => Some (PDone JNull stk)
      | TRBracket =>
          match close, stk with
          | true, FArr [] :: stk' => Some (PDone (JArr []) stk')
          | _, _ => None
          end
      | _ => None
      end
  | PKey close acc stk =>
      match t with
      | TStr k => Some (PColon k acc stk)
      | TRBrace => if close then Some (PDone (JObj []) stk) else None
      | _ => None
      end
  | PColon key acc stk =>
      match t with
      | TColon => Some (PValue false (FObj acc key :: stk))
      | _ => None
      end
  | PDone v stk =>
      match stk, t with
      | FArr acc :: stk', TComma => Some (PValue false (FArr (v :: acc) :: stk'))
      | FArr acc :: stk', TRBracket => Some (PDone (JArr (List.rev (v :: acc))) stk')
      | FObj acc key :: stk', TComma => Some (PKey false ((key, v) :: acc) stk')
      | FObj acc key :: stk', TRBrace =>
          Some (PDone (JObj (List.rev ((key, v) :: acc))) stk')
      | _, _ => None
      end
  end.

Fixpoint parse_tokens (st : pstate) (ts : list token) : option json :=
  match ts with
  | [] =>
      match st with
      | PDone v [] => Some v
      | _ => None
      end
  | t :: ts' =>
      match pstep st t with
      | Some st' => parse_tokens st' ts'
      | None => None
      end
  end.

(** [JSON.parse(s)].  For a text that is not [beyond], [None] is the
    [SyntaxError] it throws. *)
Definition parse (s : string) : option json :=
  match lex LDefault s with
  | Some ts => parse_tokens (PValue false []) ts
  | None => None
  end.

End Json.

Module JsonPrint.
Import Json.

Definition hex_digit (n : nat) : ascii :=
  if (n <? 10)%nat then ascii_of_nat (48 + n) else ascii_of_nat (87 + n).

(** [QuoteJSONString] on one code unit. *)
Definition quote_char (c : ascii) : string :=
  let n := nat_of_ascii c in
  if Ascii.eqb c JS.dq_char then String JS.bs_char JS.dq
  else if Ascii.eqb c JS.bs_char then String JS.bs_char (String JS.bs_char "")
  else if (n =? 8)%nat then String JS.bs_char "b"
  else if (n =? 9)%nat then String JS.bs_char "t"
  else if (n =? 10)%nat then String JS.bs_char "n"
  else if (n =? 12)%nat then String JS.bs_char "f"
  else if (n =? 13)%nat then String JS.bs_char "r"
  else if (n <? 32)%nat then
    String JS.bs_char
      ("u00" +:+ String (hex_digit (n / 16)) (String (hex_digit (n mod 16)) ""))
  else String c "".

Fixpoint quote_body (s : string) : string :=
  match s with
  | EmptyString => ""
  | String c s' => quote_char c +:+ quote_body s'
  end.

Definition quote (s : string) : string := JS.q (quote_body s).

(** [JSON.stringify(v)] without indentation; a number prints as its
    lexeme. *)
Fixpoint stringify (v : json) : string :=
  match v with
  | JNull => "null"
  | JBool true => "true"
  | JBool false => "false"
  | JNum l => l
  | JStr s => quote s
  | JArr xs => "[" +:+ JS.join "," (List.map stringify xs) +:+ "]"
  | JObj ms =>
      "{" +:+
      JS.join ","
        (List.map (fun p => quote (fst p) +:+ ":" +:+ stringify (snd p)) ms)
      +:+ "}"
  end.

End JsonPrint.

(* ===================================================================== *)
(** * types.ts *)
(* ===================================================================== *)

Inductive MessageSender : Type := USER | MODEL | SYSTEM.

Module UrlContextMetadataItem.
Record t : Type := mk { retrievedUrl : string; urlRetrievalStatus : string }.
End UrlContextMetadataItem.

Module ChatMessage.
Record t : Type := mk {
  id : string;
  text : string;
  sender : MessageSender;
  timestamp : N;
  isLoading : option bool;
  urlContext : option (list UrlContextMetadataItem.t) }.
End ChatMessage.

Module URLGroup.
Record t : Type := mk { id : string; name : string; urls : list string }.
End URLGroup.

Module FileContext.
Record t : Type := mk { name : string; content : string }.
End FileContext.

(** A chapter title is whatever value the outline array held: the type
    says [string], the code does not check it. *)
Module Chapter.
Record t : Type := mk { title : Json.json; content : string }.
End Chapter.

(** [title] is [None] when the outline had no such property. *)
Module Book.
Record t : Type := mk { title : option Json.json; chapters : list Chapter.t }.
End Book.

(* ===================================================================== *)
(** * The remote API, as seen by the gateway *)
(* ===================================================================== *)

Module Remote.

Inductive Tool : Type := googleSearch | urlContext.
Inductive Modality : Type := IMAGE | TEXT.

#[warnings="-register-all"]
Inductive Schema : Type :=
| SString
| SArray (items : Schema)
| SObject (properties : list (string * Schema)) (required : list string).

Inductive ReqPart : Type :=
| PText (text : string)
| PInlineData (data mimeType : string).

(** The [contents] of a request.  The chapter prompt keeps the two
    values interpolated into its template apart, since the chapter
    title need not be a string. *)
Inductive Contents : Type :=
| UserTurn (parts : list ReqPart)     (* [{ role: "user", parts }] *)
| Parts (parts : list ReqPart)        (* { parts } *)
| Prompt (text : string)              (* a bare string *)
| ChapterPrompt (topic : string) (chapterTitle : Json.json).

Record Config : Type := mkConfig {
  tools : option (list Tool);
  safetySettings : bool;               (* the constant of lines 11-16 passed *)
  thinkingBudget : option Z;           (* thinkingConfig.thinkingBudget *)
  responseMimeType : option string;
  responseSchema : option Schema;
  responseModalities : option (list Modality) }.

Definition noConfig : Config := mkConfig None false None None None None.

Record Request : Type := mkRequest {
  model : string; contents : Contents; config : Config }.

Module InlineData.
Record t : Type := mk { data : option string; mimeType : option string }.
End InlineData.

Module Part.
Record t : Type := mk { inlineData : option InlineData.t; text : option string }.
End Part.

Module Candidate.
(** [parts] is [content?.parts]; [urlMetadata] is
    [urlContextMetadata?.urlMetadata]. *)
Record t : Type := mk {
  parts : option (list Part.t);
  urlMetadata : option (list UrlContextMetadataItem.t) }.
End Candidate.

Module Response.
Record t : Type := mk {
  text : option string;
  candidates : option (list Candidate.t) }.
End Response.

(** A thrown value: an [Error] instance with its [message] and its
    [type] property, or anything else. *)
Record JsError : Type := mkError { message : string; etype : option string }.

Inductive Thrown : Type :=
| IsError (e : JsError)
| NotError.

(** [new Error(msg)]. *)
Definition Error (msg : string) : Thrown := IsError (mkError msg None).

Inductive Outcome : Type :=
| Resolved (r : Response.t)
| Rejected (e : Thrown).

End Remote.

(** ** Asynchronous computations *)

Module Asyn.
Import Remote.

(** An [async] function body: it returns, throws, or awaits one remote
    call and goes on with its outcome. *)
Inductive Async (A : Type) : Type :=
| Ret (a : A)
| Throw (e : Thrown)
| Await (r : Request) (k : Outcome -> Async A).
Arguments Ret {A} a.
Arguments Throw {A} e.
Arguments Await {A} r k.

Fixpoint bind {A B} (m : Async A) (f : A -> Async B) : Async B :=
  match m with
  | Ret a => f a
  | Throw e => Throw e
  | Await r k => Await r (fun o => bind (k o) f)
  end.

(** [try { m } catch (error) { h error }]. *)
Fixpoint try_catch {A} (m : Async A) (h : Thrown -> Async A) : Async A :=
  match m with
  | Ret a => Ret a
  | Throw e => h e
  | Await r k => Await r (fun o => try_catch (k o) h)
  end.

(** [await ai.models.generateContent(r)]. *)
Definition call (r : Request) : Async Response.t :=
  Await r (fun o =>
    match o with
    | Resolved x => Ret x
    | Rejected e => Throw e
    end).

(** All the calls of [rs] are issued, in order; the outcomes come back
    in the same order. *)
Fixpoint awaitAll (rs : list Request) : Async (list Outcome) :=
  match rs with
  | [] => Ret []
  | r :: rs' =>
      Await r (fun o => bind (awaitAll rs') (fun os => Ret (o :: os)))
  end.

(** The remote service answers the [n]-th call of a run. *)
Definition Service : Type := nat -> Request -> Outcome.

(** [run srv n m]: the requests issued, in order, and the result. *)
Fixpoint run {A} (srv : Service) (n : nat) (m : Async A)
    : list Request * (A + Thrown) :=
  match m with
  | Ret a => ([], inl a)
  | Throw e => ([], inr e)
  | Await r k =>
      let '(log, res) := run srv (S n) (k (srv n r)) in
      (r :: log, res)
  end.

Definition requests {A} (srv : Service) (m : Async A) : list Request :=
  fst (run srv 0 m).

Definition result {A} (srv : Service) (m : Async A) : A + Thrown :=
  snd (run srv 0 m).

End Asyn.

(* ===================================================================== *)
(** * services/geminiService.ts *)
(* ===================================================================== *)

Module Gemini.
Import JS Remote Asyn.

Definition MODEL_NAME : string := "gemini-2.5-flash".
Definition IMAGE_MODEL_NAME : string := "gemini-2.5-flash-image".

Module GeminiResponse.
Record t : Type := mk {
  text : string;
  urlContextMetadata : option (list UrlContextMetadataItem.t) }.
End GeminiResponse.

(** [response.candidates?.[0]]. *)
Definition firstCandidate (response : Response.t) : option Candidate.t :=
  match Response.candidates response with
  | Some (c :: _) => Some c
  | _ => None
  end.

(** ** generateContentWithUrlContext (lines 23-98) *)

Definition chatPrompt (prompt : string) (urls : list string)
    (fileContext : option FileContext.t) (customPrompt : string) : string :=
  let fullPrompt := prompt in
  let fullPrompt :=
    if truthy (trim customPrompt)
    then customPrompt +:+ lf +:+ lf +:+ "User Question: " +:+ prompt
    else fullPrompt in
  let fullPrompt :=
    match fileContext with
    | Some fc =>
        fullPrompt +:+ lf +:+ lf +:+ "Use the following file context from "
        +:+ q (FileContext.name fc) +:+ ":" +:+ lf +:+ "---" +:+ lf
        +:+ FileContext.content fc +:+ lf +:+ "---"
    | None => fullPrompt
    end in
  if (0 <? List.length urls)%nat
  then fullPrompt +:+ lf +:+ lf +:+ "Relevant URLs for context:" +:+ lf
       +:+ join lf urls
  else fullPrompt.

Definition chatTools (useWebSearch : bool) : list Tool :=
  if useWebSearch then [googleSearch] else [urlContext].

Definition chatRequest (prompt : string) (urls : list string)
    (fileContext : option FileContext.t) (useWebSearch useThinking : bool)
    (customPrompt : string) : Request :=
  mkRequest MODEL_NAME
    (UserTurn [PText (chatPrompt prompt urls fileContext customPrompt)])
    (mkConfig (Some (chatTools useWebSearch)) true
       (if useThinking then None else Some 0%Z) None None None).

Definition chatCatch (error : Thrown) : Async GeminiResponse.t :=
  match error with
  | IsError googleError =>
      let msg := message googleError in
      if truthy msg && includes "API key not valid" msg then
        Throw (Error "Invalid API Key. Please check the key you provided.")
      else if truthy msg && includes "quota" msg then
        Throw (Error "API quota exceeded. Please check your Gemini API quota.")
      else if bool_decide (etype googleError = Some "GoogleGenAIError")
              && truthy msg then
        Throw (Error ("Gemini API Error: " +:+ msg))
      else Throw (Error ("Failed to get response from AI: " +:+ msg))
  | NotError =>
      Throw (Error "Failed to get response from AI due to an unknown error.")
  end.

Definition generateContentWithUrlContext (prompt : string)
    (urls : list string) (fileContext : option FileContext.t)
    (useWebSearch useThinking : bool) (customPrompt : string)
    : Async GeminiResponse.t :=
  try_catch
    (bind
       (call (chatRequest prompt urls fileContext useWebSearch useThinking
                customPrompt))
       (fun response =>
          let text := or_else (Response.text response) "" in
          let extractedUrlContextMetadata :=
            match firstCandidate response with
            | Some candidate => Candidate.urlMetadata candidate
            | None => None
            end in
          Ret (GeminiResponse.mk text extractedUrlContextMetadata)))
    chatCatch.

(** ** getInitialSuggestions (lines 100-149) *)

Definition fallbackSuggestions : Json.json :=
  Json.JObj
    [("suggestions",
      Json.JArr
        [Json.JStr "Add some URLs or a file to get topic suggestions."])].

Definition suggestionsPrompt (urls : list string)
    (fileContent : option string) : string :=
  let contextPrompt := "" in
  let contextPrompt :=
    match fileContent with
    | Some fc =>
        if truthy fc then
          contextPrompt +:+ "Based on the content of the following text file:"
          +:+ lf +:+ "---" +:+ lf +:+ fc +:+ lf +:+ "---" +:+ lf +:+ lf
        else contextPrompt
    | None => contextPrompt
    end in
  let contextPrompt :=
    if (0 <? List.length urls)%nat then
      contextPrompt
      +:+ "And based on the content of the following documentation URLs:"
      +:+ lf +:+ join lf urls +:+ lf +:+ lf
    else contextPrompt in
  contextPrompt
  +:+ "Provide 3-4 concise and actionable questions a developer might ask to explore this content. These questions should be suitable as quick-start prompts. Return ONLY a JSON object with a key "
  +:+ q "suggestions"
  +:+ " containing an array of these question strings. For example: {"
  +:+ q "suggestions" +:+ ": [" +:+ q "What are the rate limits?" +:+ ", "
  +:+ q "How do I get an API key?" +:+ ", " +:+ q "Explain model X."
  +:+ "]}".

Definition suggestionsRequest (urls : list string)
    (fileContent : option string) : Request :=
  mkRequest MODEL_NAME
    (UserTurn [PText (suggestionsPrompt urls fileContent)])
    (mkConfig None true None (Some "application/json") None None).

Definition suggestionsCatch (error : Thrown) : Async GeminiResponse.t :=
  match error with
  | IsError googleError =>
      let msg := message googleError in
      if truthy msg && includes "API key not valid" msg then
        Throw (Error "Invalid API Key. Please check the key you provided.")
      else
        Throw (Error ("Failed to get initial suggestions from AI: " +:+ msg))
  | NotError =>
      Throw (Error
        "Failed to get initial suggestions from AI due to an unknown error.")
  end.

(** [!fileContent]: the text is [null] or the empty string. *)
Definition noFileContent (fileContent : option string) : bool :=
  match fileContent with
  | Some fc => negb (truthy fc)
  | None => true
  end.

Definition getInitialSuggestions (urls : list string)
    (fileContent : option string) : Async GeminiResponse.t :=
  if (List.length urls =? 0)%nat && noFileContent fileContent then
    Ret (GeminiResponse.mk (JsonPrint.stringify fallbackSuggestions) None)
  else
    try_catch
      (bind (call (suggestionsRequest urls fileContent))
         (fun response =>
            let text := or_else (Response.text response) "" in
            Ret (GeminiResponse.mk text None)))
      suggestionsCatch.

(** ** editImage (lines 151-202) *)

Module EditResult.
Record t : Type := mk {
  base64Image : string; text : string; mimeType : string }.
End EditResult.

Definition editRequest (prompt base64ImageData mimeType : string) : Request :=
  mkRequest IMAGE_MODEL_NAME
    (Parts [PInlineData base64ImageData mimeType; PText prompt])
    (mkConfig None false None None None (Some [IMAGE; TEXT])).

(** The parts the loop of line 180 runs over. *)
Definition responseParts (response : Response.t) : list Part.t :=
  match firstCandidate response with
  | Some c => default [] (Candidate.parts c)
  | None => []
  end.

(** One turn of the loop, on [(resultImage, resultText, resultMimeType)]. *)
Definition editStep (acc : string * string * string) (part : Part.t)
    : string * string * string :=
  let '(resultImage, resultText, resultMimeType) := acc in
  match Part.inlineData part with
  | Some d =>
      (or_else (InlineData.data d) "", resultText,
       or_else (InlineData.mimeType d) resultMimeType)
  | None =>
      match Part.text part with
      | Some t =>
          if truthy t then (resultImage, resultText +:+ t, resultMimeType)
          else acc
      | None => acc
      end
  end.

Definition editCatch (error : Thrown) : Async EditResult.t :=
  match error with
  | IsError e => Throw (Error ("Image editing failed: " +:+ message e))
  | NotError => Throw (Error "An unknown error occurred during image editing.")
  end.

Definition editImage (prompt base64ImageData mimeType : string)
    : Async EditResult.t :=
  try_catch
    (bind (call (editRequest prompt base64ImageData mimeType))
       (fun response =>
          let '(resultImage, resultText, resultMimeType) :=
            fold_left editStep (responseParts response)
              ("", "", "image/png") in
          if negb (truthy resultImage) then
            Throw (Error
              "The model did not return an image. It might have refused the request.")
          else
            Ret (EditResult.mk resultImage
                   (if truthy resultText then resultText
                    else "Image edited successfully.")
                   resultMimeType)))
    editCatch.

(** ** generateBook (lines 238-294) *)

Definition is_lf (c : ascii) : bool := Ascii.eqb c lf_char.

(** The dot under the [s] flag. *)
Definition any_char (_ : ascii) : bool := true.

(** The pattern of line 266: three backquotes, an optional group 1 of
    word characters, white space, an optional line feed, the lazy group
    2, an optional line feed, white space, three backquotes, the end. *)
Definition fenceRegex : Regex.re :=
  Regex.Lit "```" ⋅ Regex.Opt (Regex.Grp 1 (Regex.StarG is_word))
  ⋅ Regex.StarG is_js_space ⋅ Regex.Opt (Regex.Cls is_lf)
  ⋅ Regex.Grp 2 (Regex.StarL any_char)
  ⋅ Regex.Opt (Regex.Cls is_lf) ⋅ Regex.StarG is_js_space
  ⋅ Regex.Lit "```" ⋅ Regex.Eos.

(** Lines 265-270: the text that goes to [JSON.parse]. *)
Definition stripFence (text : option string) : string :=
  let jsonStr := trim (or_else text "") in
  match Regex.match_anchored fenceRegex jsonStr with
  | Some c =>
      match Regex.capture 2 c with
      | Some g => if truthy g then trim g else jsonStr
      | None => jsonStr
      end
  | None => jsonStr
  end.

(** The [try] block of lines 264-275; [None] when it throws. *)
Definition parseOutline (text : option string) : option Json.json :=
  Json.parse (stripFence text).

Definition outlineSchema : Schema :=
  SObject [("title", SString); ("chapters", SArray SString)]
    ["title"; "chapters"].

Definition outlineRequest (topic : string) : Request :=
  mkRequest MODEL_NAME
    (Prompt ("Generate a comprehensive book outline for the topic: "
             +:+ q topic
             +:+ ". Include a book title and a list of 5-7 relevant chapter titles. Return ONLY a JSON object."))
    (mkConfig None false None (Some "application/json")
       (Some outlineSchema) None).

Definition chapterRequest (topic : string) (chapterTitle : Json.json)
    : Request :=
  mkRequest MODEL_NAME (ChapterPrompt topic chapterTitle)
    (mkConfig None true None None None None).

Definition chapterPlaceholder : string :=
  "Content generation for this chapter failed.".

(** The [then] callback of lines 285-288, on the outcome of the
    chapter's call: a rejection passes through. *)
Definition thenChapter (chapterTitle : Json.json) (o : Outcome)
    : Chapter.t + Thrown :=
  match o with
  | Resolved response =>
      inl (Chapter.mk chapterTitle
             (or_else (Response.text response) chapterPlaceholder))
  | Rejected e => inr e
  end.

(** [Promise.all]: every value, or a rejection.  Of several rejections
    the model reports the first one in array order. *)
Fixpoint promiseAll {A} (ps : list (A + Thrown)) : list A + Thrown :=
  match ps with
  | [] => inl []
  | inr e :: _ => inr e
  | inl a :: ps' =>
      match promiseAll ps' with
      | inl rest => inl (a :: rest)
      | inr e => inr e
      end
  end.

(** Line 277 and the [map] of line 280 need [outline] to be an object
    whose [chapters] is an array; anything else is a [TypeError], with
    the message of the engine (here as V8 words it). *)
Definition chapterTitlesOf (outline : Json.json)
    : list Json.json + Thrown :=
  match outline with
  | Json.JNull =>
      inr (Error "Cannot destructure property 'title' of 'outline' as it is null.")
  | _ =>
      match Json.get "chapters" outline with
      | Some (Json.JArr cs) => inl cs
      | Some Json.JNull =>
          inr (Error "Cannot read properties of null (reading 'map')")
      | Some _ => inr (Error "chapterTitles.map is not a function")
      | None =>
          inr (Error "Cannot read properties of undefined (reading 'map')")
      end
  end.

Definition generateBook (topic : string) : Async Book.t :=
  bind (call (outlineRequest topic)) (fun outlineResponse =>
    match parseOutline (Response.text outlineResponse) with
    | None => Throw (Error "Could not generate a valid book outline.")
    | Some outline =>
        match chapterTitlesOf outline with
        | inr e => Throw e
        | inl chapterTitles =>
            bind (awaitAll (List.map (chapterRequest topic) chapterTitles))
              (fun outcomes =>
                 match promiseAll
                         (zip_with thenChapter chapterTitles outcomes) with
                 | inl resolvedChapters =>
                     Ret (Book.mk (Json.get "title" outline) resolvedChapters)
                 | inr e => Throw e
                 end)
        end
    end).

End Gemini.

(* ===================================================================== *)
(** * App.tsx: the state of the session controller *)
(* ===================================================================== *)

Module App.
Import JS Remote Asyn.

Inductive Mode : Type := chat | image | book.

#[global] Instance Mode_eq_dec : EqDecision Mode.
Proof. solve_decision. Defined.

(** The [useState] cells of [App].  [urlGroupsRef] and [fileContextRef]
    stand for the identity of the array and of the object held by
    [urlGroups] and [fileContext]: React compares the dependencies of
    an effect by identity, and every [setUrlGroups] of the file stores
    a fresh array.  The cells [isSidebarOpen], [userEmail] and
    [isAppLoading], and the credential kept in local storage, are read
    by none of the operations below and are left out; the state starts
    after the groups have been loaded. *)
Record AppState : Type := mkApp {
  urlGroups : list URLGroup.t;
  urlGroupsRef : nat;
  activeUrlGroupId : string;
  fileContext : option FileContext.t;
  fileContextRef : nat;
  chatMessages : list ChatMessage.t;
  isLoading : bool;
  isFetchingSuggestions : bool;
  initialQuerySuggestions : list string;
  mode : Mode;
  useWebSearch : bool;
  useThinking : bool;
  customPrompt : string;
  isLoggedIn : bool }.

Definition MAX_URLS : nat := 20.

(** ** State setters *)

Definition setUrlGroups (v : list URLGroup.t) (s : AppState) : AppState :=
  mkApp v (S (urlGroupsRef s)) (activeUrlGroupId s) (fileContext s)
    (fileContextRef s) (chatMessages s) (isLoading s)
    (isFetchingSuggestions s) (initialQuerySuggestions s) (mode s)
    (useWebSearch s) (useThinking s) (customPrompt s) (isLoggedIn s).

Definition setActiveUrlGroupId (v : string) (s : AppState) : AppState :=
  mkApp (urlGroups s) (urlGroupsRef s) v (fileContext s)
    (fileContextRef s) (chatMessages s) (isLoading s)
    (isFetchingSuggestions s) (initialQuerySuggestions s) (mode s)
    (useWebSearch s) (useThinking s) (customPrompt s) (isLoggedIn s).

(** [setFileContext(null)] on a context that is already [null] stores
    the same value. *)
Definition setFileContext (v : option FileContext.t) (s : AppState)
    : AppState :=
  mkApp (urlGroups s) (urlGroupsRef s) (activeUrlGroupId s) v
    (match v, fileContext s with
     | None, None => fileContextRef s
     | _, _ => S (fileContextRef s)
     end)
    (chatMessages s) (isLoading s)
    (isFetchingSuggestions s) (initialQuerySuggestions s) (mode s)
    (useWebSearch s) (useThinking s) (customPrompt s) (isLoggedIn s).

Definition setChatMessages (v : list ChatMessage.t) (s : AppState)
    : AppState :=
  mkApp (urlGroups s) (urlGroupsRef s) (activeUrlGroupId s) (fileContext s)
    (fileContextRef s) v (isLoading s)
    (isFetchingSuggestions s) (initialQuerySuggestions s) (mode s)
    (useWebSearch s) (useThinking s) (customPrompt s) (isLoggedIn s).

(** [setChatMessages(prev => f(prev))]. *)
Definition updChatMessages
    (f : list ChatMessage.t -> list ChatMessage.t) (s : AppState)
    : AppState :=
  setChatMessages (f (chatMessages s)) s.

Definition setIsLoading (v : bool) (s : AppState) : AppState :=
  mkApp (urlGroups s) (urlGroupsRef s) (activeUrlGroupId s) (fileContext s)
    (fileContextRef s) (chatMessages s) v
    (isFetchingSuggestions s) (initialQuerySuggestions s) (mode s)
    (useWebSearch s) (useThinking s) (customPrompt s) (isLoggedIn s).

Definition setIsFetchingSuggestions (v : bool) (s : AppState) : AppState :=
  mkApp (urlGroups s) (urlGroupsRef s) (activeUrlGroupId s) (fileContext s)
    (fileContextRef s) (chatMessages s) (isLoading s)
    v (initialQuerySuggestions s) (mode s)
    (useWebSearch s) (useThinking s) (customPrompt s) (isLoggedIn s).

Definition setInitialQuerySuggestions (v : list string) (s : AppState)
    : AppState :=
  mkApp (urlGroups s) (urlGroupsRef s) (activeUrlGroupId s) (fileContext s)
    (fileContextRef s) (chatMessages s) (isLoading s)
    (isFetchingSuggestions s) v (mode s)
    (useWebSearch s) (useThinking s) (customPrompt s) (isLoggedIn s).

Definition setMode (v : Mode) (s : AppState) : AppState :=
  mkApp (urlGroups s) (urlGroupsRef s) (activeUrlGroupId s) (fileContext s)
    (fileContextRef s) (chatMessages s) (isLoading s)
    (isFetchingSuggestions s) (initialQuerySuggestions s) v
    (useWebSearch s) (useThinking s) (customPrompt s) (isLoggedIn s).

Definition setUseWebSearch (v : bool) (s : AppState) : AppState :=
  mkApp (urlGroups s) (urlGroupsRef s) (activeUrlGroupId s) (fileContext s)
    (fileContextRef s) (chatMessages s) (isLoading s)
    (isFetchingSuggestions s) (initialQuerySuggestions s) (mode s)
    v (useThinking s) (customPrompt s) (isLoggedIn s).

Definition setUseThinking (v : bool) (s : AppState) : AppState :=
  mkApp (urlGroups s) (urlGroupsRef s) (activeUrlGroupId s) (fileContext s)
    (fileContextRef s) (chatMessages s) (isLoading s)
    (isFetchingSuggestions s) (initialQuerySuggestions s) (mode s)
    (useWebSearch s) v (customPrompt s) (isLoggedIn s).

Definition setCustomPrompt (v : string) (s : AppState) : AppState :=
  mkApp (urlGroups s) (urlGroupsRef s) (activeUrlGroupId s) (fileContext s)
    (fileContextRef s) (chatMessages s) (isLoading s)
    (isFetchingSuggestions s) (initialQuerySuggestions s) (mode s)
    (useWebSearch s) (useThinking s) v (isLoggedIn s).

Definition setIsLoggedIn (v : bool) (s : AppState) : AppState :=
  mkApp (urlGroups s) (urlGroupsRef s) (activeUrlGroupId s) (fileContext s)
    (fileContextRef s) (chatMessages s) (isLoading s)
    (isFetchingSuggestions s) (initialQuerySuggestions s) (mode s)
    (useWebSearch s) (useThinking s) (customPrompt s) v.

(** ** Derived values (lines 326-327) *)

Definition hasId (i : string) (g : URLGroup.t) : bool :=
  String.eqb (URLGroup.id g) i.

Definition findGroup (i : string) (gs : list URLGroup.t)
    : option URLGroup.t :=
  List.find (hasId i) gs.

Definition activeGroup (s : AppState) : option URLGroup.t :=
  findGroup (activeUrlGroupId s) (urlGroups s).

Definition currentUrlsForChat (s : AppState) : list string :=
  match activeGroup s with
  | Some g => URLGroup.urls g
  | None => []
  end.

(** ** Synchronous handlers (lines 440-499).  The argument state is the
    one of the render the handler was created in, which is the current
    one when an event reaches it. *)

Definition handleAddUrl (url : string) (s : AppState) : AppState :=
  setUrlGroups
    (List.map (fun group =>
       if hasId (activeUrlGroupId s) group
       then URLGroup.mk (URLGroup.id group) (URLGroup.name group)
              (firstn MAX_URLS (URLGroup.urls group ++ [url])%list)
       else group) (urlGroups s)) s.

Module File.
Record t : Type := mk { name : string; type : string; text : string }.
End File.

(** [FileReader] delivers the text of the file to [onload]. *)
Definition handleAddFile (file : File.t) (s : AppState) : AppState :=
  if negb (String.eqb (File.type file) "text/plain") then s
  else setFileContext
         (Some (FileContext.mk (File.name file) (File.text file))) s.

Definition handleRemoveFile (s : AppState) : AppState :=
  setFileContext None s.

Definition handleSetTextContext (content : string) (s : AppState)
    : AppState :=
  if truthy (trim content)
  then setFileContext
         (Some (FileContext.mk "Pasted Content" (trim content))) s
  else setFileContext None s.

Definition handleRemoveUrl (urlToRemove : string) (s : AppState)
    : AppState :=
  setUrlGroups
    (List.map (fun group =>
       if hasId (activeUrlGroupId s) group
       then URLGroup.mk (URLGroup.id group) (URLGroup.name group)
              (List.filter (fun url => negb (String.eqb url urlToRemove))
                 (URLGroup.urls group))
       else group) (urlGroups s)) s.

Definition newGroupId (now : N) : string := "group-" +:+ pretty now.

Definition handleAddGroup (name : string) (now : N) (s : AppState)
    : AppState :=
  let newGroup := URLGroup.mk (newGroupId now) name [] in
  setActiveUrlGroupId (URLGroup.id newGroup)
    (setUrlGroups (urlGroups s ++ [newGroup])%list s).

(** [confirm] is the answer of [window.confirm], asked only when more
    than one group exists. *)
Definition handleRemoveGroup (groupId : string) (confirm : bool)
    (s : AppState) : AppState :=
  if (List.length (urlGroups s) <=? 1)%nat then s
  else if confirm then
    let remaining :=
      List.filter (fun g => negb (hasId groupId g)) (urlGroups s) in
    let s1 :=
      if String.eqb (activeUrlGroupId s) groupId
      then setActiveUrlGroupId
             (or_else (URLGroup.id <$> head remaining) "") s
      else s in
    setUrlGroups remaining s1
  else s.

Definition handleRenameGroup (groupId newName : string) (s : AppState)
    : AppState :=
  if negb (truthy (trim newName)) then s
  else setUrlGroups
         (List.map (fun g =>
            if hasId groupId g
            then URLGroup.mk (URLGroup.id g) (trim newName) (URLGroup.urls g)
            else g) (urlGroups s)) s.

Definition handleLogin (s : AppState) : AppState := setIsLoggedIn true s.
Definition handleLogout (s : AppState) : AppState := setIsLoggedIn false s.

(** ** Effects that only set state (lines 364-398) *)

(** Lines 364-373, without the write to local storage: the closure [c]
    is the rendered state, the updates go to [s]. *)
Definition groupsEffect (c : AppState) (now : N) (s : AppState)
    : AppState :=
  if (0 <? List.length (urlGroups c))%nat
     && negb (existsb (hasId (activeUrlGroupId c)) (urlGroups c))
  then setActiveUrlGroupId
         (default "" (URLGroup.id <$> head (urlGroups c))) s
  else if (List.length (urlGroups c) =? 0)%nat then
    let newDefaultGroup :=
      URLGroup.mk (newGroupId now) "My Knowledge Base" [] in
    setActiveUrlGroupId (URLGroup.id newDefaultGroup)
      (setUrlGroups [newDefaultGroup] s)
  else s.

(** The name shown for the active group: ['Untitled'] when there is no
    such group or its name is empty. *)
Definition groupLabel (g : option URLGroup.t) : string :=
  or_else (URLGroup.name <$> g) "Untitled".

Definition hasContent (g : option URLGroup.t)
    (fc : option FileContext.t) : bool :=
  match g with
  | Some x => (0 <? List.length (URLGroup.urls x))%nat
  | None => false
  end || bool_decide (is_Some fc).

Definition welcomeMessageText (c : AppState) : string :=
  let currentActiveGroup := activeGroup c in
  "Welcome to Chat Mode! You're viewing the "
  +:+ q (groupLabel currentActiveGroup) +:+ " knowledge base."
  +:+ (if hasContent currentActiveGroup (fileContext c)
       then " Ask me anything, or try a suggestion."
       else " Add documentation URLs or a file to start asking questions.").

Definition welcomeMessage (c : AppState) (now : N) : ChatMessage.t :=
  ChatMessage.mk
    ("system-welcome-" +:+ activeUrlGroupId c +:+ "-" +:+ pretty now)
    (welcomeMessageText c) SYSTEM now None None.

(** Lines 381-398. *)
Definition welcomeEffect (c : AppState) (now : N) (s : AppState)
    : AppState :=
  if negb (bool_decide (mode c = chat)) then s
  else setChatMessages [welcomeMessage c now] s.

(** ** Handlers that await the gateway *)

Inductive Origin : Type := ChatSend | SuggestionFetch.

#[global] Instance Origin_eq_dec : EqDecision Origin.
Proof. solve_decision. Defined.

(** A handler: a run of state updates, suspended at each remote call.
    The continuation of a call receives its outcome and the time at
    which it resumes. *)
Inductive Proc : Type :=
| Done
| Update (f : AppState -> AppState) (k : Proc)
| Wait (o : Origin) (r : Request) (k : Outcome -> N -> Proc).

(** [try { x = await m; ... } catch (e) { ... }] around a gateway
    operation [m]: [k] gets its value or what it threw. *)
Fixpoint await_async {A} (o : Origin) (m : Async A) (now : N)
    (k : A + Thrown -> N -> Proc) : Proc :=
  match m with
  | Ret a => k (inl a) now
  | Throw e => k (inr e) now
  | Await r c => Wait o r (fun out now' => await_async o (c out) now' k)
  end.

(** [e.message] of a caught value. *)
Definition messageOf (e : Thrown) : option string :=
  match e with
  | IsError x => Some (message x)
  | NotError => None
  end.

(** A value that may be [undefined], inside a template literal. *)
Definition show (v : option string) : string := default "undefined" v.

Definition replaceById (i : string) (new : ChatMessage.t)
    (prev : list ChatMessage.t) : list ChatMessage.t :=
  List.map (fun msg => if String.eqb (ChatMessage.id msg) i then new else msg)
    prev.

(** Lines 501-522.  [c] is the rendered state the handler closes over. *)
Definition handleSendMessage (c : AppState) (query : string) (now : N)
    : Proc :=
  if negb (truthy (trim query)) || isLoading c || isFetchingSuggestions c
  then Done
  else
    let userMessage :=
      ChatMessage.mk ("user-" +:+ pretty now) query USER now None None in
    let modelPlaceholder :=
      ChatMessage.mk ("model-" +:+ pretty now) "Thinking..." MODEL now
        (Some true) None in
    Update (setIsLoading true)
      (Update (setInitialQuerySuggestions [])
         (Update (updChatMessages
                 (fun prev => (prev ++ [userMessage; modelPlaceholder])%list))
            (await_async ChatSend
               (Gemini.generateContentWithUrlContext query
                  (currentUrlsForChat c) (fileContext c) (useWebSearch c)
                  (useThinking c) (customPrompt c))
               now
               (fun res _ =>
                  match res with
                  | inl response =>
                      Update (updChatMessages
                             (replaceById (ChatMessage.id modelPlaceholder)
                                (ChatMessage.mk
                                   (ChatMessage.id modelPlaceholder)
                                   (or_else
                                      (Some (Gemini.GeminiResponse.text response))
                                      "I received an empty response.")
                                   MODEL now (Some false)
                                   (Gemini.GeminiResponse.urlContextMetadata
                                      response))))
                        (Update (setIsLoading false) Done)
                  | inr e =>
                      Update (updChatMessages
                             (replaceById (ChatMessage.id modelPlaceholder)
                                (ChatMessage.mk
                                   (ChatMessage.id modelPlaceholder)
                                   ("Error: " +:+ show (messageOf e))
                                   SYSTEM now (Some false) None)))
                        (Update (setIsLoading false) Done)
                  end)))).

(** [text.replace(/^```json\s*|```\s*$/g, '')] of line 413: a leading
    fence with its white space, and a fence that only white space
    follows. *)
Fixpoint stripTailFence (s : string) : string :=
  match s with
  | EmptyString => EmptyString
  | String ch s' =>
      match strip_prefix "```" s with
      | Some r =>
          if all_chars is_js_space r then EmptyString
          else String ch (stripTailFence s')
      | None => String ch (stripTailFence s')
      end
  end.

Definition stripJsonFence (s : string) : string :=
  stripTailFence
    match strip_prefix "```json" s with
    | Some r => trimStart r
    | None => s
    end.

(** Lines 410-420: the strings of the [suggestions] array, or nothing. *)
Definition parseSuggestions (text : string) : list string :=
  if truthy text then
    match Json.parse (stripJsonFence (trim text)) with
    | Some parsed =>
        match Json.get "suggestions" parsed with
        | Some (Json.JArr xs) =>
            omap (fun x => match x with Json.JStr t => Some t | _ => None end)
              xs
        | _ => []
        end
    | None => []
    end
  else [].

(** Lines 401-428. *)
Definition fetchAndSetInitialSuggestions (currentUrls : list string)
    (fileCtx : option FileContext.t) (now : N) : Proc :=
  if (List.length currentUrls =? 0)%nat && negb (bool_decide (is_Some fileCtx))
  then Done
  else
    let fileContent :=
      match fileCtx with
      | Some fc => if truthy (FileContext.content fc)
                   then Some (FileContext.content fc) else None
      | None => None
      end in
    Update (setIsFetchingSuggestions true)
      (Update (setInitialQuerySuggestions [])
         (await_async SuggestionFetch
            (Gemini.getInitialSuggestions currentUrls fileContent) now
            (fun res now' =>
               match res with
               | inl response =>
                   Update (setInitialQuerySuggestions
                          (firstn 4
                             (parseSuggestions
                                (Gemini.GeminiResponse.text response))))
                     (Update (setIsFetchingSuggestions false) Done)
               | inr e =>
                   let errorMessage :=
                     or_else (messageOf e)
                       "Failed to fetch initial suggestions." in
                   Update (updChatMessages (fun prev =>
                          (prev ++
                           [ChatMessage.mk
                              ("sys-err-suggestion-fetch-" +:+ pretty now')
                              ("Error: " +:+ errorMessage) SYSTEM now'
                              None None])%list))
                     (Update (setIsFetchingSuggestions false) Done)
               end))).

(** Lines 430-437. *)
Definition suggestionsEffect (c : AppState) (now : N) : Proc :=
  if bool_decide (mode c = chat)
     && ((0 <? List.length (currentUrlsForChat c))%nat
         || bool_decide (is_Some (fileContext c)))
  then fetchAndSetInitialSuggestions (currentUrlsForChat c) (fileContext c) now
  else Update (setInitialQuerySuggestions []) Done.

End App.

(* ===================================================================== *)
(** * components/KnowledgeBaseManager.tsx *)
(* ===================================================================== *)

Module KBM.
Import JS.

(** The [useState] cells of the URL form. *)
Record KbmState : Type := mkKbm {
  currentUrlInput : string;
  error : option string }.

Definition initial : KbmState := mkKbm "" None.

Definition errEmpty : string := "URL cannot be empty.".
Definition errInvalid : string :=
  "Invalid URL format. Please include http:// or https://".
Definition errLimit (maxUrls : nat) : string :=
  "You can add a maximum of " +:+ pretty maxUrls
  +:+ " URLs to the current group.".
Definition errDuplicate : string :=
  "This URL has already been added to the current group.".

Section UrlForm.
(** [isValidUrl] (lines 78-85) asks the URL parser of the browser whether
    [new URL(urlString)] throws. *)
Variable isValidUrl : string -> bool.

(** Lines 87-107, on the props [urls] and [maxUrls]: the state of the form
    afterwards, and the argument of [onAddUrl] when it is called. *)
Definition handleAddUrl (urls : list string) (maxUrls : nat)
    (k : KbmState) : KbmState * option string :=
  let input := currentUrlInput k in
  if negb (truthy (trim input)) then (mkKbm input (Some errEmpty), None)
  else if negb (isValidUrl input) then (mkKbm input (Some errInvalid), None)
  else if (maxUrls <=? List.length urls)%nat then
    (mkKbm input (Some (errLimit maxUrls)), None)
  else if existsb (String.eqb input) urls then
    (mkKbm input (Some errDuplicate), None)
  else (mkKbm "" None, Some input).
End UrlForm.

(** Lines 116-121: the argument of [onAddGroup] when it is called. *)
Definition handleAddNewGroup (newGroupName : string) : option string :=
  if truthy (trim newGroupName) then Some (trim newGroupName) else None.

(** Lines 109-114: the arguments of [onRenameGroup] when it is called. *)
Definition handleConfirmRename (renameInput : string)
    (activeGroup : option URLGroup.t) : option (string * string) :=
  match activeGroup with
  | Some g =>
      if truthy (trim renameInput)
      then Some (URLGroup.id g, trim renameInput) else None
  | None => None
  end.

End KBM.

(* ===================================================================== *)
(** * The running application: events, renders and pending calls *)
(* ===================================================================== *)

Module Session.
Import JS Remote Asyn App.

(** A remote call that has not resolved yet, with what resumes on its
    outcome. *)
Record Pending : Type := mkPending {
  origin : Origin;
  request : Request;
  resume : Outcome -> N -> Proc }.

Record Sys : Type := mkSys {
  app : AppState;
  kbm : KBM.KbmState;
  pending : list Pending }.

(** Run a handler up to its end or to its next remote call. *)
Fixpoint exec (p : Proc) (s : AppState) : AppState * list Pending :=
  match p with
  | Done => (s, [])
  | Update f k => exec k (f s)
  | Wait o r k => (s, [mkPending o r k])
  end.

(** ** Renders *)

(** The dependencies of the effect of line 364 and of the one of line 381
    differ between two renders. *)
Definition groupsDepsChanged (prev cur : AppState) : bool :=
  negb (urlGroupsRef prev =? urlGroupsRef cur)%nat
  || negb (String.eqb (activeUrlGroupId prev) (activeUrlGroupId cur)).

Definition welcomeDepsChanged (prev cur : AppState) : bool :=
  groupsDepsChanged prev cur
  || negb (fileContextRef prev =? fileContextRef cur)%nat
  || negb (bool_decide (mode prev = mode cur)).

(** One commit: the state-setting effects whose dependencies changed
    since the previous render run in source order, each on the rendered
    state [cur]. *)
Definition commit (prev cur : AppState) (now : N) : AppState :=
  let s := cur in
  let s := if groupsDepsChanged prev cur then groupsEffect cur now s else s in
  if welcomeDepsChanged prev cur then welcomeEffect cur now s else s.

(** The renders that follow an update from [prev] to [cur]: a second
    commit sees what the effects of the first one stored. *)
Definition flush (prev cur : AppState) (now : N) : AppState :=
  commit cur (commit prev cur now) now.

(** ** Events *)

Inductive Event : Type :=
| AddUrl (input : string)          (* fill the URL field and submit it *)
| RemoveUrl (url : string)
| SelectGroup (id : string)
| AddGroup (newGroupName : string)
| RemoveGroup (confirm : bool)     (* the delete button, then the dialog *)
| RenameGroup (renameInput : string)
| AddFile (file : File.t)
| RemoveFile
| SaveText (pastedText : string)
| SendMessage (query : string)     (* the send button, or a suggestion *)
| SetUseWebSearch (v : bool)
| SetUseThinking (v : bool)
| SetCustomPrompt (v : string)
| ChangeMode (m : Mode)
| Login
| Logout
| RunSuggestionsEffect             (* the effect of line 430 runs *)
| Resolve (i : nat) (o : Outcome). (* the i-th pending call resolves *)

Section Step.
Variable isValidUrl : string -> bool.

(** What an event does before the renders it causes.  The knowledge-base
    panel and the chat panel exist only in chat mode (line 557) and, like
    the header, only when logged in (line 549); the login form only when
    logged out.  When the effect of line 430 runs is decided by the
    identity of the array [currentUrlsForChat], which the model does not
    track: the effect is an event of its own.  An event carries any
    text; what the URL field can hand over is told by
    [Spec.urlFieldValue]. *)
Definition handle (s : Sys) (ev : Event) (now : N) : Sys :=
  let a := app s in
  let inChat := isLoggedIn a && bool_decide (mode a = chat) in
  match ev with
  | AddUrl input =>
      if inChat then
        let '(k', added) :=
          KBM.handleAddUrl isValidUrl (currentUrlsForChat a) MAX_URLS
            (KBM.mkKbm input (KBM.error (kbm s))) in
        mkSys (match added with Some url => handleAddUrl url a | None => a end)
          k' (pending s)
      else s
  | RemoveUrl url =>
      if inChat then mkSys (handleRemoveUrl url a) (kbm s) (pending s) else s
  | SelectGroup i =>
      if inChat && existsb (hasId i) (urlGroups a)
      then mkSys (setActiveUrlGroupId i a) (kbm s) (pending s) else s
  | AddGroup newGroupName =>
      match inChat, KBM.handleAddNewGroup newGroupName with
      | true, Some name => mkSys (handleAddGroup name now a) (kbm s) (pending s)
      | _, _ => s
      end
  | RemoveGroup confirm =>
      if inChat
      then mkSys (handleRemoveGroup (activeUrlGroupId a) confirm a)
             (kbm s) (pending s)
      else s
  | RenameGroup renameInput =>
      match inChat, KBM.handleConfirmRename renameInput (activeGroup a) with
      | true, Some (i, name) =>
          mkSys (handleRenameGroup i name a) (kbm s) (pending s)
      | _, _ => s
      end
  | AddFile file =>
      if inChat then mkSys (handleAddFile file a) (kbm s) (pending s) else s
  | RemoveFile =>
      if inChat then mkSys (handleRemoveFile a) (kbm s) (pending s) else s
  | SaveText pastedText =>
      if inChat
      then mkSys (handleSetTextContext pastedText a) (kbm s) (pending s)
      else s
  | SendMessage query =>
      if inChat then
        let '(a', new) := exec (handleSendMessage a query now) a in
        mkSys a' (kbm s) (pending s ++ new)%list
      else s
  | SetUseWebSearch v =>
      if inChat then mkSys (setUseWebSearch v a) (kbm s) (pending s) else s
  | SetUseThinking v =>
      if inChat then mkSys (setUseThinking v a) (kbm s) (pending s) else s
  | SetCustomPrompt v =>
      if inChat then mkSys (setCustomPrompt v a) (kbm s) (pending s) else s
  | ChangeMode m =>
      if isLoggedIn a && negb (bool_decide (mode a = m))
      then mkSys (setMode m a) KBM.initial (pending s) else s
  | Login =>
      if isLoggedIn a then s else mkSys (handleLogin a) (kbm s) (pending s)
  | Logout =>
      if isLoggedIn a then mkSys (handleLogout a) KBM.initial (pending s) else s
  | RunSuggestionsEffect =>
      let '(a', new) := exec (suggestionsEffect a now) a in
      mkSys a' (kbm s) (pending s ++ new)%list
  | Resolve i o =>
      match pending s !! i with
      | Some p =>
          let '(a', new) := exec (resume p o now) a in
          mkSys a' (kbm s) (delete i (pending s) ++ new)%list
      | None => s
      end
  end.

(** An event, then the renders it causes. *)
Definition step (s : Sys) (ev : Event) (now : N) : Sys :=
  let s' := handle s ev now in
  mkSys (flush (app s) (app s') now) (kbm s') (pending s').

(** A run: each event comes with the time at which it happens. *)
Fixpoint steps (s : Sys) (evs : list (Event * N)) : Sys :=
  match evs with
  | [] => s
  | (ev, now) :: evs' => steps (step s ev now) evs'
  end.
End Step.


End Session.

(* ===================================================================== *)
(** * Predicates and sample data used by the statements *)
(* ===================================================================== *)

Module Props.
Import JS Remote Asyn App Session.

(** The first, respectively the last, code unit of [s] is white space. *)
Definition starts_ws (s : string) : bool :=
  match s with
  | String c _ => is_js_space c
  | EmptyString => false
  end.

Fixpoint ends_ws (s : string) : bool :=
  match s with
  | EmptyString => false
  | String c EmptyString => is_js_space c
  | String _ s' => ends_ws s'
  end.

(** Some part of some candidate of the response carries inline data. *)
Definition hasImagePart (response : Response.t) : bool :=
  existsb
    (fun c => existsb (fun p => bool_decide (is_Some (Part.inlineData p)))
                (default [] (Candidate.parts c)))
    (default [] (Response.candidates response)).

(** No group holds more than [MAX_URLS] URLs. *)
Definition urlsBounded (a : AppState) : Prop :=
  Forall (fun g => List.length (URLGroup.urls g) <= MAX_URLS) (urlGroups a).

(** The knowledge-base and chat panels are on screen. *)
Definition inChat (a : AppState) : Prop :=
  isLoggedIn a = true /\ mode a = chat.

(** A response of the remote model that carries [text] and nothing else. *)
Definition textResponse (text : option string) : Response.t :=
  Response.mk text None.

(** A response carries no text when [response.text] is [undefined] or
    empty. *)
Definition noText (r : Response.t) : Prop :=
  Response.text r = None \/ Response.text r = Some "".

(** The outline of the specification's example, and its text. *)
Definition exampleOutline : Json.json :=
  Json.JObj
    [("title", Json.JStr "T");
     ("chapters", Json.JArr [Json.JStr "A"; Json.JStr "B"])].

Definition exampleText : string :=
  Eval vm_compute in
    "{" +:+ q "title" +:+ ":" +:+ q "T" +:+ "," +:+ q "chapters" +:+ ":["
    +:+ q "A" +:+ "," +:+ q "B" +:+ "]}".

(** A stand-in for the URL parser in examples: it accepts what starts
    with a scheme of the web. *)
Definition sampleIsValidUrl (s : string) : bool :=
  bool_decide (is_Some (strip_prefix "http://" s))
  || bool_decide (is_Some (strip_prefix "https://" s)).

Definition sampleUrl (n : nat) : string :=
  "https://docs.example.com/" +:+ pretty n.

Definition sampleApp (groups : list URLGroup.t) (active : string)
    (m : Mode) : AppState :=
  mkApp groups 0 active None 0 [] false false [] m false true "" true.

Definition sampleSys (groups : list URLGroup.t) (active : string)
    (m : Mode) : Sys :=
  mkSys (sampleApp groups active m) KBM.initial [].

(** A group at the limit and a group with room. *)
Definition fullGroup : URLGroup.t :=
  URLGroup.mk "group-1" "Full" (List.map sampleUrl (seq 0 20)).

Definition smallGroup : URLGroup.t :=
  URLGroup.mk "group-2" "Small" [sampleUrl 0].

Definition emptyGroup : URLGroup.t := URLGroup.mk "group-3" "Empty" [].

(** [a'] differs from [a] at most in the transcript, the suggestions and
    the two progress flags. *)
Definition sameContext (a a' : AppState) : Prop :=
  urlGroups a' = urlGroups a /\ urlGroupsRef a' = urlGroupsRef a
  /\ activeUrlGroupId a' = activeUrlGroupId a
  /\ fileContext a' = fileContext a /\ fileContextRef a' = fileContextRef a
  /\ mode a' = mode a /\ isLoggedIn a' = isLoggedIn a.

(** What resumes on the outcome of a pending call runs to its end
    without a further call, within [sameContext]; after a chat completion
    the loading flag is off, after a suggestion fetch it is as before. *)
Definition goodPending (p : Pending) : Prop :=
  forall (out : Outcome) (now : N) (a : AppState),
    exists a',
      exec (resume p out now) a = (a', [])
      /\ sameContext a a'
      /\ match origin p with
         | ChatSend => isLoading a' = false
         | SuggestionFetch => isLoading a' = isLoading a
         end.


(** The first code unit of [s] is in the class [p]. *)
Definition startsIn (p : ascii -> bool) (s : string) : bool :=
  match s with
  | String c _ => p c
  | EmptyString => false
  end.

(** Neither white space nor a backquote. *)
Definition isPlain (c : ascii) : bool :=
  negb (is_js_space c) && negb (Ascii.eqb c "`").

(** The chapter that the book holds for a chapter title and the response
    to its request. *)
Definition chapterOf (chapterTitle : Json.json) (r : Response.t)
    : Chapter.t :=
  Chapter.mk chapterTitle
    (or_else (Response.text r) Gemini.chapterPlaceholder).

(** A service that answers the outline request with the example, rejects
    the request of the first chapter and answers the other ones. *)
Definition failingService : Service :=
  fun n _ =>
    match n with
    | 0 => Resolved (textResponse (Some exampleText))
    | 1 => Rejected (Error "503 Service Unavailable")
    | _ => Resolved (textResponse (Some "Chapter body"))
    end.

(** The pattern of the fence, in parts: what closes the fence, what
    follows group 2, and what follows group 1. *)
Definition fenceClose : Regex.re :=
  Regex.StarG is_js_space ⋅ Regex.Lit "```" ⋅ Regex.Eos.

Definition fenceTail : Regex.re :=
  Regex.Opt (Regex.Cls Gemini.is_lf) ⋅ fenceClose.

Definition fenceGroup2 : Regex.re :=
  Regex.Grp 2 (Regex.StarL Gemini.any_char) ⋅ fenceTail.

Definition fenceInner : Regex.re :=
  Regex.StarG is_js_space ⋅ Regex.Opt (Regex.Cls Gemini.is_lf) ⋅ fenceGroup2.

Definition fenceAfterOpen : Regex.re :=
  Regex.Opt (Regex.Grp 1 (Regex.StarG is_word)) ⋅ fenceInner.

(** The continuation that ends a match: the captures are the result. *)
Definition matched : string -> Regex.caps -> option Regex.caps :=
  fun _ c => Some c.

End Props.

(* ===================================================================== *)
(** * services/geminiService.ts: generateImage (lines 204-234) *)
(* ===================================================================== *)

Module ImageGen.
Import JS Remote.

Record ImagesRequest : Type := mkImagesRequest {
  model : string;
  prompt : string;
  numberOfImages : nat;
  outputMimeType : string;
  aspectRatio : string }.

(** [imageBytes] is [generatedImages[i]?.image?.imageBytes]. *)
Record GeneratedImage : Type := mkGeneratedImage {
  imageBytes : option string }.

Record ImagesResponse : Type := mkImagesResponse {
  generatedImages : option (list GeneratedImage) }.

Inductive ImagesOutcome : Type :=
| ImagesResolved (r : ImagesResponse)
| ImagesRejected (e : Thrown).

Definition imagesRequest (prompt : string) : ImagesRequest :=
  mkImagesRequest "imagen-4.0-generate-001" prompt 1 "image/jpeg" "1:1".

Definition generateImageCatch (error : Thrown) : Thrown :=
  match error with
  | IsError e => Error ("Image generation failed: " +:+ message e)
  | NotError => Error "An unknown error occurred during image generation."
  end.

(** The body of [generateImage] after its one call: the [base64Image] it
    returns, or what it throws. *)
Definition generateImageThen (o : ImagesOutcome) : string + Thrown :=
  match o with
  | ImagesRejected e => inr (generateImageCatch e)
  | ImagesResolved response =>
      match generatedImages response with
      | None | Some [] =>
          inr (generateImageCatch (Error "The model did not return an image."))
      | Some (g :: _) => inl (or_else (imageBytes g) "")
      end
  end.

Definition generateImage (prompt : string)
    : ImagesRequest * (ImagesOutcome -> string + Thrown) :=
  (imagesRequest prompt, generateImageThen).

End ImageGen.

(* ===================================================================== *)
(** * App.tsx: the image editor and the book generator (lines 81-239) *)
(* ===================================================================== *)

Module Studio.
Import JS Remote.

(** [s.split(sep)] for a separator of one code unit. *)
Fixpoint split (sep : ascii) (s : string) : list string :=
  match s with
  | EmptyString => [EmptyString]
  | String c s' =>
      if Ascii.eqb c sep then EmptyString :: split sep s'
      else match split sep s' with
           | piece :: rest => String c piece :: rest
           | [] => [String c EmptyString]
           end
  end.

Module SourceImage.
Record t : Type := mk { fileType : string; dataUrl : string }.
End SourceImage.

Module ImageResult.
Record t : Type := mk { image : string; text : string; mimeType : string }.
End ImageResult.

(** The [useState] cells of [ImageEditor]. *)
Record ImageEditorState : Type := mkImageEditor {
  prompt : string;
  sourceImage : option SourceImage.t;
  result : option ImageResult.t;
  isLoading : bool;
  error : option string }.

(** The gateway call of [handleGenerate]; [base64Data] is
    [dataUrl.split(',')[1]], undefined without a comma. *)
Inductive ImageCall : Type :=
| CallEdit (prompt : string) (base64Data : option string) (mimeType : string)
| CallGenerate (prompt : string).

(** Lines 97-116, up to the call. *)
Definition handleGenerateStart (st : ImageEditorState)
    : ImageEditorState * option ImageCall :=
  if negb (truthy (trim (prompt st))) then
    (mkImageEditor (prompt st) (sourceImage st) (result st) (isLoading st)
       (Some "Please provide a prompt."), None)
  else
    (mkImageEditor (prompt st) (sourceImage st) None true None,
     Some match sourceImage st with
          | Some src =>
              CallEdit (prompt st)
                (split "," (SourceImage.dataUrl src) !! 1)
                (SourceImage.fileType src)
          | None => CallGenerate (prompt st)
          end).

(** [e.message || fallback] of a caught value. *)
Definition messageOr (e : Thrown) (fallback : string) : string :=
  match e with
  | IsError x => if truthy (message x) then message x else fallback
  | NotError => fallback
  end.

(** Lines 111 and 117-121: the state when [editImage] has settled. *)
Definition handleGenerateEdited (st : ImageEditorState)
    (r : Gemini.EditResult.t + Thrown) : ImageEditorState :=
  match r with
  | inl response =>
      mkImageEditor (prompt st) (sourceImage st)
        (Some (ImageResult.mk (Gemini.EditResult.base64Image response)
                 (Gemini.EditResult.text response)
                 (Gemini.EditResult.mimeType response)))
        false (error st)
  | inr e =>
      mkImageEditor (prompt st) (sourceImage st) (result st) false
        (Some (messageOr e "An unexpected error occurred."))
  end.

(** Lines 114-115 and 117-121: the state when [generateImage] has
    settled; [prompt] is the prompt the handler was started with. *)
Definition handleGenerateGenerated (prompt0 : string) (st : ImageEditorState)
    (r : string + Thrown) : ImageEditorState :=
  match r with
  | inl base64Image =>
      mkImageEditor (prompt st) (sourceImage st)
        (Some (ImageResult.mk base64Image
                 ("Generated image for: " +:+ q prompt0) "image/jpeg"))
        false (error st)
  | inr e =>
      mkImageEditor (prompt st) (sourceImage st) (result st) false
        (Some (messageOr e "An unexpected error occurred."))
  end.

(** The [useState] cells of [BookGenerator]. *)
Record BookGeneratorState : Type := mkBookGenerator {
  topic : string;
  book : option Book.t;
  isGenerating : bool;
  bookError : option string;
  activeIndex : nat }.

(** Lines 187-198, up to the call: the topic handed to [generateBook]. *)
Definition handleBookStart (st : BookGeneratorState)
    : BookGeneratorState * option string :=
  if negb (truthy (trim (topic st))) then
    (mkBookGenerator (topic st) (book st) (isGenerating st)
       (Some "Please enter a topic for your book.") (activeIndex st), None)
  else
    (mkBookGenerator (topic st) None true None (activeIndex st),
     Some (topic st)).

(** Lines 199-205: the state when [generateBook] has settled. *)
Definition handleBookDone (st : BookGeneratorState) (r : Book.t + Thrown)
    : BookGeneratorState :=
  match r with
  | inl generatedBook =>
      mkBookGenerator (topic st) (Some generatedBook) false (bookError st) 0
  | inr e =>
      mkBookGenerator (topic st) (book st) false
        (Some (messageOr e "Failed to generate the book.")) (activeIndex st)
  end.

(** [s.replace(/\s+/g, '_')]: every maximal run of white space becomes
    one underscore; [inRun] says that the previous code unit was white
    space. *)
Fixpoint replaceSpaceRuns (inRun : bool) (s : string) : string :=
  match s with
  | EmptyString => EmptyString
  | String c s' =>
      if is_js_space c then
        if inRun then replaceSpaceRuns true s'
        else String "_" (replaceSpaceRuns true s')
      else String c (replaceSpaceRuns false s')
  end.

(** Line 236: the name of the downloaded file, for a title that is a
    string ([replace] is no method of another value). *)
Definition downloadName (b : Book.t) : option string :=
  match Book.title b with
  | Some (Json.JStr title) => Some (replaceSpaceRuns false title +:+ ".html")
  | _ => None
  end.

End Studio.

(* ===================================================================== *)
(** * components/Login.tsx and the credentials in local storage *)
(* ===================================================================== *)

Module Credentials.
Import JS.

(** [localStorage]. *)
Definition Storage : Type := gmap string string.

Record LoginState : Type := mkLogin {
  apiKey : string;
  email : string;
  isLoading : bool;
  error : string }.

(** The outcome of the probe [fetch]: [response.ok], or a rejection. *)
Inductive FetchOutcome : Type :=
| FetchResolved (ok : bool)
| FetchRejected.

Definition probeUrl (apiKey : string) : string :=
  "https://generativelanguage.googleapis.com/v1beta/models?key=" +:+ apiKey.

(** [handleSubmit] (lines 20-34), up to the probe: the URL fetched, when
    the form passes validation. *)
Definition handleSubmitStart (st : LoginState) : LoginState * option string :=
  if negb (truthy (trim (apiKey st))) || negb (truthy (trim (email st))) then
    (mkLogin (apiKey st) (email st) (isLoading st)
       "Please enter both API key and email", None)
  else if negb (includes "@" (email st)) then
    (mkLogin (apiKey st) (email st) (isLoading st)
       "Please enter a valid email address", None)
  else (mkLogin (apiKey st) (email st) true "", Some (probeUrl (apiKey st))).

(** Lines 36-55: the form, the storage and the arguments of [onLogin]
    (when it is called) once the probe has settled. *)
Definition handleSubmitDone (st : LoginState) (store : Storage)
    (o : FetchOutcome)
    : LoginState * Storage * option (string * string) :=
  match o with
  | FetchResolved true =>
      (mkLogin (apiKey st) (email st) false (error st),
       <["has_logged_in" := "true"]>
         (<["user_email" := email st]>
            (<["gemini_api_key" := apiKey st]> store)),
       Some (apiKey st, email st))
  | _ =>
      (mkLogin (apiKey st) (email st) false
         "Invalid API key. Please check your key and try again.",
       store, None)
  end.

(** [checkLoginStatus] (App.tsx, lines 331-344): the e-mail address and
    the key of the session restored, if any. *)
Definition checkLoginStatus (store : Storage) : option (string * string) :=
  match store !! "has_logged_in", store !! "gemini_api_key",
        store !! "user_email" with
  | Some hasLoggedIn, Some savedApiKey, Some savedEmail =>
      if String.eqb hasLoggedIn "true" && truthy savedApiKey
         && truthy savedEmail
      then Some (savedEmail, savedApiKey) else None
  | _, _, _ => None
  end.

(** [handleLogout] (App.tsx, lines 493-495), on the storage. *)
Definition logoutStorage (store : Storage) : Storage :=
  delete "user_email" (delete "gemini_api_key" (delete "has_logged_in" store)).

End Credentials.

(* ===================================================================== *)
(** * App.tsx: the groups in local storage (lines 309-379, 524-534) *)
(* ===================================================================== *)

Module Persist.
Import JS Json.

(** A group as the object [{ id, name, urls }] that the handlers build. *)
Definition encodeGroup (g : URLGroup.t) : json :=
  JObj [("id", JStr (URLGroup.id g)); ("name", JStr (URLGroup.name g));
        ("urls", JArr (List.map JStr (URLGroup.urls g)))].

(** Line 365: [localStorage.setItem('urlGroups', JSON.stringify(urlGroups))]. *)
Definition saveGroups (urlGroups : list URLGroup.t)
    (store : Credentials.Storage) : Credentials.Storage :=
  <["urlGroups" := JsonPrint.stringify (JArr (List.map encodeGroup urlGroups))]>
    store.

Definition defaultGroups (now : N) : list json :=
  [encodeGroup
     (URLGroup.mk ("group-" +:+ pretty now) "My First Knowledge Base" [])].

(** [getInitialUrlGroups] (lines 524-534): the array it returns, which is
    the parsed value itself when that is an array that is not empty. *)
Definition getInitialUrlGroups (store : Credentials.Storage) (now : N)
    : list json :=
  match store !! "urlGroups" with
  | Some saved =>
      if truthy saved then
        match Json.parse saved with
        | Some (JArr (x :: xs)) => x :: xs
        | _ => defaultGroups now
        end
      else defaultGroups now
  | None => defaultGroups now
  end.

(** ** The active identifier (lines 356-361 and 375-379) *)

(** The digits at the head of [s]: their value behind [m], their count
    added to [k], and what follows them. *)
Fixpoint digits (s : string) (m k : N) : N * N * string :=
  match s with
  | String c s' =>
      if is_digit c
      then digits s' (10 * m + N.of_nat (nat_of_ascii c - 48))%N (k + 1)%N
      else (m, k, s)
  | EmptyString => (m, k, s)
  end.

(** A number lexeme as [m * 10^e], its sign aside. *)
Definition decimal (lexeme : string) : N * Z :=
  let s := match lexeme with String "-" s' => s' | _ => lexeme end in
  let '(m, _, s1) := digits s 0 0 in
  let '(m, k, s2) :=
    match s1 with
    | String "." s' => digits s' m 0
    | _ => (m, 0%N, s1)
    end in
  let e :=
    match s2 with
    | String _ (String "-" s') => (- Z.of_N (fst (fst (digits s' 0 0))))%Z
    | String _ (String "+" s') => Z.of_N (fst (fst (digits s' 0 0)))
    | String _ s' => Z.of_N (fst (fst (digits s' 0 0)))
    | EmptyString => 0%Z
    end in
  (m, (e - Z.of_N k)%Z).

(** [JSON.parse] reads a number as the double nearest to it, ties to
    even: as 0 exactly when it is at most 2^-1075, half the least
    positive double. *)
Definition reads_zero (lexeme : string) : bool :=
  let '(m, e) := decimal lexeme in
  (m =? 0)%N
  || ((e <? 0)%Z && (m * 2 ^ 1075 <=? 10 ^ Z.to_N (- e))%N).

(** Truthiness of a parsed value. *)
Definition js_truthy (v : json) : bool :=
  match v with
  | JNull => false
  | JBool b => b
  | JNum l => negb (reads_zero l)
  | JStr s => truthy s
  | JArr _ | JObj _ => true
  end.

(** Lines 375-379. *)
Definition saveActive (activeUrlGroupId : string)
    (store : Credentials.Storage) : Credentials.Storage :=
  if truthy activeUrlGroupId
  then <["activeUrlGroupId" := activeUrlGroupId]> store
  else store.

(** [g.id === savedActiveId], for a [g] that is not [null]. *)
Definition idIs (savedActiveId : string) (g : json) : bool :=
  match get "id" g with
  | Some (JStr s) => String.eqb s savedActiveId
  | _ => false
  end.

(** [userGroups.some(g => g.id === savedActiveId)]; [None] is the
    [TypeError] of reading [id] from [null]. *)
Fixpoint someIdIs (savedActiveId : string) (userGroups : list json)
    : option bool :=
  match userGroups with
  | [] => Some false
  | JNull :: _ => None
  | g :: rest =>
      if idIs savedActiveId g then Some true else someIdIs savedActiveId rest
  end.

(** [userGroups[0]?.id || '']. *)
Definition firstId (userGroups : list json) : json :=
  match head userGroups with
  | Some g =>
      match get "id" g with
      | Some v => if js_truthy v then v else JStr ""
      | None => JStr ""
      end
  | None => JStr ""
  end.

Inductive Active : Type :=
| Threw                (* line 357 threw the [TypeError] *)
| Chosen (id : json).  (* the argument of [setActiveUrlGroupId] *)

(** Lines 356-361. *)
Definition loadActive (store : Credentials.Storage) (userGroups : list json)
    : Active :=
  match store !! "activeUrlGroupId" with
  | Some savedActiveId =>
      if truthy savedActiveId then
        match someIdIs savedActiveId userGroups with
        | Some true => Chosen (JStr savedActiveId)
        | Some false => Chosen (firstId userGroups)
        | None => Threw
        end
      else Chosen (firstId userGroups)
  | None => Chosen (firstId userGroups)
  end.

(** ** The renders at start (lines 309-379)

    The first render has the initial values: [urlGroups] is the empty
    array (line 309), [activeUrlGroupId] the empty string (line 310) and
    [isAppLoading] is [true] (line 323).  After it every effect runs
    once, in source order, on those values.  The login check (lines
    330-347) sets [isAppLoading] to [false], so the load effect (lines
    350-362), whose only dependency that is, runs again after the
    second render, before the other effects of that commit. *)

(** What the effects leave: the storage, and what the load effect gave
    to [setUrlGroups] and to [setActiveUrlGroupId], if it ran. *)
Record Start : Type := mkStart {
  storage : Credentials.Storage;
  loaded : option (list json);
  chosen : option Active }.

(** Lines 350-362, for the value of [isAppLoading] of the render. *)
Definition loadEffect (isAppLoading : bool) (now : N) (st : Start) : Start :=
  if negb isAppLoading then
    let userGroups := getInitialUrlGroups (storage st) now in
    mkStart (storage st) (Some userGroups)
      (Some (loadActive (storage st) userGroups))
  else st.

(** Line 365, for the value of [urlGroups] of the render. *)
Definition groupsEffectWrite (urlGroups : list URLGroup.t) (st : Start)
    : Start :=
  mkStart (saveGroups urlGroups (storage st)) (loaded st) (chosen st).

(** Lines 375-379, for the value of [activeUrlGroupId] of the render. *)
Definition activeEffectWrite (activeUrlGroupId : string) (st : Start)
    : Start :=
  mkStart (saveActive activeUrlGroupId (storage st)) (loaded st) (chosen st).

(** The first commit: the three effects on the initial values. *)
Definition firstCommit (now : N) (st : Start) : Start :=
  activeEffectWrite "" (groupsEffectWrite [] (loadEffect true now st)).

(** From the storage of an earlier session to the load effect of the
    second commit. *)
Definition start (store : Credentials.Storage) (now1 now2 : N) : Start :=
  loadEffect false now2 (firstCommit now1 (mkStart store None None)).

End Persist.

(* ===================================================================== *)
(** * components/ChatInterface.tsx (lines 84-91) *)
(* ===================================================================== *)

Module ChatForm.
Import JS.

(** [handleSend]: the field afterwards, and the argument of
    [onSendMessage] when it is called. *)
Definition handleSend (userQuery : string) (isLoading : bool)
    : string * option string :=
  if truthy (trim userQuery) && negb isLoading
  then ("", Some (trim userQuery))
  else (userQuery, None).

Definition notSystem (m : ChatMessage.t) : bool :=
  match ChatMessage.sender m with
  | SYSTEM => false
  | _ => true
  end.

(** Line 91. *)
Definition showSuggestions (initialQuerySuggestions : list string)
    (messages : list ChatMessage.t) : bool :=
  (0 <? List.length initialQuerySuggestions)%nat
  && (List.length (List.filter notSystem messages) <=? 1)%nat.

End ChatForm.

(* ===================================================================== *)
(** * Further predicates used by the statements *)
(* ===================================================================== *)

Module Spec.
Import JS Remote Asyn App Session Props.

(** The inline data of the last part that carries some. *)
Fixpoint lastInline (parts : list Part.t) : option InlineData.t :=
  match parts with
  | [] => None
  | p :: ps =>
      match lastInline ps with
      | Some d => Some d
      | None => Part.inlineData p
      end
  end.

(** The mime type declared, not empty, by the last image part that
    declares one. *)
Fixpoint declaredMime (parts : list Part.t) : option string :=
  match parts with
  | [] => None
  | p :: ps =>
      match declaredMime ps with
      | Some m => Some m
      | None =>
          match Part.inlineData p with
          | Some d =>
              match InlineData.mimeType d with
              | Some m => if truthy m then Some m else None
              | None => None
              end
          | None => None
          end
      end
  end.

(** The texts of the parts without inline data, in order. *)
Fixpoint partsText (parts : list Part.t) : string :=
  match parts with
  | [] => ""
  | p :: ps =>
      match Part.inlineData p, Part.text p with
      | None, Some t => t +:+ partsText ps
      | _, _ => partsText ps
      end
  end.

(** The calls a handler leaves pending when it is run. *)
Fixpoint waits (p : Proc) : list Pending :=
  match p with
  | Done => []
  | Update _ k => waits k
  | Wait o r k => [mkPending o r k]
  end.

(** A pending call left by [handleSendMessage] or by the suggestions
    effect. *)
Definition knownPending (p : Pending) : Prop :=
  (exists c query now, In p (waits (handleSendMessage c query now)))
  \/ (exists c now, In p (waits (suggestionsEffect c now))).

(** The active identifier is the identifier of a group. *)
Definition activeExists (a : AppState) : Prop :=
  existsb (hasId (activeUrlGroupId a)) (urlGroups a) = true.

(** No code unit of [s] is a backquote. *)
Definition noBackquote (s : string) : bool :=
  all_chars (fun c => negb (Ascii.eqb "`" c)) s.

(** The outcomes of the chapter calls of a run of [generateBook], in
    the order of the outline. *)
Definition chapterOutcomes (srv : Service) (topic : string)
    (chapterTitles : list Json.json) : list Outcome :=
  imap (fun j t => srv (S j) (Gemini.chapterRequest topic t)) chapterTitles.

(** The two messages that [handleSendMessage] appends (lines 506-510). *)
Definition userMessage (query : string) (now : N) : ChatMessage.t :=
  ChatMessage.mk ("user-" +:+ pretty now) query USER now None None.

Definition modelPlaceholder (now : N) : ChatMessage.t :=
  ChatMessage.mk ("model-" +:+ pretty now) "Thinking..." MODEL now
    (Some true) None.


(** [fileCtx?.content || null] (line 409). *)
Definition fileContentOf (fileCtx : option FileContext.t) : option string :=
  match fileCtx with
  | Some fc =>
      if truthy (FileContext.content fc) then Some (FileContext.content fc)
      else None
  | None => None
  end.

(** What resumes on the outcome of the pending call [p] keeps the
    number of suggestions within four. *)
Definition boundedPending (p : Pending) : Prop :=
  forall (out : Outcome) (now : N) (a : AppState),
    List.length (initialQuerySuggestions a) <= 4 ->
    List.length (initialQuerySuggestions (fst (exec (resume p out now) a)))
    <= 4.

(** The code unit [c] does not occur in [s]. *)
Definition lacks (c : ascii) (s : string) : bool :=
  all_chars (fun d => negb (Ascii.eqb d c)) s.

(** No code unit of [s] is white space. *)
Definition noSpace (s : string) : bool :=
  all_chars (fun c => negb (is_js_space c)) s.

(** The lexer on a known prefix: the state reached and the tokens
    completed. *)
Fixpoint feed (st : Json.lexstate) (p : string)
    : option (Json.lexstate * list Json.token) :=
  match p with
  | EmptyString => Some (st, [])
  | String c p' =>
      match Json.lex_step st c with
      | Some (st', ts) =>
          match feed st' p' with
          | Some (st'', ts') => Some (st'', (ts ++ ts')%list)
          | None => None
          end
      | None => None
      end
  end.

(** The tokens of a value. *)
Fixpoint tokens (v : Json.json) : list Json.token :=
  match v with
  | Json.JNull => [Json.TNull]
  | Json.JBool true => [Json.TTrue]
  | Json.JBool false => [Json.TFalse]
  | Json.JNum l => [Json.TNum l]
  | Json.JStr s => [Json.TStr s]
  | Json.JArr xs =>
      Json.TLBracket
        :: (match xs with
            | [] => []
            | x :: xs' =>
                tokens x ++ flat_map (fun y => Json.TComma :: tokens y) xs'
            end ++ [Json.TRBracket])%list
  | Json.JObj ms =>
      Json.TLBrace
        :: (match ms with
            | [] => []
            | (k, x) :: ms' =>
                Json.TStr k :: Json.TColon :: tokens x
                ++ flat_map (fun m => Json.TComma :: Json.TStr (fst m)
                                      :: Json.TColon :: tokens (snd m)) ms'
            end ++ [Json.TRBrace])%list
  end.

(** A value without numbers. *)
Fixpoint numberFree (v : Json.json) : bool :=
  match v with
  | Json.JNum _ => false
  | Json.JArr xs => forallb numberFree xs
  | Json.JObj ms => forallb (fun m => numberFree (snd m)) ms
  | _ => true
  end.

(** [rest] does not go on with a lower-case letter. *)
Definition delimited (rest : string) : bool :=
  negb (startsIn Json.is_lower rest).

(** At most four suggestions are shown. *)
Definition suggestionsBounded (a : AppState) : Prop :=
  List.length (initialQuerySuggestions a) <= 4.

(** The last code unit of [s] is in the class [p]. *)
Fixpoint endsIn (p : ascii -> bool) (s : string) : bool :=
  match s with
  | EmptyString => false
  | String c EmptyString => p c
  | String _ s' => endsIn p s'
  end.

(** The ASCII white space of HTML: tab, line feed, form feed, carriage
    return and space. *)
Definition is_ascii_ws (c : ascii) : bool :=
  let n := nat_of_ascii c in
  ((n =? 9) || (n =? 10) || (n =? 12) || (n =? 13) || (n =? 32))%nat.

Definition is_line_break (c : ascii) : bool :=
  let n := nat_of_ascii c in ((n =? 10) || (n =? 13))%nat.

(** A value that the URL field can hand over: an input of type url
    (KnowledgeBaseManager.tsx, line 215) gives what was typed without
    line breaks and without ASCII white space at either end. *)
Definition urlFieldValue (s : string) : bool :=
  all_chars (fun c => negb (is_line_break c)) s
  && negb (startsIn is_ascii_ws s) && negb (endsIn is_ascii_ws s).

(** A run of white space and the word behind it, neither empty. *)
Definition gapWord (p : string * string) : bool :=
  all_chars is_js_space (fst p) && negb (is_empty (fst p))
  && noSpace (snd p) && negb (is_empty (snd p)).

(** The runs and words in a row, and the same words with an underscore
    for every run. *)
Definition gapped (pairs : list (string * string)) : string :=
  foldr (fun p acc => fst p +:+ snd p +:+ acc) "" pairs.

Definition underscored (pairs : list (string * string)) : string :=
  foldr (fun p acc => "_" +:+ snd p +:+ acc) "" pairs.

End Spec.

(* ===================================================================== *)
(** * Facts about strings *)
(* ===================================================================== *)

Import JS Props.

Lemma is_empty_true (s : string) : is_empty s = true -> s = "".
Proof. destruct s; simpl; congruence. Qed.

Lemma trimEnd_is_empty (s : string) :
  is_empty (trimEnd s) = all_chars is_js_space s.
Proof.
  induction s as [|c s IH]; simpl; [reflexivity|].
  rewrite <- IH.
  destruct (is_js_space c), (is_empty (trimEnd s)); reflexivity.
Qed.

Lemma all_chars_trimStart (s : string) :
  all_chars is_js_space (trimStart s) = all_chars is_js_space s.
Proof.
  induction s as [|c s IH]; simpl; [reflexivity|].
  destruct (is_js_space c) eqn:E; simpl; [exact IH | now rewrite E].
Qed.

(** [trim] leaves nothing exactly of the strings made of white space. *)
Lemma trim_is_empty (s : string) :
  is_empty (trim s) = all_chars is_js_space s.
Proof. unfold trim. now rewrite trimEnd_is_empty, all_chars_trimStart. Qed.

Lemma truthy_trim (s : string) :
  truthy (trim s) = negb (all_chars is_js_space s).
Proof. unfold truthy. now rewrite trim_is_empty. Qed.

Lemma app_cons (c : ascii) (a b : string) :
  String c a +:+ b = String c (a +:+ b).
Proof. reflexivity. Qed.

Lemma app_nil (b : string) : "" +:+ b = b.
Proof. reflexivity. Qed.

Lemma trimStart_split (s : string) :
  exists l, s = l +:+ trimStart s /\ all_chars is_js_space l = true.
Proof.
  induction s as [|c s (l & Hl & Hw)]; simpl.
  - now exists "".
  - destruct (is_js_space c) eqn:E.
    + exists (String c l). rewrite app_cons, <- Hl. simpl.
      now rewrite E, Hw.
    + now exists "".
Qed.

Lemma trimEnd_split (s : string) :
  exists r, s = trimEnd s +:+ r /\ all_chars is_js_space r = true.
Proof.
  induction s as [|c s (r & Hr & Hw)]; simpl.
  - now exists "".
  - destruct (is_js_space c && is_empty (trimEnd s)) eqn:E.
    + apply andb_prop in E as [Ec Ee].
      exists (String c s). rewrite app_nil. split; [reflexivity|].
      simpl. rewrite Ec; simpl. now rewrite <- trimEnd_is_empty.
    + exists r. rewrite app_cons, <- Hr. now split.
Qed.

Lemma trimStart_starts (s : string) : starts_ws (trimStart s) = false.
Proof.
  induction s as [|c s IH]; simpl; [reflexivity|].
  destruct (is_js_space c) eqn:E; [exact IH | simpl; exact E].
Qed.

Lemma trimEnd_starts (s : string) :
  starts_ws s = false -> starts_ws (trimEnd s) = false.
Proof.
  destruct s as [|c s]; simpl; [reflexivity|].
  intros H. rewrite H. simpl. exact H.
Qed.

Lemma trimEnd_ends (s : string) : ends_ws (trimEnd s) = false.
Proof.
  induction s as [|c s IH]; simpl; [reflexivity|].
  destruct (is_js_space c) eqn:Ec; simpl.
  - destruct (trimEnd s) eqn:Et; simpl; [reflexivity | exact IH].
  - destruct (trimEnd s) eqn:Et; simpl; [exact Ec | exact IH].
Qed.

Lemma append_assoc (a b c : string) : (a +:+ b) +:+ c = a +:+ (b +:+ c).
Proof.
  induction a as [|x a IH]; [reflexivity|].
  now rewrite !app_cons, IH.
Qed.

(** What [trim] returns: the input without a run of white space at each
    end, and with no white space left at either end. *)
Lemma trim_spec (s : string) :
  exists l r,
    s = l +:+ trim s +:+ r
    /\ all_chars is_js_space l = true /\ all_chars is_js_space r = true
    /\ starts_ws (trim s) = false /\ ends_ws (trim s) = false.
Proof.
  destruct (trimStart_split s) as (l & Hl & Hwl).
  destruct (trimEnd_split (trimStart s)) as (r & Hr & Hwr).
  exists l, r. unfold trim. repeat split; try assumption.
  - now rewrite <- Hr.
  - apply trimEnd_starts, trimStart_starts.
  - apply trimEnd_ends.
Qed.

(* ===================================================================== *)
(** * The gateway: suggestions, image editing, chat tools *)
(* ===================================================================== *)

Import Remote Asyn.

(** C10. [handleSetTextContext]: on a string that is empty or made of
    white space only the local context becomes absent, whatever it was; on
    any other string it becomes the context named 'Pasted Content' whose
    content is the input trimmed, that is the input without the white
    space at its two ends. *)
Theorem handleSetTextContext_clears_or_replaces
    (content : string) (s : App.AppState) :
  (all_chars is_js_space content = true ->
   App.fileContext (App.handleSetTextContext content s) = None)
  /\ (all_chars is_js_space content = false ->
      App.fileContext (App.handleSetTextContext content s)
      = Some (FileContext.mk "Pasted Content" (trim content))
      /\ exists l r,
           content = l +:+ trim content +:+ r
           /\ all_chars is_js_space l = true
           /\ all_chars is_js_space r = true
           /\ starts_ws (trim content) = false
           /\ ends_ws (trim content) = false).
Proof.
  unfold App.handleSetTextContext. rewrite truthy_trim.
  split; intros H; rewrite H; simpl; [reflexivity|].
  split; [reflexivity | apply trim_spec].
Qed.

Lemma handleSetTextContext_witness :
  let s := App.setFileContext (Some (FileContext.mk "notes.txt" "old"))
             (sampleApp [emptyGroup] "group-3" App.chat) in
  App.fileContext (App.handleSetTextContext "   " s) = None
  /\ App.fileContext (App.handleSetTextContext "  release notes " s)
     = Some (FileContext.mk "Pasted Content" "release notes").
Proof.
  intros s. split.
  - apply (proj1 (handleSetTextContext_clears_or_replaces "   " s)).
    reflexivity.
  - apply (proj2 (handleSetTextContext_clears_or_replaces
                    "  release notes " s)).
    reflexivity.
Defined.

(** C6. [getInitialSuggestions] on an empty URL list and an absent text:
    the computation returns at once, so that no run of it issues a remote
    call, and its payload is the text of the JSON object whose
    [suggestions] array holds the one canned sentence. *)
Theorem getInitialSuggestions_fallback :
  let text :=
    "{" +:+ q "suggestions" +:+ ":["
    +:+ q "Add some URLs or a file to get topic suggestions." +:+ "]}" in
  Gemini.getInitialSuggestions [] None
  = Ret (Gemini.GeminiResponse.mk text None)
  /\ (forall srv : Service,
        requests srv (Gemini.getInitialSuggestions [] None) = []
        /\ result srv (Gemini.getInitialSuggestions [] None)
           = inl (Gemini.GeminiResponse.mk text None))
  /\ Json.parse text
     = Some (Json.JObj
               [("suggestions",
                 Json.JArr
                   [Json.JStr
                      "Add some URLs or a file to get topic suggestions."])]).
Proof.
  intros text.
  assert (E : Gemini.getInitialSuggestions [] None
              = Ret (Gemini.GeminiResponse.mk text None))
    by (vm_compute; reflexivity).
  split; [exact E|]. split.
  - intros srv. unfold requests, result. rewrite E. split; reflexivity.
  - vm_compute. reflexivity.
Qed.

Lemma editStep_keeps_image (parts : list Part.t) (acc : string * string * string) :
  Forall (fun p => Part.inlineData p = None) parts ->
  fst (fst (fold_left Gemini.editStep parts acc)) = fst (fst acc).
Proof.
  intros H. revert acc.
  induction H as [|p parts Hp _ IH]; intros [[img txt] mime]; [reflexivity|].
  simpl fold_left. rewrite IH. unfold Gemini.editStep. rewrite Hp.
  destruct (Part.text p) as [t|]; [destruct (truthy t)|]; reflexivity.
Qed.

Lemma no_image_parts (response : Response.t) :
  hasImagePart response = false ->
  Forall (fun p => Part.inlineData p = None) (Gemini.responseParts response).
Proof.
  unfold hasImagePart, Gemini.responseParts, Gemini.firstCandidate.
  destruct (Response.candidates response) as [[|c cs]|]; simpl;
    try (intros _; constructor).
  intros H. apply orb_false_elim in H as [H _].
  apply List.Forall_forall. intros p Hin.
  destruct (Part.inlineData p) as [d|] eqn:E; [|reflexivity].
  exfalso. apply not_true_iff_false in H. apply H.
  apply existsb_exists. exists p. split; [exact Hin|].
  rewrite E. reflexivity.
Qed.

(** C7. [editImage]: when the response holds no image part, the operation
    throws the error whose message says that the model did not return an
    image; it returns no result object. *)
Theorem editImage_without_image_fails
    (srv : Service) (prompt base64ImageData mimeType : string)
    (response : Response.t) :
  srv 0 (Gemini.editRequest prompt base64ImageData mimeType)
  = Resolved response ->
  hasImagePart response = false ->
  let msg :=
    "Image editing failed: The model did not return an image. It might have refused the request." in
  result srv (Gemini.editImage prompt base64ImageData mimeType)
  = inr (Error msg)
  /\ includes "did not return an image" msg = true
  /\ forall r, result srv (Gemini.editImage prompt base64ImageData mimeType)
               <> inl r.
Proof.
  intros Hsrv Hno msg.
  assert (E : result srv (Gemini.editImage prompt base64ImageData mimeType)
              = inr (Error msg)).
  { unfold result, Gemini.editImage, call. simpl. rewrite Hsrv. simpl.
    pose proof (editStep_keeps_image _ ("", "", "image/png")
                  (no_image_parts _ Hno)) as Hk.
    destruct (fold_left Gemini.editStep (Gemini.responseParts response)
                ("", "", "image/png")) as [[img txt] mime].
    simpl in Hk. subst img. reflexivity. }
  split; [exact E|]. split; [vm_compute; reflexivity|].
  intros r. rewrite E. discriminate.
Qed.

Lemma editImage_without_image_witness :
  let srv : Service := fun _ _ =>
    Resolved
      (Response.mk (Some "I cannot edit this picture.")
         (Some [Candidate.mk
                  (Some [Part.mk None (Some "I cannot edit this picture.")])
                  None])) in
  result srv (Gemini.editImage "make it blue" "aGVsbG8=" "image/png")
  = inr (Error
      "Image editing failed: The model did not return an image. It might have refused the request.").
Proof.
  intros srv.
  apply (editImage_without_image_fails srv "make it blue" "aGVsbG8="
           "image/png" _ eq_refl eq_refl).
Defined.

(** C8. [generateContentWithUrlContext] issues one request, and the tool
    list of that request has exactly one entry: the web-search tool when
    the toggle is on, the URL-context tool when it is off. *)
Theorem chat_request_has_one_tool
    (srv : Service) (prompt : string) (urls : list string)
    (fileContext : option FileContext.t) (useWebSearch useThinking : bool)
    (customPrompt : string) :
  exists r,
    requests srv
      (Gemini.generateContentWithUrlContext prompt urls fileContext
         useWebSearch useThinking customPrompt) = [r]
    /\ tools (config r)
       = Some [if useWebSearch then googleSearch else urlContext].
Proof.
  eexists. split.
  - unfold requests, Gemini.generateContentWithUrlContext, call. simpl.
    destruct (run srv 1 _) as [log res] eqn:E.
    assert (log = []) as ->; [|reflexivity].
    destruct (srv 0 _) as [x|e]; simpl in E.
    + now inversion E.
    + unfold Gemini.chatCatch in E.
      destruct e as [ge|]; simpl in E;
        repeat match type of E with
               | context [if ?b then _ else _] => destruct b; simpl in E
               end; now inversion E.
  - simpl. unfold Gemini.chatTools. now destruct useWebSearch.
Qed.

(* ===================================================================== *)
(** * Renders and handlers: what they leave alone *)
(* ===================================================================== *)

Import App Session.

Lemma sameContext_refl (a : AppState) : sameContext a a.
Proof. repeat split. Qed.

Lemma sameContext_trans (a b c : AppState) :
  sameContext a b -> sameContext b c -> sameContext a c.
Proof.
  unfold sameContext. intros (?&?&?&?&?&?&?) (?&?&?&?&?&?&?).
  repeat split; congruence.
Qed.

Lemma chatCatch_throws (e : Thrown) :
  exists e', Gemini.chatCatch e = Throw e'.
Proof.
  unfold Gemini.chatCatch. destruct e as [ge|]; [|eauto].
  repeat match goal with
         | |- context [if ?b then _ else _] => destruct b
         end; eauto.
Qed.

Lemma suggestionsCatch_throws (e : Thrown) :
  exists e', Gemini.suggestionsCatch e = Throw e'.
Proof.
  unfold Gemini.suggestionsCatch. destruct e as [ge|]; [|eauto].
  destruct (_ && _); eauto.
Qed.

(** [handleSendMessage] either does nothing at all, or turns the loading
    flag on and leaves one chat completion pending. *)
Lemma exec_handleSendMessage (a : AppState) (query : string) (now : N) :
  (handleSendMessage a query now = Done)
  \/ (isLoading a = false /\ isFetchingSuggestions a = false
      /\ exists a' p,
           exec (handleSendMessage a query now) a = (a', [p])
           /\ sameContext a a' /\ isLoading a' = true
           /\ origin p = ChatSend /\ goodPending p).
Proof.
  unfold handleSendMessage.
  destruct (negb (truthy (trim query))) eqn:Eq; [now left|].
  destruct (isLoading a) eqn:El; [now left|].
  destruct (isFetchingSuggestions a) eqn:Ef; [now left|].
  right. simpl. repeat split. eexists _, _. split; [reflexivity|].
  repeat split.
  intros out now' a0. simpl.
  destruct out as [x|e]; simpl.
  - eexists. repeat split.
  - destruct (chatCatch_throws e) as [e' ->]. simpl.
    eexists. repeat split.
Qed.

(** [suggestionsEffect] leaves the loading flag alone; the calls it
    leaves pending are suggestion fetches. *)
Lemma exec_suggestionsEffect (c a : AppState) (now : N) :
  exists a' new,
    exec (suggestionsEffect c now) a = (a', new)
    /\ sameContext a a' /\ isLoading a' = isLoading a
    /\ Forall (fun p => origin p = SuggestionFetch /\ goodPending p) new.
Proof.
  unfold suggestionsEffect.
  destruct (_ && _); [|simpl; eexists _, _; repeat split; constructor].
  unfold fetchAndSetInitialSuggestions.
  destruct (_ && _); [simpl; eexists _, _; repeat split; constructor|].
  unfold Gemini.getInitialSuggestions.
  destruct (_ && _); simpl.
  - eexists _, _. repeat split. constructor.
  - eexists _, _. split; [reflexivity|]. repeat split.
    constructor; [|constructor]. split; [reflexivity|].
    intros out now' a0. simpl.
    destruct out as [x|e]; simpl.
    + eexists. repeat split.
    + destruct (suggestionsCatch_throws e) as [e' ->]. simpl.
      eexists. repeat split.
Qed.

(** ** Commits *)

Lemma groupsEffect_frame (c s : AppState) (now : N) :
  let s' := groupsEffect c now s in
  fileContext s' = fileContext s /\ fileContextRef s' = fileContextRef s
  /\ chatMessages s' = chatMessages s /\ isLoading s' = isLoading s
  /\ isFetchingSuggestions s' = isFetchingSuggestions s
  /\ mode s' = mode s /\ isLoggedIn s' = isLoggedIn s.
Proof.
  unfold groupsEffect. simpl.
  destruct (_ && _); [repeat split|].
  destruct (_ =? _)%nat; repeat split.
Qed.

Lemma commit_frame (prev cur : AppState) (now : N) :
  let s' := commit prev cur now in
  fileContext s' = fileContext cur /\ fileContextRef s' = fileContextRef cur
  /\ isLoading s' = isLoading cur
  /\ isFetchingSuggestions s' = isFetchingSuggestions cur
  /\ mode s' = mode cur /\ isLoggedIn s' = isLoggedIn cur.
Proof.
  unfold commit, welcomeEffect. simpl.
  pose proof (groupsEffect_frame cur cur now) as (?&?&?&?&?&?&?).
  destruct (groupsDepsChanged prev cur);
    destruct (welcomeDepsChanged prev cur);
    destruct (bool_decide (mode cur = chat));
    simpl; repeat split; assumption.
Qed.

Lemma flush_frame (prev cur : AppState) (now : N) :
  let s' := flush prev cur now in
  fileContext s' = fileContext cur /\ fileContextRef s' = fileContextRef cur
  /\ isLoading s' = isLoading cur
  /\ isFetchingSuggestions s' = isFetchingSuggestions cur
  /\ mode s' = mode cur /\ isLoggedIn s' = isLoggedIn cur.
Proof.
  unfold flush. simpl.
  pose proof (commit_frame prev cur now) as (?&?&?&?&?&?).
  pose proof (commit_frame cur (commit prev cur now) now) as (?&?&?&?&?&?).
  repeat split; congruence.
Qed.

(** A commit keeps the groups, or replaces no group at all by the default
    group, which is empty. *)
Lemma commit_urlGroups (prev cur : AppState) (now : N) :
  urlGroups (commit prev cur now) = urlGroups cur
  \/ (urlGroups cur = []
      /\ urlGroups (commit prev cur now)
         = [URLGroup.mk (newGroupId now) "My Knowledge Base" []]).
Proof.
  unfold commit, welcomeEffect, groupsEffect.
  destruct (groupsDepsChanged prev cur);
    destruct (welcomeDepsChanged prev cur);
    destruct (bool_decide (mode cur = chat)); simpl; auto;
    destruct (_ && _); simpl; auto;
    destruct (urlGroups cur) as [|g gs] eqn:E; simpl; auto.
Qed.

Lemma commit_urlsBounded (prev cur : AppState) (now : N) :
  urlsBounded cur -> urlsBounded (commit prev cur now).
Proof.
  unfold urlsBounded.
  destruct (commit_urlGroups prev cur now) as [->|[_ ->]]; [auto|].
  intros _. repeat constructor.
Qed.

Lemma flush_urlsBounded (prev cur : AppState) (now : N) :
  urlsBounded cur -> urlsBounded (flush prev cur now).
Proof. intros H. unfold flush. now do 2 apply commit_urlsBounded. Qed.

(** Without a change in what the effects depend on, the renders change
    nothing. *)
Lemma flush_same (a : AppState) (now : N) : flush a a now = a.
Proof.
  assert (H : commit a a now = a).
  { unfold commit, welcomeDepsChanged, groupsDepsChanged.
    rewrite !Nat.eqb_refl, String.eqb_refl, bool_decide_true by reflexivity.
    reflexivity. }
  unfold flush. now rewrite !H.
Qed.

(** ** Events *)

Section Events.
Variable isValidUrl : string -> bool.

(** The events that neither issue nor resolve a call leave the pending
    calls and the loading flag as they are. *)
Lemma handle_sync (s : Sys) (ev : Event) (now : N) :
  match ev with
  | SendMessage _ | RunSuggestionsEffect | Resolve _ _ => True
  | _ =>
      pending (handle isValidUrl s ev now) = pending s
      /\ isLoading (app (handle isValidUrl s ev now)) = isLoading (app s)
  end.
Proof.
  destruct ev; try exact I;
    unfold handle, handleRemoveGroup, handleRenameGroup, handleAddFile,
      handleSetTextContext;
    repeat match goal with
           | |- context [if ?b then _ else _] => destruct b
           | |- context [match ?x with _ => _ end] => destruct x
           end; simpl; split; reflexivity.
Qed.

Lemma handle_SendMessage (s : Sys) (query : string) (now : N) :
  handle isValidUrl s (SendMessage query) now = s
  \/ (isLoading (app s) = false
      /\ exists a' p,
           handle isValidUrl s (SendMessage query) now
           = mkSys a' (kbm s) (pending s ++ [p])
           /\ sameContext (app s) a' /\ isLoading a' = true
           /\ origin p = ChatSend /\ goodPending p).
Proof.
  unfold handle.
  destruct (isLoggedIn (app s) && bool_decide (mode (app s) = chat));
    [|now left].
  destruct (exec_handleSendMessage (app s) query now)
    as [E|(El & _ & a' & p & E & Hc & Hl & Ho & Hg)].
  - left. rewrite E. simpl. rewrite app_nil_r. now destruct s.
  - right. split; [exact El|]. exists a', p. rewrite E. auto.
Qed.

Lemma handle_RunSuggestionsEffect (s : Sys) (now : N) :
  exists a' new,
    handle isValidUrl s RunSuggestionsEffect now
    = mkSys a' (kbm s) (pending s ++ new)
    /\ sameContext (app s) a' /\ isLoading a' = isLoading (app s)
    /\ Forall (fun p => origin p = SuggestionFetch /\ goodPending p) new.
Proof.
  unfold handle.
  destruct (exec_suggestionsEffect (app s) (app s) now)
    as (a' & new & E & Hc & Hl & Hn).
  exists a', new. rewrite E. auto.
Qed.

Lemma handle_Resolve (s : Sys) (i : nat) (o : Outcome) (now : N) :
  Forall goodPending (pending s) ->
  handle isValidUrl s (Resolve i o) now = s
  \/ exists p a',
       pending s !! i = Some p
       /\ handle isValidUrl s (Resolve i o) now
          = mkSys a' (kbm s) (delete i (pending s))
       /\ sameContext (app s) a'
       /\ match origin p with
          | ChatSend => isLoading a' = false
          | SuggestionFetch => isLoading a' = isLoading (app s)
          end.
Proof.
  intros Hg. unfold handle.
  destruct (pending s !! i) as [p|] eqn:Ep; [|now left].
  right. exists p.
  destruct (Forall_lookup_1 _ _ _ _ Hg Ep o now (app s))
    as (a' & E & Hc & Hl).
  exists a'. rewrite E, app_nil_r. auto.
Qed.

(** The pending calls stay well behaved. *)
Lemma handle_goodPending (s : Sys) (ev : Event) (now : N) :
  Forall goodPending (pending s) ->
  Forall goodPending (pending (handle isValidUrl s ev now)).
Proof.
  intros Hg.
  destruct ev as [input|url|gid|gname|confirm|rinput|file| |ptext|query|v|v|v|md| | | |i o];
    try (match goal with
         | |- context [handle _ _ ?e _] =>
             pose proof (handle_sync s e now) as Hs
         end; cbv beta iota in Hs; apply proj1 in Hs;
         rewrite Hs; exact Hg).
  - destruct (handle_SendMessage s query now)
      as [->|(_ & a' & p & -> & _ & _ & _ & Hp)]; [exact Hg|].
    simpl. apply Forall_app_2; [exact Hg | now constructor].
  - destruct (handle_RunSuggestionsEffect s now)
      as (a' & new & -> & _ & _ & Hn).
    simpl. apply Forall_app_2; [exact Hg|].
    eapply Forall_impl; [exact Hn | now intros p [_ Hp]].
  - destruct (handle_Resolve s i o now Hg)
      as [->|(p & a' & _ & -> & _)]; [exact Hg|].
    simpl. now apply Forall_delete.
Qed.

Lemma step_goodPending (s : Sys) (ev : Event) (now : N) :
  Forall goodPending (pending s) ->
  Forall goodPending (pending (step isValidUrl s ev now)).
Proof. intros H. unfold step. simpl. now apply handle_goodPending. Qed.

Lemma map_bounded (f : URLGroup.t -> URLGroup.t) (gs : list URLGroup.t) :
  (forall g, List.length (URLGroup.urls g) <= MAX_URLS ->
             List.length (URLGroup.urls (f g)) <= MAX_URLS) ->
  Forall (fun g => List.length (URLGroup.urls g) <= MAX_URLS) gs ->
  Forall (fun g => List.length (URLGroup.urls g) <= MAX_URLS) (List.map f gs).
Proof.
  intros Hf H. induction H; simpl; constructor; auto.
Qed.

Lemma filter_bounded (f : URLGroup.t -> bool) (gs : list URLGroup.t) :
  Forall (fun g => List.length (URLGroup.urls g) <= MAX_URLS) gs ->
  Forall (fun g => List.length (URLGroup.urls g) <= MAX_URLS) (List.filter f gs).
Proof.
  intros H. induction H; simpl; [constructor|].
  destruct (f x); [constructor|]; auto.
Qed.

Lemma handleAddUrl_bounded (url : string) (a : AppState) :
  urlsBounded a -> urlsBounded (handleAddUrl url a).
Proof.
  unfold urlsBounded, handleAddUrl. simpl. apply map_bounded.
  intros g Hg. destruct (hasId _ g); [simpl|exact Hg].
  rewrite length_firstn. lia.
Qed.

Lemma handleRemoveUrl_bounded (url : string) (a : AppState) :
  urlsBounded a -> urlsBounded (handleRemoveUrl url a).
Proof.
  unfold urlsBounded, handleRemoveUrl. simpl. apply map_bounded.
  intros g Hg. destruct (hasId _ g); [simpl|exact Hg].
  pose proof (List.filter_length_le
                (fun u => negb (String.eqb u url)) (URLGroup.urls g)). lia.
Qed.

Lemma handleRemoveGroup_bounded (i : string) (confirm : bool) (a : AppState) :
  urlsBounded a -> urlsBounded (handleRemoveGroup i confirm a).
Proof.
  unfold urlsBounded, handleRemoveGroup. intros H.
  destruct (_ <=? _)%nat; [exact H|]. destruct confirm; [|exact H].
  simpl. now apply filter_bounded.
Qed.

Lemma handleRenameGroup_bounded (i n : string) (a : AppState) :
  urlsBounded a -> urlsBounded (handleRenameGroup i n a).
Proof.
  unfold urlsBounded, handleRenameGroup. intros H.
  destruct (negb _); [exact H|]. simpl. revert H. apply map_bounded.
  intros g Hg. now destruct (hasId i g).
Qed.

Lemma sameContext_bounded (a a' : AppState) :
  sameContext a a' -> urlsBounded a -> urlsBounded a'.
Proof. unfold urlsBounded. now intros (-> & _). Qed.

Lemma handle_urlsBounded (s : Sys) (ev : Event) (now : N) :
  Forall goodPending (pending s) ->
  urlsBounded (app s) -> urlsBounded (app (handle isValidUrl s ev now)).
Proof.
  intros Hg Hb.
  destruct ev as [input|url|gid|gname|confirm|rinput|file| |ptext|query|v|v|v|md| | | |i o];
    try (unfold handle;
         repeat match goal with
                | |- context [if ?b then _ else _] => destruct b
                | |- context [match ?x with _ => _ end] => destruct x
                end; simpl;
         first [ exact Hb
               | now apply handleAddUrl_bounded
               | now apply handleRemoveUrl_bounded
               | now apply handleRemoveGroup_bounded
               | now apply handleRenameGroup_bounded ]).
  - (* AddGroup *)
    unfold handle.
    destruct (_ && _); [|exact Hb].
    destruct (KBM.handleAddNewGroup _); [|exact Hb].
    unfold urlsBounded, handleAddGroup. simpl.
    apply Forall_app_2; [exact Hb|]. repeat constructor.
  - (* AddFile *)
    unfold handle, handleAddFile.
    destruct (_ && _); [|exact Hb]. destruct (negb _); exact Hb.
  - (* SaveText *)
    unfold handle, handleSetTextContext.
    destruct (_ && _); [|exact Hb]. destruct (truthy _); exact Hb.
  - destruct (handle_SendMessage s query now)
      as [->|(_ & a' & p & -> & Hc & _)]; [exact Hb|].
    simpl. eauto using sameContext_bounded.
  - destruct (handle_RunSuggestionsEffect s now)
      as (a' & new & -> & Hc & _).
    simpl. eauto using sameContext_bounded.
  - destruct (handle_Resolve s i o now Hg)
      as [->|(p & a' & _ & -> & Hc & _)]; [exact Hb|].
    simpl. eauto using sameContext_bounded.
Qed.

Lemma step_urlsBounded (s : Sys) (ev : Event) (now : N) :
  Forall goodPending (pending s) ->
  urlsBounded (app s) -> urlsBounded (app (step isValidUrl s ev now)).
Proof.
  intros Hg Hb. unfold step. simpl.
  now apply flush_urlsBounded, handle_urlsBounded.
Qed.

Lemma steps_urlsBounded (evs : list (Event * N)) (s : Sys) :
  Forall goodPending (pending s) ->
  urlsBounded (app s) -> urlsBounded (app (steps isValidUrl s evs)).
Proof.
  revert s. induction evs as [|[ev now] evs IH]; intros s Hg Hb; [exact Hb|].
  simpl. apply IH; [now apply step_goodPending | now apply step_urlsBounded].
Qed.


(** ** Renders of a state whose active group exists *)

Lemma commit_settled (prev cur : AppState) (now : N) :
  existsb (hasId (activeUrlGroupId cur)) (urlGroups cur) = true ->
  urlGroups (commit prev cur now) = urlGroups cur
  /\ urlGroupsRef (commit prev cur now) = urlGroupsRef cur
  /\ activeUrlGroupId (commit prev cur now) = activeUrlGroupId cur.
Proof.
  intros H. unfold commit, groupsEffect, welcomeEffect. rewrite H.
  rewrite andb_false_r.
  destruct (urlGroups cur) as [|g gs] eqn:E; [discriminate|]. simpl.
  destruct (groupsDepsChanged prev cur);
    destruct (welcomeDepsChanged prev cur);
    destruct (bool_decide (mode cur = chat)); simpl; rewrite ?E; auto.
Qed.

Lemma flush_settled (prev cur : AppState) (now : N) :
  existsb (hasId (activeUrlGroupId cur)) (urlGroups cur) = true ->
  urlGroups (flush prev cur now) = urlGroups cur
  /\ activeUrlGroupId (flush prev cur now) = activeUrlGroupId cur.
Proof.
  intros H. unfold flush.
  destruct (commit_settled prev cur now H) as (Eg & _ & Ea).
  destruct (commit_settled cur (commit prev cur now) now) as (Eg' & _ & Ea').
  { now rewrite Eg, Ea. }
  split; congruence.
Qed.

Lemma existsb_hasId_find (i : string) (gs : list URLGroup.t) :
  existsb (hasId i) gs = bool_decide (is_Some (findGroup i gs)).
Proof.
  unfold findGroup. induction gs as [|g gs IH]; simpl; [reflexivity|].
  destruct (hasId i g); simpl; [reflexivity | exact IH].
Qed.

Lemma findGroup_hasId (i : string) (gs : list URLGroup.t) (g : URLGroup.t) :
  findGroup i gs = Some g -> URLGroup.id g = i.
Proof.
  unfold findGroup. intros H. apply List.find_some in H as [_ H].
  now apply String.eqb_eq in H.
Qed.

(** Looking a group up after an update of the groups that keeps their
    identifiers. *)
Lemma findGroup_map (f : URLGroup.t -> URLGroup.t) (i : string)
    (gs : list URLGroup.t) :
  (forall g, URLGroup.id (f g) = URLGroup.id g) ->
  findGroup i (List.map f gs) = f <$> findGroup i gs.
Proof.
  intros Hf. unfold findGroup, hasId.
  induction gs as [|g gs IH]; simpl; [reflexivity|].
  rewrite Hf. destruct (String.eqb (URLGroup.id g) i); [reflexivity | exact IH].
Qed.

Lemma existsb_eqb_In (u : string) (us : list string) :
  existsb (String.eqb u) us = true <-> In u us.
Proof.
  rewrite existsb_exists. split.
  - intros (x & Hin & E). apply String.eqb_eq in E. now subst.
  - intros H. exists u. split; [exact H | apply String.eqb_refl].
Qed.

End Events.

(* ===================================================================== *)
(** * Knowledge bases: the URL limit, duplicates, removing a group *)
(* ===================================================================== *)

Lemma step_AddUrl_rejected (isValidUrl : string -> bool) (s : Sys)
    (input : string) (now : N) (e : string) :
  inChat (app s) ->
  KBM.handleAddUrl isValidUrl (currentUrlsForChat (app s)) MAX_URLS
    (KBM.mkKbm input (KBM.error (kbm s)))
  = (KBM.mkKbm input (Some e), None) ->
  step isValidUrl s (AddUrl input) now
  = mkSys (app s) (KBM.mkKbm input (Some e)) (pending s).
Proof.
  intros [Hl Hm] H. unfold step, handle.
  rewrite Hl, Hm, H. simpl. now rewrite flush_same.
Qed.

(** C2 (as amended).  Starting from groups that hold at most 20 URLs and
    no pending call, no run of events, add-URL operations included, takes
    the URL list of a group beyond 20.  An add-URL operation on an active
    group that holds 20 URLs or more changes no state and reports an
    error; for an input that is not blank and is a well-formed URL the
    error is the limit error. *)
Theorem addUrl_respects_limit (isValidUrl : string -> bool) :
  (forall (s : Sys) (evs : list (Event * N)),
     pending s = [] -> urlsBounded (app s) ->
     urlsBounded (app (steps isValidUrl s evs)))
  /\ (forall (s : Sys) (input : string) (now : N),
        inChat (app s) ->
        MAX_URLS <= List.length (currentUrlsForChat (app s)) ->
        let s' := step isValidUrl s (AddUrl input) now in
        app s' = app s /\ pending s' = pending s
        /\ is_Some (KBM.error (kbm s'))
        /\ (all_chars is_js_space input = false ->
            isValidUrl input = true ->
            KBM.error (kbm s')
            = Some "You can add a maximum of 20 URLs to the current group.")).
Proof.
  split.
  - intros s evs Hp Hb. apply steps_urlsBounded; [|exact Hb].
    rewrite Hp. constructor.
  - intros s input now Hc Hlen s'.
    assert (exists e,
      KBM.handleAddUrl isValidUrl (currentUrlsForChat (app s)) MAX_URLS
        (KBM.mkKbm input (KBM.error (kbm s)))
      = (KBM.mkKbm input (Some e), None)
      /\ (all_chars is_js_space input = false -> isValidUrl input = true ->
          e = "You can add a maximum of 20 URLs to the current group."))
      as (e & He & Hlim).
    { unfold KBM.handleAddUrl. cbn [KBM.currentUrlInput].
      rewrite truthy_trim, negb_involutive.
      destruct (all_chars is_js_space input);
        [eexists; split; [reflexivity | discriminate]|].
      destruct (isValidUrl input); cbn [negb];
        [|eexists; split; [reflexivity | discriminate]].
      apply Nat.leb_le in Hlen. rewrite Hlen.
      eexists; split; [reflexivity|]. intros _ _. vm_compute. reflexivity. }
    subst s'. rewrite (step_AddUrl_rejected _ _ _ _ _ Hc He). simpl.
    repeat split; [eauto|]. intros Hb Hv. now rewrite (Hlim Hb Hv).
Qed.

Lemma addUrl_respects_limit_witness :
  let s := sampleSys [fullGroup; smallGroup] "group-1" chat in
  let s' := step sampleIsValidUrl s (AddUrl "https://new.example.com/") 7 in
  urlsBounded (app (steps sampleIsValidUrl s
                      [(SelectGroup "group-2", 1%N);
                       (AddUrl "https://new.example.com/", 2%N)]))
  /\ app s' = app s
  /\ KBM.error (kbm s')
     = Some "You can add a maximum of 20 URLs to the current group.".
Proof.
  intros s s'. split.
  - apply (proj1 (addUrl_respects_limit sampleIsValidUrl) s); [reflexivity|].
    repeat constructor.
  - destruct (proj2 (addUrl_respects_limit sampleIsValidUrl) s
                "https://new.example.com/" 7%N)
      as (Ha & _ & _ & He).
    + split; reflexivity.
    + vm_compute. constructor.
    + split; [exact Ha | apply He; reflexivity].
Defined.

(** C2 as stated fails: on a group that holds 20 URLs, a blank input is
    answered by the error for an empty URL and a malformed one by the
    format error, not by the limit error. *)
Lemma addUrl_limit_counterexample :
  let s := sampleSys [fullGroup] "group-1" chat in
  List.length (currentUrlsForChat (app s)) = 20
  /\ KBM.error (kbm (step sampleIsValidUrl s (AddUrl "") 7))
     = Some "URL cannot be empty."
  /\ KBM.error (kbm (step sampleIsValidUrl s (AddUrl "docs.example.com") 7))
     = Some "Invalid URL format. Please include http:// or https://"
  /\ KBM.error (kbm (step sampleIsValidUrl s (AddUrl "") 7))
     <> Some (KBM.errLimit MAX_URLS).
Proof.
  vm_compute. repeat split. discriminate.
Qed.

Lemma step_SelectGroup (isValidUrl : string -> bool) (s : Sys)
    (g : URLGroup.t) (now : N) :
  inChat (app s) ->
  findGroup (URLGroup.id g) (urlGroups (app s)) = Some g ->
  let s1 := step isValidUrl s (SelectGroup (URLGroup.id g)) now in
  urlGroups (app s1) = urlGroups (app s)
  /\ activeUrlGroupId (app s1) = URLGroup.id g
  /\ inChat (app s1) /\ kbm s1 = kbm s /\ pending s1 = pending s.
Proof.
  intros [Hl Hm] Hf s1.
  assert (Hex : existsb (hasId (URLGroup.id g)) (urlGroups (app s)) = true).
  { rewrite existsb_hasId_find, Hf. reflexivity. }
  subst s1. unfold step, handle. rewrite Hl, Hm, Hex. simpl.
  destruct (flush_settled (app s) (setActiveUrlGroupId (URLGroup.id g) (app s))
              now Hex) as [Eg Ea].
  destruct (flush_frame (app s) (setActiveUrlGroupId (URLGroup.id g) (app s))
              now) as (_ & _ & _ & _ & Em & Ei).
  repeat split; try assumption; simpl in *; congruence.
Qed.

(** C3 (as amended).  On an active group that holds fewer than 20 URLs,
    adding a URL that the group already contains, not blank and well
    formed, changes no state and reports the duplicate error.  Selecting
    a group that does not contain that URL and holds fewer than 20, then
    adding the URL, appends it to that group and reports no error; the
    groups with another identifier are left as they were. *)
Theorem addUrl_duplicate (isValidUrl : string -> bool)
    (s : Sys) (url : string) :
  inChat (app s) ->
  all_chars is_js_space url = false ->
  isValidUrl url = true ->
  (forall now,
     In url (currentUrlsForChat (app s)) ->
     List.length (currentUrlsForChat (app s)) < MAX_URLS ->
     let s' := step isValidUrl s (AddUrl url) now in
     app s' = app s /\ pending s' = pending s
     /\ KBM.error (kbm s')
        = Some "This URL has already been added to the current group.")
  /\ (forall (g : URLGroup.t) (now1 now2 : N),
        findGroup (URLGroup.id g) (urlGroups (app s)) = Some g ->
        ~ In url (URLGroup.urls g) ->
        List.length (URLGroup.urls g) < MAX_URLS ->
        let s1 := step isValidUrl s (SelectGroup (URLGroup.id g)) now1 in
        let s2 := step isValidUrl s1 (AddUrl url) now2 in
        findGroup (URLGroup.id g) (urlGroups (app s2))
        = Some (URLGroup.mk (URLGroup.id g) (URLGroup.name g)
                  (URLGroup.urls g ++ [url]))
        /\ KBM.error (kbm s2) = None
        /\ forall g', URLGroup.id g' <> URLGroup.id g ->
                      findGroup (URLGroup.id g') (urlGroups (app s2))
                      = findGroup (URLGroup.id g') (urlGroups (app s))).
Proof.
  intros Hc Hb Hv. split.
  - intros now Hin Hlen s'. subst s'.
    rewrite (step_AddUrl_rejected isValidUrl s url now
               "This URL has already been added to the current group." Hc).
    + repeat split.
    + unfold KBM.handleAddUrl. cbn [KBM.currentUrlInput].
      rewrite truthy_trim, Hb, Hv. cbn [negb].
      apply Nat.leb_gt in Hlen. rewrite Hlen.
      apply existsb_eqb_In in Hin. rewrite Hin. reflexivity.
  - intros g now1 now2 Hf Hnin Hlen s1.
    destruct (step_SelectGroup isValidUrl s g now1 Hc Hf)
      as (Eg & Ea & [Hl1 Hm1] & _ & _).
    fold s1 in Eg, Ea, Hl1, Hm1. clearbody s1. intros s2.
    assert (Hcur : currentUrlsForChat (app s1) = URLGroup.urls g).
    { unfold currentUrlsForChat, activeGroup. now rewrite Ea, Eg, Hf. }
    assert (Hk : KBM.handleAddUrl isValidUrl (currentUrlsForChat (app s1))
                   MAX_URLS (KBM.mkKbm url (KBM.error (kbm s1)))
                 = (KBM.initial, Some url)).
    { unfold KBM.handleAddUrl. cbn [KBM.currentUrlInput].
      rewrite truthy_trim, Hb, Hv, Hcur. cbn [negb].
      apply Nat.leb_gt in Hlen. rewrite Hlen.
      destruct (existsb (String.eqb url) (URLGroup.urls g)) eqn:E;
        [|reflexivity].
      apply existsb_eqb_In in E. contradiction. }
    set (f := fun group : URLGroup.t =>
                if hasId (URLGroup.id g) group
                then URLGroup.mk (URLGroup.id group) (URLGroup.name group)
                       (firstn MAX_URLS (URLGroup.urls group ++ [url]))
                else group).
    assert (Hid : forall x, URLGroup.id (f x) = URLGroup.id x).
    { intros x. unfold f. now destruct (hasId _ x). }
    assert (Hadd : urlGroups (handleAddUrl url (app s1))
                   = List.map f (urlGroups (app s))).
    { unfold handleAddUrl. cbn [urlGroups setUrlGroups]. now rewrite Ea, Eg. }
    assert (Hs2 : urlGroups (app s2) = List.map f (urlGroups (app s))).
    { subst s2. unfold step, handle. rewrite Hl1, Hm1, Hk. simpl.
      destruct (flush_settled (app s1) (handleAddUrl url (app s1)) now2)
        as [E _]; [|now rewrite E, Hadd].
      rewrite Hadd. simpl. rewrite Ea.
      rewrite existsb_hasId_find, findGroup_map, Hf by exact Hid.
      reflexivity. }
    repeat split.
    + rewrite Hs2, findGroup_map, Hf by exact Hid. simpl. unfold f.
      unfold hasId at 1. rewrite String.eqb_refl. f_equal. f_equal.
      apply firstn_all2. rewrite length_app. simpl. lia.
    + subst s2. unfold step, handle. rewrite Hl1, Hm1, Hk. reflexivity.
    + intros g' Hne. rewrite Hs2, findGroup_map by exact Hid.
      destruct (findGroup (URLGroup.id g') (urlGroups (app s))) as [x|] eqn:Ex;
        [|reflexivity].
      simpl. unfold f. apply findGroup_hasId in Ex.
      unfold hasId. destruct (String.eqb_spec (URLGroup.id x) (URLGroup.id g));
        [congruence | reflexivity].
Qed.

Lemma addUrl_duplicate_witness :
  let s := sampleSys [smallGroup; emptyGroup] "group-2" chat in
  let url := sampleUrl 0 in
  KBM.error (kbm (step sampleIsValidUrl s (AddUrl url) 7))
  = Some "This URL has already been added to the current group."
  /\ findGroup "group-3"
       (urlGroups
          (app (step sampleIsValidUrl
                  (step sampleIsValidUrl s (SelectGroup "group-3") 8)
                  (AddUrl url) 9)))
     = Some (URLGroup.mk "group-3" "Empty" [url]).
Proof.
  intros s url.
  destruct (addUrl_duplicate sampleIsValidUrl s url) as [Hdup Hother].
  - split; reflexivity.
  - reflexivity.
  - reflexivity.
  - split.
    + apply (Hdup 7%N); [left; reflexivity | vm_compute; lia].
    + apply (Hother emptyGroup 8%N 9%N);
        [reflexivity | intros [] | vm_compute; lia].
Defined.

(** C3 as stated fails: on a group that holds 20 URLs, adding one of
    them again is answered by the limit error, not by the duplicate
    error. *)
Lemma addUrl_duplicate_counterexample :
  let s := sampleSys [fullGroup] "group-1" chat in
  let url := sampleUrl 3 in
  In url (currentUrlsForChat (app s))
  /\ KBM.error (kbm (step sampleIsValidUrl s (AddUrl url) 7))
     = Some "You can add a maximum of 20 URLs to the current group."
  /\ KBM.error (kbm (step sampleIsValidUrl s (AddUrl url) 7))
     <> Some KBM.errDuplicate.
Proof.
  vm_compute. repeat split; [auto 10 | discriminate].
Qed.

Lemma filter_other_nonempty (i : string) (gs : list URLGroup.t) :
  1 < List.length gs ->
  NoDup (List.map URLGroup.id gs) ->
  List.filter (fun g => negb (hasId i g)) gs <> [].
Proof.
  destruct gs as [|g1 [|g2 gs]]; simpl; try lia.
  intros _ Hnd. apply NoDup_cons in Hnd as [Hn1 _].
  unfold hasId.
  destruct (String.eqb_spec (URLGroup.id g1) i) as [E1|]; simpl;
    [|discriminate].
  destruct (String.eqb_spec (URLGroup.id g2) i) as [E2|]; simpl;
    [|discriminate].
  exfalso. apply Hn1. rewrite E1, <- E2. left.
Qed.

(** C4.  [handleRemoveGroup] changes nothing when there is exactly one
    group, and so does the delete button.  With more than one group, and
    the removal of the active group confirmed, the groups that remain are
    the other groups, unchanged and in their order, and the active
    identifier is the identifier of the first of them, also after the
    renders that follow; with distinct identifiers some group remains. *)
Theorem handleRemoveGroup_spec (isValidUrl : string -> bool) :
  (forall (s : Sys) (groupId : string) (confirm : bool) (now : N),
     List.length (urlGroups (app s)) = 1 ->
     handleRemoveGroup groupId confirm (app s) = app s
     /\ step isValidUrl s (RemoveGroup confirm) now = s)
  /\ (forall (a : AppState) (groupId : string) (now : N),
        1 < List.length (urlGroups a) ->
        groupId = activeUrlGroupId a ->
        let a' := handleRemoveGroup groupId true a in
        urlGroups a'
        = List.filter (fun g => negb (hasId groupId g)) (urlGroups a)
        /\ (forall g rest,
              urlGroups a' = g :: rest ->
              activeUrlGroupId a' = URLGroup.id g
              /\ urlGroups (flush a a' now) = g :: rest
              /\ activeUrlGroupId (flush a a' now) = URLGroup.id g)
        /\ (NoDup (List.map URLGroup.id (urlGroups a)) -> urlGroups a' <> [])).
Proof.
  split.
  - intros s groupId confirm now Hlen.
    assert (H : forall i, handleRemoveGroup i confirm (app s) = app s).
    { intros i. unfold handleRemoveGroup. now rewrite Hlen. }
    split; [apply H|].
    unfold step, handle. destruct (_ && _); simpl.
    + rewrite H, flush_same. now destruct s.
    + rewrite flush_same. now destruct s.
  - intros a groupId now Hlen Hact a'.
    assert (Ea' : a' = setUrlGroups
                         (List.filter (fun g => negb (hasId groupId g))
                            (urlGroups a))
                         (setActiveUrlGroupId
                            (or_else
                               (URLGroup.id <$>
                                head (List.filter
                                        (fun g => negb (hasId groupId g))
                                        (urlGroups a))) "") a)).
    { subst a'. unfold handleRemoveGroup.
      apply Nat.leb_gt in Hlen. rewrite Hlen.
      rewrite Hact, String.eqb_refl. reflexivity. }
    clearbody a'. subst a'. cbn [urlGroups setUrlGroups].
    split; [reflexivity|]. split.
    + intros g rest Hrem.
      assert (Hid : or_else (URLGroup.id <$> Some g) "" = URLGroup.id g).
      { simpl. unfold truthy. now destruct (URLGroup.id g). }
      rewrite Hrem. cbn [head]. rewrite Hid.
      split; [reflexivity|].
      match goal with
      | |- context [flush a ?x now] =>
          destruct (flush_settled a x now) as [Eg Ea]
      end.
      { simpl. unfold hasId at 1. now rewrite String.eqb_refl. }
      rewrite Eg, Ea. split; reflexivity.
    + intros Hnd. now apply filter_other_nonempty.
Qed.

Lemma handleRemoveGroup_witness :
  let one := sampleSys [smallGroup] "group-2" chat in
  let two := sampleApp [smallGroup; emptyGroup] "group-2" chat in
  step sampleIsValidUrl one (RemoveGroup true) 7 = one
  /\ urlGroups (handleRemoveGroup "group-2" true two) = [emptyGroup]
  /\ activeUrlGroupId (flush two (handleRemoveGroup "group-2" true two) 7)
     = "group-3".
Proof.
  intros one two. split.
  - apply (proj1 (handleRemoveGroup_spec sampleIsValidUrl) one "group-2" true).
    reflexivity.
  - destruct (proj2 (handleRemoveGroup_spec sampleIsValidUrl) two "group-2" 7%N)
      as (Hrem & Hfirst & _).
    + vm_compute. lia.
    + reflexivity.
    + split; [exact Hrem|].
      apply (Hfirst emptyGroup []). exact Hrem.
Defined.

(* ===================================================================== *)
(** * Sending a message while a request is outstanding *)
(* ===================================================================== *)




Section OneSend.
Variable isValidUrl : string -> bool.




Lemma steps_goodPending (evs : list (Event * N)) (s : Sys) :
  Forall goodPending (pending s) ->
  Forall goodPending (pending (steps isValidUrl s evs)).
Proof.
  revert s. induction evs as [|[ev now] evs IH]; intros s Hg; [exact Hg|].
  simpl. apply IH. now apply step_goodPending.
Qed.

End OneSend.




(* ===================================================================== *)
(** * The welcome message after a switch *)
(* ===================================================================== *)

Lemma welcomeMessage_ext (a b : AppState) (now : N) :
  activeUrlGroupId a = activeUrlGroupId b ->
  urlGroups a = urlGroups b ->
  fileContext a = fileContext b ->
  welcomeMessage a now = welcomeMessage b now.
Proof.
  intros Ha Hg Hf.
  unfold welcomeMessage, welcomeMessageText, activeGroup.
  now rewrite Ha, Hg, Hf.
Qed.

Lemma groupsDepsChanged_false (a b : AppState) :
  groupsDepsChanged a b = false <->
  urlGroupsRef a = urlGroupsRef b /\ activeUrlGroupId a = activeUrlGroupId b.
Proof.
  unfold groupsDepsChanged.
  rewrite orb_false_iff, !negb_false_iff, Nat.eqb_eq, String.eqb_eq.
  reflexivity.
Qed.

Lemma welcomeDepsChanged_false (a b : AppState) :
  welcomeDepsChanged a b = false <->
  groupsDepsChanged a b = false
  /\ fileContextRef a = fileContextRef b /\ mode a = mode b.
Proof.
  unfold welcomeDepsChanged.
  rewrite !orb_false_iff, !negb_false_iff, Nat.eqb_eq, bool_decide_eq_true.
  tauto.
Qed.

Lemma sameContext_deps (a a' : AppState) :
  sameContext a a' -> groupsDepsChanged a a' = false.
Proof.
  intros (_ & Hr & Ha & _). apply groupsDepsChanged_false. now split.
Qed.

Lemma groupsEffect_settled (c s : AppState) (now : N) :
  existsb (hasId (activeUrlGroupId c)) (urlGroups c) = true ->
  groupsEffect c now s = s.
Proof.
  intros H. unfold groupsEffect. rewrite H, andb_false_r.
  destruct (urlGroups c); [discriminate | reflexivity].
Qed.

(** What the effect of line 364 stores: nothing, or an active identifier
    (and, without groups, a default group) such that the active group
    exists. *)
Lemma groupsEffect_result (c : AppState) (now : N) :
  let G := groupsEffect c now c in
  (urlGroupsRef G = urlGroupsRef c -> urlGroups G = urlGroups c)
  /\ (groupsDepsChanged c G = true ->
      existsb (hasId (activeUrlGroupId G)) (urlGroups G) = true).
Proof.
  destruct (existsb (hasId (activeUrlGroupId c)) (urlGroups c)) eqn:Ex.
  - rewrite (groupsEffect_settled c c now Ex). simpl. split; [auto|].
    intros H.
    assert (groupsDepsChanged c c = false) as Hc
      by now apply groupsDepsChanged_false.
    congruence.
  - unfold groupsEffect. rewrite Ex.
    destruct (urlGroups c) as [|g gs] eqn:E; simpl.
    + split; [lia|]. intros _. unfold hasId. simpl.
      now rewrite String.eqb_refl.
    + split; [auto|]. intros _. rewrite E. simpl. unfold hasId at 1.
      now rewrite String.eqb_refl.
Qed.

Lemma welcomeEffect_chat (c s : AppState) (now : N) :
  mode c = chat ->
  welcomeEffect c now s = setChatMessages [welcomeMessage c now] s.
Proof. intros H. unfold welcomeEffect. now rewrite H. Qed.

(** After the renders that follow a change of what the welcome effect
    depends on, in chat mode, the transcript is the welcome message of
    the state reached. *)
Lemma flush_welcome (a a1 : AppState) (now : N) :
  mode a1 = chat ->
  welcomeDepsChanged a a1 = true ->
  chatMessages (flush a a1 now) = [welcomeMessage (flush a a1 now) now].
Proof.
  intros Hm Hd.
  set (G := if groupsDepsChanged a a1 then groupsEffect a1 now a1 else a1).
  assert (E2 : commit a a1 now = setChatMessages [welcomeMessage a1 now] G).
  { unfold commit. rewrite Hd. now apply welcomeEffect_chat. }
  assert (HG : fileContext G = fileContext a1
               /\ fileContextRef G = fileContextRef a1 /\ mode G = mode a1).
  { subst G. destruct (groupsDepsChanged a a1); [|auto].
    pose proof (groupsEffect_frame a1 a1 now) as (?&?&?&?&?&?&?). auto. }
  destruct HG as (Hfc & Hfr & HmG).
  assert (HG2 : (urlGroupsRef G = urlGroupsRef a1 -> urlGroups G = urlGroups a1)
                /\ (groupsDepsChanged a1 G = true ->
                    existsb (hasId (activeUrlGroupId G)) (urlGroups G) = true)).
  { subst G. destruct (groupsDepsChanged a a1).
    - apply groupsEffect_result.
    - split; [auto|]. intros H.
      assert (groupsDepsChanged a1 a1 = false)
        by now apply groupsDepsChanged_false.
      congruence. }
  destruct HG2 as [Hgr Hset].
  unfold flush. rewrite E2. clearbody G.
  set (a2 := setChatMessages [welcomeMessage a1 now] G).
  destruct (groupsDepsChanged a1 a2) eqn:D.
  - (* the first commit moved the active group: the second one greets it *)
    assert (Hs : existsb (hasId (activeUrlGroupId a2)) (urlGroups a2) = true)
      by (apply Hset; exact D).
    unfold commit, welcomeDepsChanged. rewrite D. simpl orb.
    rewrite (groupsEffect_settled a2 a2 now Hs).
    rewrite welcomeEffect_chat by (simpl; congruence).
    reflexivity.
  - assert (W : welcomeDepsChanged a1 a2 = false).
    { apply welcomeDepsChanged_false. simpl. repeat split; auto; congruence. }
    unfold commit. rewrite D, W. simpl. f_equal.
    apply groupsDepsChanged_false in D as [Dr Da]. simpl in Dr, Da.
    apply welcomeMessage_ext; simpl; auto.
    symmetry. apply Hgr. congruence.
Qed.

Lemma commit_same_groups (prev cur : AppState) (now : N) :
  groupsDepsChanged prev cur = false ->
  urlGroupsRef (commit prev cur now) = urlGroupsRef cur
  /\ activeUrlGroupId (commit prev cur now) = activeUrlGroupId cur.
Proof.
  intros H. unfold commit, welcomeEffect. rewrite H.
  destruct (welcomeDepsChanged prev cur); [|auto].
  destruct (negb _); auto.
Qed.

Lemma flush_same_groups (prev cur : AppState) (now : N) :
  groupsDepsChanged prev cur = false ->
  activeUrlGroupId (flush prev cur now) = activeUrlGroupId cur.
Proof.
  intros H. unfold flush.
  destruct (commit_same_groups prev cur now H) as [Er Ea].
  destruct (commit_same_groups cur (commit prev cur now) now) as [_ Ea'].
  { apply groupsDepsChanged_false. split; congruence. }
  congruence.
Qed.

Section Switch.
Variable isValidUrl : string -> bool.

(** An event that touches the groups or the active identifier comes from
    the knowledge-base panel, in chat mode. *)
Lemma handle_groups_in_chat (s : Sys) (ev : Event) (now : N) :
  Forall goodPending (pending s) ->
  groupsDepsChanged (app s) (app (handle isValidUrl s ev now)) = false
  \/ mode (app (handle isValidUrl s ev now)) = chat.
Proof.
  intros Hg.
  assert (Hrefl : groupsDepsChanged (app s) (app s) = false)
    by now apply groupsDepsChanged_false.
  assert (Hpanel : forall f : AppState -> AppState,
             (forall a, mode (f a) = mode a) ->
             forall k p,
             let s' := if isLoggedIn (app s) && bool_decide (mode (app s) = chat)
                       then mkSys (f (app s)) k p else s in
             groupsDepsChanged (app s) (app s') = false \/ mode (app s') = chat).
  { intros f Hf k p.
    destruct (isLoggedIn (app s)); simpl; [|now left].
    destruct (bool_decide (mode (app s) = chat)) eqn:Em; [|now left].
    apply bool_decide_eq_true in Em. right. simpl. now rewrite Hf. }
  destruct ev as [input|url|gid|gname|confirm|rinput|file| |ptext|query|v|v|v|md| | | |i o].
  - (* AddUrl *)
    unfold handle. destruct (KBM.handleAddUrl _ _ _ _) as [k' [u|]].
    + now apply (Hpanel (handleAddUrl u)).
    + now apply (Hpanel (fun a => a)).
  - now apply (Hpanel (handleRemoveUrl url)).
  - (* SelectGroup *)
    unfold handle. destruct (existsb _ _); rewrite ?andb_true_r, ?andb_false_r.
    + now apply (Hpanel (setActiveUrlGroupId gid)).
    + now left.
  - (* AddGroup *)
    unfold handle. destruct (KBM.handleAddNewGroup gname) as [n|].
    + now apply (Hpanel (handleAddGroup n now)).
    + destruct (_ && _); now left.
  - apply (Hpanel (handleRemoveGroup (activeUrlGroupId (app s)) confirm)).
    intros a. unfold handleRemoveGroup.
    destruct (_ <=? _)%nat; [reflexivity|]. destruct confirm; [|reflexivity].
    simpl. now destruct (String.eqb _ _).
  - (* RenameGroup *)
    unfold handle.
    destruct (KBM.handleConfirmRename rinput _) as [[gi n]|].
    + apply (Hpanel (handleRenameGroup gi n)).
      intros a. unfold handleRenameGroup. now destruct (negb _).
    + destruct (_ && _); now left.
  - apply (Hpanel (handleAddFile file)).
    intros a. unfold handleAddFile. now destruct (negb _).
  - now apply (Hpanel handleRemoveFile).
  - apply (Hpanel (handleSetTextContext ptext)).
    intros a. unfold handleSetTextContext. now destruct (truthy _).
  - (* SendMessage *)
    left. destruct (handle_SendMessage isValidUrl s query now)
      as [->|(_ & a' & p & -> & Hc & _)]; [exact Hrefl|].
    simpl. now apply sameContext_deps.
  - now apply (Hpanel (setUseWebSearch v)).
  - now apply (Hpanel (setUseThinking v)).
  - now apply (Hpanel (setCustomPrompt v)).
  - (* ChangeMode *)
    left. clear Hpanel. unfold handle. destruct (_ && _); [|exact Hrefl].
    now apply groupsDepsChanged_false.
  - left. unfold handle. destruct (isLoggedIn _); [exact Hrefl|].
    now apply groupsDepsChanged_false.
  - left. unfold handle. destruct (isLoggedIn _); [|exact Hrefl].
    now apply groupsDepsChanged_false.
  - left. destruct (handle_RunSuggestionsEffect isValidUrl s now)
      as (a' & new & -> & Hc & _). simpl. now apply sameContext_deps.
  - left. destruct (handle_Resolve isValidUrl s i o now Hg)
      as [->|(p & a' & _ & -> & Hc & _)]; [exact Hrefl|].
    simpl. now apply sameContext_deps.
Qed.

(** Only the header changes the mode. *)
Lemma handle_mode (s : Sys) (ev : Event) (now : N) :
  Forall goodPending (pending s) ->
  mode (app (handle isValidUrl s ev now)) = mode (app s)
  \/ exists m, ev = ChangeMode m.
Proof.
  intros Hg.
  destruct ev as [input|url|gid|gname|confirm|rinput|file| |ptext|query|v|v|v|md| | | |i o];
    try (right; eexists; reflexivity); left.
  all: try (unfold handle, handleRemoveGroup, handleRenameGroup,
              handleAddFile, handleSetTextContext;
            repeat match goal with
                   | |- context [if ?b then _ else _] => destruct b
                   | |- context [match ?x with _ => _ end] => destruct x
                   end; reflexivity).
  - destruct (handle_SendMessage isValidUrl s query now)
      as [->|(_ & a' & p & -> & Hc & _)]; [reflexivity|].
    simpl. apply Hc.
  - destruct (handle_RunSuggestionsEffect isValidUrl s now)
      as (a' & new & -> & Hc & _). simpl. apply Hc.
  - destruct (handle_Resolve isValidUrl s i o now Hg)
      as [->|(p & a' & _ & -> & Hc & _)]; [reflexivity|].
    simpl. apply Hc.
Qed.

End Switch.

(** C5.  In every run from a state without pending calls: after an event
    that changes the active group identifier, or that changes the mode
    into chat, and the renders it causes, the transcript is exactly one
    message; its sender is [SYSTEM] and its text names, between quotes,
    the newly active group, or 'Untitled' when no group is active (or the
    name is empty). *)
Theorem welcome_after_switch (isValidUrl : string -> bool)
    (s0 : Sys) (evs : list (Event * N)) (ev : Event) (now : N) :
  pending s0 = [] ->
  let s := steps isValidUrl s0 evs in
  let s' := step isValidUrl s ev now in
  activeUrlGroupId (app s') <> activeUrlGroupId (app s)
  \/ (mode (app s) <> chat /\ mode (app s') = chat) ->
  exists m,
    chatMessages (app s') = [m]
    /\ ChatMessage.sender m = SYSTEM
    /\ ChatMessage.text m
       = "Welcome to Chat Mode! You're viewing the "
         +:+ q (groupLabel (activeGroup (app s'))) +:+ " knowledge base."
         +:+ (if hasContent (activeGroup (app s')) (fileContext (app s'))
              then " Ask me anything, or try a suggestion."
              else " Add documentation URLs or a file to start asking questions.")
    /\ (forall g, activeGroup (app s') = Some g -> URLGroup.name g <> "" ->
                  groupLabel (activeGroup (app s')) = URLGroup.name g)
    /\ (activeGroup (app s') = None ->
        groupLabel (activeGroup (app s')) = "Untitled").
Proof.
  intros Hp s s' H.
  assert (Hg : Forall goodPending (pending s)).
  { apply steps_goodPending. rewrite Hp. constructor. }
  clearbody s.
  set (a1 := app (handle isValidUrl s ev now)).
  assert (Es' : app s' = flush (app s) a1 now) by reflexivity.
  destruct (flush_frame (app s) a1 now) as (_ & _ & _ & _ & Hmode & _).
  assert (Hwd : mode a1 = chat /\ welcomeDepsChanged (app s) a1 = true).
  { destruct H as [Hact | [Hm1 Hm2]].
    - destruct (groupsDepsChanged (app s) a1) eqn:D.
      + destruct (handle_groups_in_chat isValidUrl s ev now Hg) as [D'|Hm].
        * fold a1 in D'. congruence.
        * split; [exact Hm|]. unfold welcomeDepsChanged. now rewrite D.
      + exfalso. apply Hact. rewrite Es'.
        rewrite (flush_same_groups _ _ now D).
        apply groupsDepsChanged_false in D. symmetry. apply D.
    - rewrite Es', Hmode in Hm2. split; [exact Hm2|].
      unfold welcomeDepsChanged.
      rewrite (bool_decide_false (mode (app s) = mode a1)) by congruence.
      simpl. now rewrite orb_true_r. }
  destruct Hwd as [Hm Hd].
  exists (welcomeMessage (app s') now).
  split; [rewrite Es'; now apply flush_welcome|].
  split; [reflexivity|]. split; [reflexivity|]. split.
  - intros g -> Hn. unfold groupLabel. simpl. unfold truthy.
    destruct (URLGroup.name g); [contradiction | reflexivity].
  - intros ->. reflexivity.
Qed.

Lemma welcome_after_switch_witness :
  let s := sampleSys [smallGroup; emptyGroup] "group-2" chat in
  let t := sampleSys [smallGroup; emptyGroup] "group-2" image in
  (exists m,
     chatMessages (app (step sampleIsValidUrl s (SelectGroup "group-3") 7))
     = [m]
     /\ ChatMessage.text m
        = "Welcome to Chat Mode! You're viewing the " +:+ q "Empty"
          +:+ " knowledge base. Add documentation URLs or a file to start asking questions.")
  /\ (exists m,
        chatMessages (app (step sampleIsValidUrl t (ChangeMode chat) 7))
        = [m]
        /\ ChatMessage.text m
           = "Welcome to Chat Mode! You're viewing the " +:+ q "Small"
             +:+ " knowledge base. Ask me anything, or try a suggestion.").
Proof.
  intros s t. split.
  - destruct (welcome_after_switch sampleIsValidUrl s [] (SelectGroup "group-3")
                7%N eq_refl) as (m & Hm & _ & Ht & _).
    + left. vm_compute. discriminate.
    + exists m. split; [exact Hm|]. rewrite Ht. vm_compute. reflexivity.
  - destruct (welcome_after_switch sampleIsValidUrl t [] (ChangeMode chat)
                7%N eq_refl) as (m & Hm & _ & Ht & _).
    + right. split; [discriminate | reflexivity].
    + exists m. split; [exact Hm|]. rewrite Ht. vm_compute. reflexivity.
Defined.

(* ===================================================================== *)
(** * The outline parser *)
(* ===================================================================== *)

Lemma or_else_empty (s : string) : or_else (Some s) "" = s.
Proof. unfold or_else, truthy. now destruct s. Qed.

Lemma trimStart_app (pre x : string) :
  all_chars is_js_space pre = true -> starts_ws x = false ->
  trimStart (pre +:+ x) = x.
Proof.
  intros Hp Hx. induction pre as [|c pre IH].
  - rewrite app_nil. destruct x as [|d x]; [reflexivity|].
    simpl in *. now rewrite Hx.
  - simpl in Hp. apply andb_prop in Hp as [Hc Hp].
    rewrite app_cons. simpl. rewrite Hc. now apply IH.
Qed.

Lemma trimEnd_all (post : string) :
  all_chars is_js_space post = true -> trimEnd post = "".
Proof.
  intros H. apply is_empty_true. now rewrite trimEnd_is_empty.
Qed.

Lemma trimEnd_app (x post : string) :
  all_chars is_js_space post = true -> ends_ws x = false -> x <> "" ->
  trimEnd (x +:+ post) = x.
Proof.
  intros Hp. induction x as [|c x IH]; intros He Hne; [contradiction|].
  rewrite app_cons. simpl.
  destruct x as [|d x].
  - rewrite app_nil, (trimEnd_all post Hp). simpl in He. now rewrite He.
  - rewrite IH; [|exact He|discriminate].
    simpl. now rewrite andb_false_r.
Qed.

Lemma trim_app (pre x post : string) :
  all_chars is_js_space pre = true -> all_chars is_js_space post = true ->
  starts_ws x = false -> ends_ws x = false -> x <> "" ->
  trim (pre +:+ x +:+ post) = x.
Proof.
  intros Hpre Hpost Hs He Hne. unfold trim.
  rewrite trimStart_app; [now apply trimEnd_app|exact Hpre|].
  destruct x; [contradiction | exact Hs].
Qed.

Lemma ends_ws_app (x : string) (d : ascii) :
  ends_ws (x +:+ String d "") = is_js_space d.
Proof.
  induction x as [|c x IH]; [reflexivity|].
  rewrite app_cons. simpl.
  destruct (x +:+ String d "") eqn:E; [|exact IH].
  destruct x; discriminate.
Qed.

Lemma length_app_string (a b : string) :
  String.length (a +:+ b) = String.length a + String.length b.
Proof.
  induction a as [|c a IH]; [reflexivity|].
  rewrite app_cons. simpl. now rewrite IH.
Qed.

Lemma take_app (a b : string) :
  take (String.length (a +:+ b) - String.length b) (a +:+ b) = a.
Proof.
  rewrite length_app_string.
  replace (String.length a + String.length b - String.length b)
    with (String.length a) by lia.
  induction a as [|c a IH]; [now destruct b|].
  rewrite app_cons. simpl. now rewrite IH.
Qed.

(** ** The matcher on runs of a class *)

Section Stars.
Context {A : Type}.
Implicit Types (p : ascii -> bool) (k : string -> option A).

Lemma starG_stop p rest k :
  startsIn p rest = false -> Regex.starG p rest k = k rest.
Proof. destruct rest as [|c r]; simpl; [reflexivity | now intros ->]. Qed.

(** The greedy star takes the whole run when what follows accepts. *)
Lemma starG_greedy p w rest k x :
  all_chars p w = true -> startsIn p rest = false ->
  k rest = Some x -> Regex.starG p (w +:+ rest) k = Some x.
Proof.
  intros Hw Hr Hk. induction w as [|c w IH].
  - rewrite app_nil, starG_stop; assumption.
  - simpl in Hw. apply andb_prop in Hw as [Hc Hw].
    rewrite app_cons. simpl. rewrite Hc, (IH Hw). reflexivity.
Qed.

(** The lazy star moves on over a position where what follows refuses. *)
Lemma starL_skip p d r k :
  k (String d r) = None -> p d = true ->
  Regex.starL p (String d r) k = Regex.starL p r k.
Proof. intros Hk Hp. simpl. now rewrite Hk, Hp. Qed.

Lemma starL_here p s k x :
  k s = Some x -> Regex.starL p s k = Some x.
Proof. intros Hk. destruct s; simpl; now rewrite Hk. Qed.
End Stars.

(** ** The fence *)

Lemma fenceRegex_parts :
  Gemini.fenceRegex
  = Regex.Lit "```" ⋅ fenceAfterOpen.
Proof. reflexivity. Qed.

Lemma is_lf_space (d : ascii) :
  is_js_space d = false -> Gemini.is_lf d = false.
Proof.
  unfold Gemini.is_lf. destruct (Ascii.eqb_spec d lf_char) as [->|];
    [discriminate | reflexivity].
Qed.

Lemma isPlain_inv (d : ascii) :
  isPlain d = true -> is_js_space d = false /\ Ascii.eqb "`" d = false.
Proof.
  unfold isPlain. intros H. apply andb_prop in H as [H1 H2].
  apply negb_true_iff in H1, H2. split; [exact H1|].
  now rewrite Ascii.eqb_sym.
Qed.

Lemma close_ok (w : string) (c : Regex.caps)
    (k : string -> Regex.caps -> option Regex.caps) (x : Regex.caps) :
  all_chars is_js_space w = true -> k "" c = Some x ->
  Regex.m fenceClose (w +:+ "```") c k = Some x.
Proof.
  intros Hw Hk. unfold fenceClose. cbn [Regex.m].
  apply starG_greedy; [exact Hw | reflexivity | exact Hk].
Qed.

Lemma tail_ok (w : string) (c : Regex.caps)
    (k : string -> Regex.caps -> option Regex.caps) (x : Regex.caps) :
  all_chars is_js_space w = true -> k "" c = Some x ->
  Regex.m fenceTail (w +:+ "```") c k = Some x.
Proof.
  intros Hw Hk. unfold fenceTail. cbn [Regex.m].
  destruct w as [|d w].
  - rewrite app_nil. simpl. exact Hk.
  - simpl in Hw. apply andb_prop in Hw as [Hd Hw].
    rewrite app_cons.
    destruct (Gemini.is_lf d) eqn:El.
    + replace (String.length (w +:+ "```") =? String.length (String d (w +:+ "```")))%nat
        with false by (symmetry; apply Nat.eqb_neq; simpl; lia).
      rewrite (close_ok w c k x Hw Hk). reflexivity.
    + unfold Regex.or_try. rewrite <- app_cons.
      apply close_ok; [simpl; now rewrite Hd, Hw | exact Hk].
Qed.

Lemma tail_fail (d : ascii) (r : string) (c : Regex.caps)
    (k : string -> Regex.caps -> option Regex.caps) :
  isPlain d = true -> Regex.m fenceTail (String d r) c k = None.
Proof.
  intros H. apply isPlain_inv in H as [Hs Hb].
  unfold fenceTail, fenceClose. cbn [Regex.m Regex.starG].
  rewrite (is_lf_space d Hs), Hs. cbn [strip_prefix]. now rewrite Hb.
Qed.

Lemma lazy_body {A} (body rest : string) (k : string -> option A) (x : A) :
  all_chars isPlain body = true ->
  (forall d r, isPlain d = true -> k (String d r) = None) ->
  k rest = Some x ->
  Regex.starL Gemini.any_char (body +:+ rest) k = Some x.
Proof.
  intros Hb Hfail Hk. induction body as [|d body IH].
  - rewrite app_nil. now apply starL_here.
  - simpl in Hb. apply andb_prop in Hb as [Hd Hb].
    rewrite app_cons, starL_skip; [now apply IH | now apply Hfail | reflexivity].
Qed.

(** Group 2 is the body when the body holds neither white space nor a
    backquote: the lazy group stops at the first place from which the
    fence can close. *)
Lemma group2_ok (body ws2 : string) (c : Regex.caps) :
  all_chars isPlain body = true -> all_chars is_js_space ws2 = true ->
  Regex.m fenceGroup2 (body +:+ ws2 +:+ "```") c matched
  = Some ((2, body) :: c).
Proof.
  intros Hb Hw. unfold fenceGroup2. cbn [Regex.m].
  apply lazy_body; [exact Hb | |].
  - intros d r Hd. now apply tail_fail.
  - rewrite take_app. now apply tail_ok.
Qed.

Lemma plain_starts (body rest : string) (p : ascii -> bool) :
  body <> "" -> all_chars isPlain body = true ->
  (forall d, isPlain d = true -> p d = false) ->
  startsIn p (body +:+ rest) = false.
Proof.
  destruct body as [|d body]; [contradiction|]. intros _ Hb Hp.
  simpl in Hb. apply andb_prop in Hb as [Hd _]. simpl. now apply Hp.
Qed.

Lemma inner_ok (ws1 body ws2 : string) (c : Regex.caps) :
  body <> "" ->
  all_chars is_js_space ws1 = true ->
  all_chars isPlain body = true -> all_chars is_js_space ws2 = true ->
  Regex.m fenceInner (ws1 +:+ body +:+ ws2 +:+ "```") c matched
  = Some ((2, body) :: c).
Proof.
  intros Hne Hw1 Hb Hw2. unfold fenceInner.
  change (Regex.starG is_js_space (ws1 +:+ body +:+ ws2 +:+ "```")
            (fun s1 => Regex.m (Regex.Opt (Regex.Cls Gemini.is_lf) ⋅ fenceGroup2)
                         s1 c matched)
          = Some ((2, body) :: c)).
  apply starG_greedy; [exact Hw1 | |].
  - apply plain_starts; [exact Hne | exact Hb |].
    intros d Hd. now apply isPlain_inv in Hd.
  - destruct body as [|d body]; [contradiction|].
    pose proof Hb as Hb'. simpl in Hb'. apply andb_prop in Hb' as [Hd _].
    apply isPlain_inv in Hd as [Hs _].
    rewrite app_cons. cbn [Regex.m]. rewrite (is_lf_space d Hs).
    unfold Regex.or_try. rewrite <- app_cons.
    now apply group2_ok.
Qed.

Lemma ws_not_word (d : ascii) : is_js_space d = true -> is_word d = false.
Proof.
  unfold is_js_space, is_word. generalize (nat_of_ascii d). intros n Hn.
  repeat (apply orb_prop in Hn as [Hn|Hn]);
    apply Nat.eqb_eq in Hn; subst n; reflexivity.
Qed.

Lemma afterOpen_ok (tag ws1 body ws2 : string) :
  body <> "" ->
  all_chars is_word tag = true ->
  all_chars is_js_space ws1 = true ->
  all_chars isPlain body = true -> startsIn is_word body = false ->
  all_chars is_js_space ws2 = true ->
  Regex.m fenceAfterOpen (tag +:+ ws1 +:+ body +:+ ws2 +:+ "```") [] matched
  = Some ((2, body) :: (if is_empty tag then [] else [(1, tag)])).
Proof.
  intros Hne Ht Hw1 Hb Hbw Hw2.
  set (rest := ws1 +:+ body +:+ ws2 +:+ "```").
  assert (Hrest : startsIn is_word rest = false).
  { subst rest. destruct ws1 as [|d ws1].
    - rewrite app_nil. destruct body; [contradiction | exact Hbw].
    - simpl in Hw1. apply andb_prop in Hw1 as [Hd _].
      rewrite app_cons. simpl. now apply ws_not_word. }
  assert (Hin : forall c, Regex.m fenceInner rest c matched
                          = Some ((2, body) :: c)).
  { intros c. subst rest. now apply inner_ok. }
  unfold fenceAfterOpen. cbn [Regex.m].
  destruct tag as [|t tag].
  - rewrite app_nil, starG_stop by exact Hrest.
    rewrite Nat.eqb_refl. unfold Regex.or_try. simpl is_empty. cbv iota.
    apply Hin.
  - erewrite starG_greedy; [reflexivity | exact Ht | exact Hrest |].
    rewrite take_app.
    replace (String.length rest =? String.length (String t tag +:+ rest))%nat
      with false.
    + apply Hin.
    + symmetry. apply Nat.eqb_neq. rewrite length_app_string. simpl. lia.
Qed.

Lemma strip_open (x : string) : strip_prefix "```" ("```" +:+ x) = Some x.
Proof. reflexivity. Qed.

(** The whole pattern on a fenced body: an optional tag of word
    characters, white space, the body, white space, the closing fence. *)
Lemma fence_match (tag ws1 body ws2 : string) :
  body <> "" ->
  all_chars is_word tag = true ->
  all_chars is_js_space ws1 = true ->
  all_chars isPlain body = true -> startsIn is_word body = false ->
  all_chars is_js_space ws2 = true ->
  exists c,
    Regex.match_anchored Gemini.fenceRegex
      ("```" +:+ tag +:+ ws1 +:+ body +:+ ws2 +:+ "```") = Some c
    /\ Regex.capture 2 c = Some body.
Proof.
  intros Hne Ht Hw1 Hb Hbw Hw2.
  exists ((2, body) :: (if is_empty tag then [] else [(1, tag)])).
  split; [|reflexivity].
  unfold Regex.match_anchored. rewrite fenceRegex_parts.
  cbn [Regex.m]. rewrite strip_open.
  now apply afterOpen_ok.
Qed.

(* ===================================================================== *)
(** * Book generation *)
(* ===================================================================== *)

Lemma run_bind {A B} (srv : Service) (m : Async A) (f : A -> Async B)
    (n : nat) :
  run srv n (bind m f)
  = match run srv n m with
    | (log, inl a) =>
        let '(log', res) := run srv (n + List.length log) (f a) in
        ((log ++ log')%list, res)
    | (log, inr e) => (log, inr e)
    end.
Proof.
  revert n. induction m as [a|e|r k IH]; intros n; simpl.
  - rewrite Nat.add_0_r. now destruct (run srv n (f a)).
  - reflexivity.
  - rewrite IH. destruct (run srv (S n) (k (srv n r))) as [log [a|e]];
      [|reflexivity].
    simpl. rewrite Nat.add_succ_r.
    now destruct (run srv (S (n + List.length log)) (f a)).
Qed.

(** [awaitAll] issues every request, the [i]-th one as call [n + i]. *)
Lemma run_awaitAll (srv : Service) (rs : list Request) (n : nat) :
  run srv n (awaitAll rs) = (rs, inl (imap (fun i r => srv (n + i) r) rs)).
Proof.
  revert n. induction rs as [|r rs IH]; intros n; [reflexivity|].
  simpl. rewrite run_bind, IH. simpl. rewrite app_nil_r, Nat.add_0_r.
  do 3 f_equal. apply imap_ext. intros i x _. simpl. f_equal. lia.
Qed.

Lemma promiseAll_resolved (titles : list Json.json)
    (responses : list Response.t) :
  Gemini.promiseAll
    (zip_with Gemini.thenChapter titles (Resolved <$> responses))
  = inl (zip_with chapterOf titles responses).
Proof.
  revert responses. induction titles as [|t titles IH];
    intros [|r responses]; try reflexivity.
  simpl. now rewrite IH.
Qed.

Lemma titles_zip (titles : list Json.json) (responses : list Response.t) :
  List.length responses = List.length titles ->
  List.map Chapter.title (zip_with chapterOf titles responses) = titles.
Proof.
  revert responses. induction titles as [|t ts IH]; intros [|r rs] Hlen;
    try discriminate; [reflexivity|].
  simpl. f_equal. apply IH. simpl in Hlen. lia.
Qed.

(** When every chapter request resolves, the book is the title of the
    outline and one chapter per entry of the outline, in order. *)
Lemma generateBook_resolved (srv : Service) (topic : string)
    (outlineResponse : Response.t) (outline : Json.json)
    (chapterTitles : list Json.json) (responses : list Response.t) :
  srv 0 (Gemini.outlineRequest topic) = Resolved outlineResponse ->
  Gemini.parseOutline (Response.text outlineResponse) = Some outline ->
  Gemini.chapterTitlesOf outline = inl chapterTitles ->
  List.length responses = List.length chapterTitles ->
  (forall j t r, chapterTitles !! j = Some t -> responses !! j = Some r ->
                 srv (S j) (Gemini.chapterRequest topic t) = Resolved r) ->
  run srv 0 (Gemini.generateBook topic)
  = (Gemini.outlineRequest topic
       :: List.map (Gemini.chapterRequest topic) chapterTitles,
     inl (Book.mk (Json.get "title" outline)
            (zip_with chapterOf chapterTitles responses))).
Proof.
  intros Hsrv Hparse Htitles Hlen Hresp.
  unfold Gemini.generateBook, call. simpl. rewrite Hsrv. simpl.
  rewrite Hparse, Htitles, run_bind, run_awaitAll.
  assert (E : imap (fun i r => srv (1 + i) r)
                (List.map (Gemini.chapterRequest topic) chapterTitles)
              = Resolved <$> responses).
  { apply list_eq. intros j.
    rewrite list_lookup_imap, list_lookup_fmap.
    change (List.map (Gemini.chapterRequest topic) chapterTitles)
      with (Gemini.chapterRequest topic <$> chapterTitles).
    rewrite list_lookup_fmap.
    destruct (chapterTitles !! j) as [t|] eqn:Et;
      destruct (responses !! j) as [r|] eqn:Er; simpl.
    - f_equal. now apply Hresp.
    - apply lookup_lt_Some in Et. apply lookup_ge_None in Er.
      unfold Datatypes.length in *. lia.
    - apply lookup_lt_Some in Er. apply lookup_ge_None in Et.
      unfold Datatypes.length in *. lia.
    - reflexivity. }
  rewrite E, promiseAll_resolved. simpl. now rewrite app_nil_r.
Qed.

Lemma ends_ws_fence (x : string) : ends_ws (x +:+ "```") = false.
Proof.
  induction x as [|c x IH]; [reflexivity|].
  rewrite app_cons. simpl.
  destruct (x +:+ "```") eqn:E; [|exact IH].
  destruct x; discriminate.
Qed.

Lemma parseOutline_plain (pre post : string) :
  all_chars is_js_space pre = true -> all_chars is_js_space post = true ->
  Gemini.parseOutline (Some (pre +:+ exampleText +:+ post))
  = Some exampleOutline.
Proof.
  intros Hpre Hpost. unfold Gemini.parseOutline, Gemini.stripFence.
  rewrite or_else_empty. rewrite trim_app;
    [vm_compute; reflexivity | assumption | assumption
    | reflexivity | reflexivity | discriminate].
Qed.

Lemma parseOutline_fenced (pre tag ws1 ws2 post : string) :
  all_chars is_js_space pre = true -> all_chars is_word tag = true ->
  all_chars is_js_space ws1 = true -> all_chars is_js_space ws2 = true ->
  all_chars is_js_space post = true ->
  Gemini.parseOutline
    (Some (pre +:+ ("```" +:+ tag +:+ ws1 +:+ exampleText +:+ ws2 +:+ "```")
           +:+ post))
  = Some exampleOutline.
Proof.
  intros Hpre Htag Hw1 Hw2 Hpost.
  unfold Gemini.parseOutline, Gemini.stripFence.
  rewrite or_else_empty. rewrite trim_app;
    [ | assumption | assumption | reflexivity | | discriminate].
  - destruct (fence_match tag ws1 exampleText ws2) as (c & Hc & Hcap);
      [discriminate | exact Htag | exact Hw1 | reflexivity | reflexivity
      | exact Hw2 |].
    rewrite Hc, Hcap. reflexivity.
  - rewrite <- !append_assoc. apply ends_ws_fence.
Qed.

(** C1 (as amended).  The outline parser, on the text of the JSON object
    with title T and chapters A and B ([exampleText]), with white space
    around it, bare or between a fence of three backquotes (with an
    optional tag and white space inside the fence), yields the object
    with title T and the chapters A and B.  For every outline: if every chapter
    request resolves, the book holds the title of the outline and one
    chapter per entry of the outline, in outline order; a chapter whose
    response carries no text has the placeholder as content, every other
    chapter has the text of its response. *)
Theorem generateBook_outline_and_chapters :
  (forall pre post,
     all_chars is_js_space pre = true -> all_chars is_js_space post = true ->
     Gemini.parseOutline (Some (pre +:+ exampleText +:+ post))
     = Some exampleOutline)
  /\ (forall pre tag ws1 ws2 post,
        all_chars is_js_space pre = true -> all_chars is_word tag = true ->
        all_chars is_js_space ws1 = true -> all_chars is_js_space ws2 = true ->
        all_chars is_js_space post = true ->
        Gemini.parseOutline
          (Some (pre
                 +:+ ("```" +:+ tag +:+ ws1 +:+ exampleText +:+ ws2 +:+ "```")
                 +:+ post))
        = Some exampleOutline)
  /\ exampleText
     = "{" +:+ q "title" +:+ ":" +:+ q "T" +:+ "," +:+ q "chapters" +:+ ":["
       +:+ q "A" +:+ "," +:+ q "B" +:+ "]}"
  /\ Json.get "title" exampleOutline = Some (Json.JStr "T")
  /\ Gemini.chapterTitlesOf exampleOutline
     = inl [Json.JStr "A"; Json.JStr "B"]
  /\ (forall (srv : Service) (topic : string) (outlineResponse : Response.t)
        (outline : Json.json) (chapterTitles : list Json.json)
        (responses : list Response.t),
        srv 0 (Gemini.outlineRequest topic) = Resolved outlineResponse ->
        Gemini.parseOutline (Response.text outlineResponse) = Some outline ->
        Gemini.chapterTitlesOf outline = inl chapterTitles ->
        List.length responses = List.length chapterTitles ->
        (forall j t r,
           chapterTitles !! j = Some t -> responses !! j = Some r ->
           srv (S j) (Gemini.chapterRequest topic t) = Resolved r) ->
        exists book,
          result srv (Gemini.generateBook topic) = inl book
          /\ Book.title book = Json.get "title" outline
          /\ List.map Chapter.title (Book.chapters book) = chapterTitles
          /\ forall j r,
               responses !! j = Some r ->
               exists ch,
                 Book.chapters book !! j = Some ch
                 /\ (noText r ->
                     Chapter.content ch
                     = "Content generation for this chapter failed.")
                 /\ (forall t, Response.text r = Some t -> t <> "" ->
                               Chapter.content ch = t)).
Proof.
  split; [exact parseOutline_plain|].
  split; [exact parseOutline_fenced|].
  split; [reflexivity|]. split; [reflexivity|]. split; [reflexivity|].
  intros srv topic outlineResponse outline chapterTitles responses
    Hsrv Hparse Htitles Hlen Hresp.
  exists (Book.mk (Json.get "title" outline)
            (zip_with chapterOf chapterTitles responses)).
  split.
  { unfold result.
    now rewrite (generateBook_resolved srv topic outlineResponse outline
                   chapterTitles responses). }
  split; [reflexivity|]. split.
  { simpl. now apply titles_zip. }
  intros j r Hr. simpl.
  destruct (chapterTitles !! j) as [t|] eqn:Et.
  - exists (chapterOf t r). split.
    + rewrite lookup_zip_with, Et, Hr. reflexivity.
    + unfold chapterOf, or_else. simpl. split.
      * intros [-> | ->]; reflexivity.
      * intros t' -> Hne. unfold truthy. destruct t'; [contradiction|].
        reflexivity.
  - apply lookup_lt_Some in Hr. apply lookup_ge_None in Et.
    unfold Datatypes.length in *. lia.
Qed.

Lemma generateBook_outline_and_chapters_witness :
  let srv : Service := fun n _ =>
    match n with
    | 0 => Resolved
             (textResponse
                (Some (" " +:+ ("```" +:+ "json" +:+ lf +:+ exampleText
                                +:+ lf +:+ "```") +:+ lf)))
    | 1 => Resolved (textResponse (Some "Rivers begin in the mountains."))
    | _ => Resolved (textResponse None)
    end in
  exists book,
    result srv (Gemini.generateBook "Rivers") = inl book
    /\ Book.title book = Some (Json.JStr "T")
    /\ List.map Chapter.title (Book.chapters book)
       = [Json.JStr "A"; Json.JStr "B"]
    /\ (exists ch, Book.chapters book !! 0 = Some ch
                   /\ Chapter.content ch = "Rivers begin in the mountains.")
    /\ (exists ch, Book.chapters book !! 1 = Some ch
                   /\ Chapter.content ch
                      = "Content generation for this chapter failed.").
Proof.
  intros srv.
  destruct generateBook_outline_and_chapters
    as (_ & Hfence & _ & _ & _ & Hbook).
  destruct (Hbook srv "Rivers"
              (textResponse
                 (Some (" " +:+ ("```" +:+ "json" +:+ lf +:+ exampleText
                                 +:+ lf +:+ "```") +:+ lf)))
              exampleOutline [Json.JStr "A"; Json.JStr "B"]
              [textResponse (Some "Rivers begin in the mountains.");
               textResponse None])
    as (book & Hres & Htitle & Htitles & Hch).
  - reflexivity.
  - apply (Hfence " " "json" lf lf lf); reflexivity.
  - reflexivity.
  - reflexivity.
  - intros [|[|j]] t r Ht Hr; simpl in Ht, Hr; try discriminate;
      injection Hr as <-; reflexivity.
  - exists book. split; [exact Hres|]. split; [exact Htitle|].
    split; [exact Htitles|]. split.
    + destruct (Hch 0 _ eq_refl) as (ch & Hl & _ & Ht).
      exists ch. split; [exact Hl|]. apply Ht; [reflexivity | discriminate].
    + destruct (Hch 1 _ eq_refl) as (ch & Hl & Hp & _).
      exists ch. split; [exact Hl|]. apply Hp. now left.
Defined.

(** C1 as stated fails: with the example outline, when the request of
    one chapter is rejected and the other one resolves, the three
    requests have been issued and the generation is rejected with the
    error of that chapter; there is no book. *)
Lemma generateBook_counterexample :
  requests failingService (Gemini.generateBook "Rivers")
  = [Gemini.outlineRequest "Rivers";
     Gemini.chapterRequest "Rivers" (Json.JStr "A");
     Gemini.chapterRequest "Rivers" (Json.JStr "B")]
  /\ result failingService (Gemini.generateBook "Rivers")
     = inr (Error "503 Service Unavailable")
  /\ ~ exists book,
         result failingService (Gemini.generateBook "Rivers") = inl book.
Proof.
  assert (E : result failingService (Gemini.generateBook "Rivers")
              = inr (Error "503 Service Unavailable"))
    by (vm_compute; reflexivity).
  split; [vm_compute; reflexivity|]. split; [exact E|].
  intros [book H]. rewrite E in H. discriminate.
Qed.


(* ===================================================================== *)
(** * The gateway: errors, prompts and results *)
(* ===================================================================== *)

Import Spec.

Lemma includes_truthy (needle msg : string) :
  needle <> "" -> includes needle msg = true -> truthy msg = true.
Proof.
  intros Hn H. destruct msg; [|reflexivity].
  destruct needle; [contradiction | discriminate].
Qed.

Lemma app_nil_end (s : string) : s +:+ "" = s.
Proof.
  induction s as [|c s IH]; [reflexivity|]. now rewrite app_cons, IH.
Qed.

(** A [try] around one call: the call is issued, a rejection goes to
    the handler. *)
Lemma run_call_catch {A} (srv : Service) (r : Request)
    (f : Response.t -> Async A) (h : Thrown -> Async A) :
  run srv 0 (try_catch (bind (call r) f) h)
  = let '(log, res) :=
      run srv 1
        match srv 0 r with
        | Resolved x => try_catch (f x) h
        | Rejected e => h e
        end in
    (r :: log, res).
Proof. simpl. now destruct (srv 0 r). Qed.

(** The message of the chat gateway for a rejection. *)
Lemma chatCatch_message (e : Thrown) :
  exists msg,
    Gemini.chatCatch e = Throw (Error msg)
    /\ match e with
       | NotError =>
           msg = "Failed to get response from AI due to an unknown error."
       | IsError ge =>
           let m := message ge in
           (includes "API key not valid" m = true ->
            msg = "Invalid API Key. Please check the key you provided.")
           /\ (includes "API key not valid" m = false ->
               includes "quota" m = true ->
               msg = "API quota exceeded. Please check your Gemini API quota.")
           /\ (includes "API key not valid" m = false ->
               includes "quota" m = false ->
               etype ge = Some "GoogleGenAIError" -> m <> "" ->
               msg = "Gemini API Error: " +:+ m)
           /\ (includes "API key not valid" m = false ->
               includes "quota" m = false ->
               etype ge <> Some "GoogleGenAIError" \/ m = "" ->
               msg = "Failed to get response from AI: " +:+ m)
       end.
Proof.
  destruct e as [ge|]; [|eexists; split; reflexivity].
  unfold Gemini.chatCatch. cbv zeta.
  destruct (includes "API key not valid" (message ge)) eqn:Ek.
  { rewrite (includes_truthy "API key not valid" _ ltac:(discriminate) Ek). cbn [andb].
    eexists; split; [reflexivity|]. repeat split; intros; congruence. }
  rewrite andb_false_r.
  destruct (includes "quota" (message ge)) eqn:Eq.
  { rewrite (includes_truthy "quota" _ ltac:(discriminate) Eq). cbn [andb].
    eexists; split; [reflexivity|]. repeat split; intros; congruence. }
  rewrite andb_false_r.
  destruct (bool_decide (etype ge = Some "GoogleGenAIError")) eqn:Et;
    [destruct (truthy (message ge)) eqn:Em|]; cbn [andb];
    (eexists; split; [reflexivity|]); repeat split; try (intros; congruence).
  - intros _ _ [Hne | Hm].
    + apply bool_decide_eq_true in Et. contradiction.
    + rewrite Hm in Em. discriminate.
  - intros _ _ _ Hne. destruct (message ge); [contradiction | discriminate].
  - intros _ _ Ht _. apply bool_decide_eq_false in Et. contradiction.
Qed.

(** X1.  When the call of [generateContentWithUrlContext] is rejected,
    the operation issues no second call and throws an [Error]: the
    invalid-key message when the rejection mentions an invalid key (also
    when it mentions the quota too), else the quota message when it
    mentions the quota, else the upstream message behind 'Gemini API
    Error: ' for an error of the SDK with a message, else behind 'Failed
    to get response from AI: '; a rejection with a value that is no
    [Error] gives the unknown-error message. *)
Theorem generateContentWithUrlContext_rejected
    (srv : Service) (prompt : string) (urls : list string)
    (fileContext : option FileContext.t) (useWebSearch useThinking : bool)
    (customPrompt : string) (e : Thrown) :
  srv 0 (Gemini.chatRequest prompt urls fileContext useWebSearch useThinking
           customPrompt) = Rejected e ->
  let op := Gemini.generateContentWithUrlContext prompt urls fileContext
              useWebSearch useThinking customPrompt in
  requests srv op
  = [Gemini.chatRequest prompt urls fileContext useWebSearch useThinking
       customPrompt]
  /\ exists msg,
       result srv op = inr (Error msg)
       /\ match e with
          | NotError =>
              msg = "Failed to get response from AI due to an unknown error."
          | IsError ge =>
              let m := message ge in
              (includes "API key not valid" m = true ->
               msg = "Invalid API Key. Please check the key you provided.")
              /\ (includes "API key not valid" m = false ->
                  includes "quota" m = true ->
                  msg = "API quota exceeded. Please check your Gemini API quota.")
              /\ (includes "API key not valid" m = false ->
                  includes "quota" m = false ->
                  etype ge = Some "GoogleGenAIError" -> m <> "" ->
                  msg = "Gemini API Error: " +:+ m)
              /\ (includes "API key not valid" m = false ->
                  includes "quota" m = false ->
                  etype ge <> Some "GoogleGenAIError" \/ m = "" ->
                  msg = "Failed to get response from AI: " +:+ m)
          end.
Proof.
  intros Hsrv op. subst op.
  destruct (chatCatch_message e) as (msg & Hcatch & Hmsg).
  unfold requests, result, Gemini.generateContentWithUrlContext.
  rewrite run_call_catch, Hsrv, Hcatch. cbn [run fst snd].
  split; [reflexivity|]. exists msg. split; [reflexivity | exact Hmsg].
Qed.

Lemma generateContentWithUrlContext_rejected_witness :
  let srv : Service := fun _ _ =>
    Rejected (IsError (mkError "API key not valid; quota exhausted"
                         (Some "GoogleGenAIError"))) in
  result srv
    (Gemini.generateContentWithUrlContext "Hello" [] None false true "")
  = inr (Error "Invalid API Key. Please check the key you provided.").
Proof.
  intros srv.
  destruct (generateContentWithUrlContext_rejected srv "Hello" [] None false
              true "" _ eq_refl) as (_ & msg & Hres & Hkey & _).
  rewrite Hres, (Hkey eq_refl). reflexivity.
Defined.

(** ** What a prompt contains *)

Lemma strip_prefix_app (n b : string) : strip_prefix n (n +:+ b) = Some b.
Proof.
  induction n as [|c n IH]; [now destruct b|].
  rewrite app_cons. cbn [strip_prefix]. now rewrite Ascii.eqb_refl.
Qed.

Lemma strip_prefix_app_l (n h b r : string) :
  strip_prefix n h = Some r -> strip_prefix n (h +:+ b) = Some (r +:+ b).
Proof.
  revert h. induction n as [|c n IH]; intros h H.
  - destruct h; simpl in H; injection H as <-; now destruct b.
  - destruct h as [|d h]; [discriminate|].
    rewrite app_cons. cbn [strip_prefix] in *.
    destruct (Ascii.eqb c d); [auto | discriminate].
Qed.

Lemma includes_unfold (n h : string) :
  includes n h
  = match strip_prefix n h with
    | Some _ => true
    | None => match h with
              | EmptyString => false
              | String _ h' => includes n h'
              end
    end.
Proof. now destruct h. Qed.

Lemma includes_here (n b : string) : includes n (n +:+ b) = true.
Proof. now rewrite includes_unfold, strip_prefix_app. Qed.

Lemma includes_refl (n : string) : includes n n = true.
Proof. rewrite <- (app_nil_end n) at 2. apply includes_here. Qed.

Lemma includes_app_r (n a h : string) :
  includes n h = true -> includes n (a +:+ h) = true.
Proof.
  intros H. induction a as [|c a IH]; [exact H|].
  rewrite app_cons, includes_unfold.
  now destruct (strip_prefix n (String c (a +:+ h))).
Qed.

Lemma includes_app_l (n h b : string) :
  includes n h = true -> includes n (h +:+ b) = true.
Proof.
  induction h as [|c h IH]; intros H.
  - destruct n; [now destruct b | discriminate].
  - rewrite includes_unfold in H. rewrite includes_unfold.
    destruct (strip_prefix n (String c h)) eqn:E.
    + now rewrite (strip_prefix_app_l _ _ b _ E).
    + rewrite app_cons.
      destruct (strip_prefix n (String c (h +:+ b))); auto.
Qed.

Lemma includes_join (sep u : string) (xs : list string) :
  In u xs -> includes u (join sep xs) = true.
Proof.
  induction xs as [|x xs IH]; [intros []|].
  intros [-> | Hin].
  - destruct xs; [apply includes_refl | apply includes_here].
  - destruct xs as [|y xs]; [destruct Hin|].
    change (join sep (x :: y :: xs)) with (x +:+ sep +:+ join sep (y :: xs)).
    do 2 apply includes_app_r. auto.
Qed.

Ltac includes_search :=
  lazymatch goal with
  | |- includes ?n ?n = true => apply includes_refl
  | |- includes ?n (?n +:+ _) = true => apply includes_here
  | |- includes ?n (join _ _) = true => apply includes_join; assumption
  | |- includes ?n (_ +:+ _) = true =>
      first [ solve [apply includes_app_l; includes_search]
            | solve [apply includes_app_r; includes_search] ]
  end.

(** X2.  The prompt of a chat request holds the question, every URL of
    the group, the name and the text of the file context, and the custom
    instructions unless they are blank; with blank instructions (white
    space only), no file and no URL it is the question itself. *)
Theorem chatPrompt_carries_context (prompt : string) (urls : list string)
    (fileContext : option FileContext.t) (customPrompt : string) :
  let p := Gemini.chatPrompt prompt urls fileContext customPrompt in
  (forall useWebSearch useThinking,
     contents (Gemini.chatRequest prompt urls fileContext useWebSearch
                 useThinking customPrompt) = UserTurn [PText p])
  /\ includes prompt p = true
  /\ (forall u, In u urls -> includes u p = true)
  /\ (forall fc, fileContext = Some fc ->
        includes (FileContext.name fc) p = true
        /\ includes (FileContext.content fc) p = true)
  /\ (all_chars is_js_space customPrompt = false ->
      includes customPrompt p = true)
  /\ (all_chars is_js_space customPrompt = true -> fileContext = None ->
      urls = [] -> p = prompt).
Proof.
  intros p. subst p. unfold Gemini.chatPrompt. cbv zeta.
  split; [reflexivity|].
  assert (Hc : truthy (trim customPrompt)
               = negb (all_chars is_js_space customPrompt)).
  { unfold truthy. now rewrite trim_is_empty. }
  rewrite Hc.
  split; [|split; [|split; [|split]]].
  - destruct (negb _), fileContext, (0 <? List.length urls)%nat;
      includes_search.
  - intros u Hu.
    destruct urls as [|u0 urls]; [destruct Hu|]. cbn [List.length Nat.ltb Nat.leb].
    destruct (negb _), fileContext; includes_search.
  - intros fc ->. unfold q.
    split; destruct (negb _), (0 <? List.length urls)%nat; includes_search.
  - intros ->. cbn [negb].
    destruct fileContext, (0 <? List.length urls)%nat; includes_search.
  - intros -> -> ->. reflexivity.
Qed.

Lemma chatPrompt_carries_context_witness :
  includes "https://a.example/doc"
    (Gemini.chatPrompt "How?" ["https://a.example/doc"] None "  ") = true
  /\ Gemini.chatPrompt "How?" [] None "  " = "How?".
Proof.
  destruct (chatPrompt_carries_context "How?" ["https://a.example/doc"] None
              "  ") as (_ & _ & Hu & _).
  destruct (chatPrompt_carries_context "How?" [] None "  ")
    as (_ & _ & _ & _ & _ & Hp).
  split; [apply Hu; now left | now apply Hp].
Defined.

(** ** Suggestions *)

(** X3.  [getInitialSuggestions] treats an empty text as an absent one:
    with no URL it then returns the canned answer without a call.  With
    a URL, or a text that is not empty, it issues exactly one call, which
    asks for JSON and passes no tool, and holds every URL and the text
    in its prompt; the text of the answer is returned as it is (the empty
    string when the answer has none), without URL metadata; a rejection
    becomes the invalid-key message when it mentions an invalid key, and
    otherwise its message behind 'Failed to get initial suggestions from
    AI: ', a quota failure included. *)
Theorem getInitialSuggestions_call (srv : Service) (urls : list string)
    (fileContent : option string) :
  Gemini.getInitialSuggestions [] (Some "")
  = Gemini.getInitialSuggestions [] None
  /\ (urls <> [] \/ (exists t, fileContent = Some t /\ t <> "") ->
      let r := Gemini.suggestionsRequest urls fileContent in
      let op := Gemini.getInitialSuggestions urls fileContent in
      requests srv op = [r]
      /\ tools (config r) = None
      /\ responseMimeType (config r) = Some "application/json"
      /\ (exists p, contents r = UserTurn [PText p]
            /\ (forall u, In u urls -> includes u p = true)
            /\ (forall t, fileContent = Some t -> includes t p = true))
      /\ (forall response, srv 0 r = Resolved response ->
            result srv op
            = inl (Gemini.GeminiResponse.mk
                     (default "" (Response.text response)) None))
      /\ (forall e, srv 0 r = Rejected e ->
            result srv op
            = inr (Error
                match e with
                | IsError ge =>
                    if includes "API key not valid" (message ge)
                    then "Invalid API Key. Please check the key you provided."
                    else "Failed to get initial suggestions from AI: "
                         +:+ message ge
                | NotError =>
                    "Failed to get initial suggestions from AI due to an unknown error."
                end))).
Proof.
  split; [reflexivity|].
  intros Hctx r op.
  assert (Hguard : ((List.length urls =? 0)%nat
                    && Gemini.noFileContent fileContent) = false).
  { destruct Hctx as [Hu | (t & -> & Ht)].
    - destruct urls; [contradiction | reflexivity].
    - rewrite andb_false_iff. right. destruct t; [contradiction | reflexivity]. }
  assert (Hrun : run srv 0 op
                 = let '(log, res) :=
                     run srv 1
                       match srv 0 r with
                       | Resolved x =>
                           try_catch
                             (Ret (Gemini.GeminiResponse.mk
                                     (or_else (Response.text x) "") None))
                             Gemini.suggestionsCatch
                       | Rejected e => Gemini.suggestionsCatch e
                       end in
                   (r :: log, res)).
  { subst op. unfold Gemini.getInitialSuggestions. rewrite Hguard.
    apply run_call_catch. }
  split; [|split; [reflexivity|split; [reflexivity|split; [|split]]]].
  - unfold requests. rewrite Hrun.
    destruct (srv 0 r) as [x|e]; [reflexivity|].
    destruct (suggestionsCatch_throws e) as [e' ->]. reflexivity.
  - eexists. split; [reflexivity|].
    unfold Gemini.suggestionsPrompt. cbv zeta. split.
    + intros u Hu. destruct urls as [|u0 urls]; [destruct Hu|].
      cbn [List.length Nat.ltb Nat.leb].
      destruct fileContent as [t|]; [destruct (truthy t)|];
        includes_search.
    + intros t ->. destruct t as [|c t]; [now destruct (0 <? _)%nat|].
      cbn [truthy is_empty negb].
      destruct (0 <? List.length urls)%nat; includes_search.
  - intros response Hs. unfold result. rewrite Hrun, Hs. cbn.
    do 2 f_equal. destruct (Response.text response) as [[|c t]|]; reflexivity.
  - intros e Hs. unfold result. rewrite Hrun, Hs.
    destruct e as [ge|]; [|reflexivity].
    unfold Gemini.suggestionsCatch. cbv zeta.
    destruct (includes "API key not valid" (message ge)) eqn:Ek.
    + now rewrite (includes_truthy "API key not valid" _ ltac:(discriminate) Ek).
    + now rewrite andb_false_r.
Qed.

Lemma getInitialSuggestions_call_witness :
  let srv : Service := fun _ _ => Rejected (Error "quota exceeded") in
  result srv (Gemini.getInitialSuggestions ["https://a.example/doc"] None)
  = inr (Error "Failed to get initial suggestions from AI: quota exceeded").
Proof.
  intros srv.
  assert (Hne : ["https://a.example/doc"] <> @nil string) by discriminate.
  pose proof (proj2 (getInitialSuggestions_call srv ["https://a.example/doc"]
                       None) (or_introl Hne)) as H.
  cbv zeta in H.
  destruct H as (_ & _ & _ & _ & _ & Hrej).
  rewrite (Hrej (Error "quota exceeded") eq_refl). reflexivity.
Defined.
(** ** Image editing *)

Lemma fold_editStep (parts : list Part.t) (img txt mime : string) :
  fold_left Gemini.editStep parts (img, txt, mime)
  = (match lastInline parts with
     | Some d => default "" (InlineData.data d)
     | None => img
     end,
     txt +:+ partsText parts,
     default mime (declaredMime parts)).
Proof.
  revert img txt mime.
  induction parts as [|p parts IH]; intros img txt mime.
  { cbn. now rewrite app_nil_end. }
  cbn [fold_left lastInline declaredMime partsText].
  unfold Gemini.editStep at 2.
  destruct (Part.inlineData p) as [d|].
  - rewrite IH. destruct (lastInline parts), (declaredMime parts);
      try reflexivity;
      destruct (InlineData.data d) as [[|c b]|],
               (InlineData.mimeType d) as [[|c' m]|]; reflexivity.
  - destruct (Part.text p) as [[|c t]|]; cbn [truthy is_empty negb];
      rewrite IH; destruct (lastInline parts), (declaredMime parts);
      rewrite ?append_assoc; reflexivity.
Qed.

(** X4.  [editImage] issues one call, never a second one.  When the call
    resolves, the image is the data of the last part that carries inline
    data, whatever images came before it; the operation fails with 'The
    model did not return an image' when no part carries inline data or
    when the last image part has no data, also if an earlier one had.
    The text is the concatenation of the texts of the other parts, or
    'Image edited successfully.' when that is empty; the mime type is
    the last one declared by an image part, or image/png.  Every failure,
    the rejection of the call as well, comes out as an [Error] whose
    message begins with 'Image editing failed: ', but for a rejection
    with a value that is no [Error]. *)
Theorem editImage_outcome (srv : Service)
    (prompt base64ImageData mimeType : string) :
  let r := Gemini.editRequest prompt base64ImageData mimeType in
  let op := Gemini.editImage prompt base64ImageData mimeType in
  requests srv op = [r]
  /\ result srv op
     = match srv 0 r with
       | Resolved response =>
           let parts := Gemini.responseParts response in
           match lastInline parts ≫= InlineData.data with
           | Some (String c b) =>
               inl (Gemini.EditResult.mk (String c b)
                      (if truthy (partsText parts) then partsText parts
                       else "Image edited successfully.")
                      (default "image/png" (declaredMime parts)))
           | _ =>
               inr (Error
                 "Image editing failed: The model did not return an image. It might have refused the request.")
           end
       | Rejected (IsError e) =>
           inr (Error ("Image editing failed: " +:+ message e))
       | Rejected NotError =>
           inr (Error "An unknown error occurred during image editing.")
       end.
Proof.
  intros r op. subst op. unfold requests, result, Gemini.editImage.
  rewrite run_call_catch. fold r.
  destruct (srv 0 r) as [response|[e|]]; [|split; reflexivity..].
  cbv zeta. rewrite fold_editStep. cbn [append].
  destruct (lastInline (Gemini.responseParts response)) as [d|];
    [|split; reflexivity].
  cbn [mbind option_bind].
  destruct (InlineData.data d) as [[|c b]|]; split; reflexivity.
Qed.

(** ** The fence, on a body with white space inside *)

Lemma ws_not_backquote (d : ascii) :
  is_js_space d = true -> Ascii.eqb "`" d = false.
Proof.
  intros H. destruct (Ascii.eqb_spec "`"%char d) as [<-|]; [discriminate|].
  reflexivity.
Qed.

Lemma close_fail (w r : string) (d : ascii) (c : Regex.caps)
    (k : string -> Regex.caps -> option Regex.caps) :
  all_chars is_js_space w = true -> is_js_space d = false ->
  Ascii.eqb "`" d = false ->
  Regex.m fenceClose (w +:+ String d r) c k = None.
Proof.
  intros Hw Hd Hb. unfold fenceClose. cbn [Regex.m].
  induction w as [|e w IH].
  - rewrite app_nil. cbn [Regex.starG strip_prefix]. now rewrite Hd, Hb.
  - cbn [all_chars] in Hw. apply andb_prop in Hw as [He Hw].
    rewrite app_cons. cbn [Regex.starG]. rewrite He, (IH Hw).
    unfold Regex.or_try. cbn [strip_prefix].
    now rewrite (ws_not_backquote e He).
Qed.

Lemma tail_fail_ws (w r : string) (d : ascii) (c : Regex.caps)
    (k : string -> Regex.caps -> option Regex.caps) :
  all_chars is_js_space w = true -> is_js_space d = false ->
  Ascii.eqb "`" d = false ->
  Regex.m fenceTail (w +:+ String d r) c k = None.
Proof.
  intros Hw Hd Hb. unfold fenceTail. cbn [Regex.m].
  rewrite (close_fail w r d c k Hw Hd Hb).
  destruct w as [|e w].
  - rewrite app_nil. now rewrite (is_lf_space d Hd).
  - cbn [all_chars] in Hw. apply andb_prop in Hw as [He Hw].
    rewrite app_cons. rewrite (close_fail w r d c k Hw Hd Hb).
    destruct (Gemini.is_lf e); [|reflexivity].
    match goal with |- context [Nat.eqb ?a ?b] => now destruct (Nat.eqb a b) end.
Qed.

(** A text without backquote that does not end in white space is some
    white space, a character that is neither, and a rest. *)
Lemma body_split (b : string) :
  b <> "" -> ends_ws b = false -> noBackquote b = true ->
  exists w d r,
    b = w +:+ String d r /\ all_chars is_js_space w = true
    /\ is_js_space d = false /\ Ascii.eqb "`" d = false.
Proof.
  induction b as [|c b IH]; [contradiction|]. intros _ He Hq.
  unfold noBackquote in Hq. cbn [all_chars] in Hq.
  apply andb_prop in Hq as [Hc Hq]. apply negb_true_iff in Hc.
  destruct (is_js_space c) eqn:Ec.
  - destruct b as [|c' b']; [simpl in He; congruence|].
    destruct IH as (w & d & r & Hb & Hw & Hd & Hbq);
      [discriminate | exact He | exact Hq |].
    exists (String c w), d, r. rewrite app_cons, <- Hb.
    cbn [all_chars]. now rewrite Ec, Hw.
  - now exists "", c, b.
Qed.

Lemma lazy_body_ws {A} (body rest : string) (k : string -> option A) (x : A) :
  noBackquote body = true -> (body <> "" -> ends_ws body = false) ->
  (forall w d r, all_chars is_js_space w = true -> is_js_space d = false ->
                 Ascii.eqb "`" d = false -> k (w +:+ String d r) = None) ->
  k rest = Some x ->
  Regex.starL Gemini.any_char (body +:+ rest) k = Some x.
Proof.
  intros Hq He Hfail Hk. induction body as [|d body IH].
  - rewrite app_nil. now apply starL_here.
  - destruct (body_split (String d body)) as (w & d' & r & Hb & Hw & Hd & Hbq);
      [discriminate | now apply He | exact Hq |].
    assert (Hnone : k (String d body +:+ rest) = None).
    { rewrite Hb, append_assoc, app_cons. now apply Hfail. }
    rewrite app_cons in Hnone |- *.
    rewrite starL_skip; [|exact Hnone | reflexivity].
    apply IH.
    + unfold noBackquote in Hq |- *. cbn [all_chars] in Hq.
      now apply andb_prop in Hq as [_ Hq].
    + intros Hne. specialize (He ltac:(discriminate)).
      destruct body; [contradiction | exact He].
Qed.

Lemma group2_ok_ws (body ws2 : string) (c : Regex.caps) :
  noBackquote body = true -> (body <> "" -> ends_ws body = false) ->
  all_chars is_js_space ws2 = true ->
  Regex.m fenceGroup2 (body +:+ ws2 +:+ "```") c matched
  = Some ((2, body) :: c).
Proof.
  intros Hq He Hw. unfold fenceGroup2. cbn [Regex.m].
  apply lazy_body_ws; [exact Hq | exact He | |].
  - intros w d r Hw' Hd Hb. now apply tail_fail_ws.
  - rewrite take_app. now apply tail_ok.
Qed.

Lemma inner_ok_ws (ws1 body ws2 : string) (c : Regex.caps) :
  body <> "" -> all_chars is_js_space ws1 = true ->
  starts_ws body = false -> ends_ws body = false ->
  noBackquote body = true -> all_chars is_js_space ws2 = true ->
  Regex.m fenceInner (ws1 +:+ body +:+ ws2 +:+ "```") c matched
  = Some ((2, body) :: c).
Proof.
  intros Hne Hw1 Hs He Hq Hw2. unfold fenceInner.
  change (Regex.starG is_js_space (ws1 +:+ body +:+ ws2 +:+ "```")
            (fun s1 => Regex.m (Regex.Opt (Regex.Cls Gemini.is_lf) ⋅ fenceGroup2)
                         s1 c matched)
          = Some ((2, body) :: c)).
  destruct body as [|d body]; [contradiction|]. cbn [starts_ws] in Hs.
  apply starG_greedy; [exact Hw1 | rewrite app_cons; exact Hs |].
  rewrite app_cons. cbn [Regex.m]. rewrite (is_lf_space d Hs).
  unfold Regex.or_try. rewrite <- app_cons.
  now apply group2_ok_ws.
Qed.

Lemma afterOpen_ok_ws (tag ws1 body ws2 : string) :
  body <> "" -> all_chars is_word tag = true ->
  all_chars is_js_space ws1 = true ->
  starts_ws body = false -> startsIn is_word body = false ->
  ends_ws body = false -> noBackquote body = true ->
  all_chars is_js_space ws2 = true ->
  Regex.m fenceAfterOpen (tag +:+ ws1 +:+ body +:+ ws2 +:+ "```") [] matched
  = Some ((2, body) :: (if is_empty tag then [] else [(1, tag)])).
Proof.
  intros Hne Ht Hw1 Hs Hbw He Hq Hw2.
  set (rest := ws1 +:+ body +:+ ws2 +:+ "```").
  assert (Hrest : startsIn is_word rest = false).
  { subst rest. destruct ws1 as [|d ws1].
    - rewrite app_nil. destruct body; [contradiction | exact Hbw].
    - simpl in Hw1. apply andb_prop in Hw1 as [Hd _].
      rewrite app_cons. simpl. now apply ws_not_word. }
  assert (Hin : forall c, Regex.m fenceInner rest c matched
                          = Some ((2, body) :: c)).
  { intros c. subst rest. now apply inner_ok_ws. }
  unfold fenceAfterOpen. cbn [Regex.m].
  destruct tag as [|t tag].
  - rewrite app_nil, starG_stop by exact Hrest.
    rewrite Nat.eqb_refl. unfold Regex.or_try. simpl is_empty. cbv iota.
    apply Hin.
  - erewrite starG_greedy; [reflexivity | exact Ht | exact Hrest |].
    rewrite take_app.
    replace (String.length rest =? String.length (String t tag +:+ rest))%nat
      with false.
    + apply Hin.
    + symmetry. apply Nat.eqb_neq. rewrite length_app_string. simpl. lia.
Qed.

Lemma trim_id (x : string) :
  starts_ws x = false -> ends_ws x = false -> trim x = x.
Proof.
  intros Hs He. destruct x as [|c x]; [reflexivity|].
  rewrite <- (trim_app "" (String c x) "") at 2;
    [|reflexivity | reflexivity | exact Hs | exact He | discriminate].
  now rewrite app_nil, app_nil_end.
Qed.

(** X5.  What [generateBook] hands to [JSON.parse].  A text that, white
    space at both ends apart, does not begin with three backquotes is
    only trimmed.  A text between a fence of three backquotes, with an
    optional tag of word characters after the opening one, is read as
    the text inside the fence with the white space around it removed,
    whatever white space and line breaks that text holds inside,
    provided it holds no backquote and does not begin with a word
    character: a fenced answer parses as the bare one does. *)
Theorem parseOutline_fence (s : string) :
  Gemini.parseOutline None = None
  /\ (strip_prefix "```" (trim s) = None ->
      Gemini.stripFence (Some s) = trim s
      /\ Gemini.parseOutline (Some s) = Json.parse (trim s))
  /\ (forall pre tag ws1 body ws2 post,
        s = pre +:+ ("```" +:+ tag +:+ ws1 +:+ body +:+ ws2 +:+ "```")
            +:+ post ->
        all_chars is_js_space pre = true -> all_chars is_word tag = true ->
        all_chars is_js_space ws1 = true -> all_chars is_js_space ws2 = true ->
        all_chars is_js_space post = true ->
        body <> "" -> starts_ws body = false -> ends_ws body = false ->
        startsIn is_word body = false -> noBackquote body = true ->
        Gemini.stripFence (Some s) = body
        /\ Gemini.parseOutline (Some s) = Gemini.parseOutline (Some body)).
Proof.
  split; [reflexivity|]. split.
  - intros Hno.
    assert (E : Gemini.stripFence (Some s) = trim s).
    { unfold Gemini.stripFence. rewrite or_else_empty.
      unfold Regex.match_anchored. rewrite fenceRegex_parts.
      cbn [Regex.m]. now rewrite Hno. }
    split; [exact E|]. unfold Gemini.parseOutline. now rewrite E.
  - intros pre tag ws1 body ws2 post -> Hpre Htag Hw1 Hw2 Hpost Hne Hs He
      Hbw Hq.
    assert (E : Gemini.stripFence
                  (Some (pre +:+ ("```" +:+ tag +:+ ws1 +:+ body +:+ ws2
                                  +:+ "```") +:+ post)) = body).
    { unfold Gemini.stripFence. rewrite or_else_empty. rewrite trim_app;
        [ | assumption | assumption | reflexivity | | discriminate].
      - unfold Regex.match_anchored. rewrite fenceRegex_parts.
        cbn [Regex.m]. rewrite strip_open.
        rewrite afterOpen_ok_ws by assumption.
        replace (Regex.capture 2
                   ((2, body) :: (if is_empty tag then [] else [(1, tag)])))
          with (Some body) by reflexivity.
        destruct body as [|c b]; [contradiction|].
        cbn [truthy is_empty negb]. now apply trim_id.
      - rewrite <- !append_assoc. apply ends_ws_fence. }
    split; [exact E|].
    assert (E' : Gemini.stripFence (Some body) = body).
    { unfold Gemini.stripFence. rewrite or_else_empty.
      rewrite (trim_id body Hs He).
      unfold Regex.match_anchored. rewrite fenceRegex_parts. cbn [Regex.m].
      destruct body as [|c b]; [contradiction|].
      unfold noBackquote in Hq. cbn [all_chars] in Hq.
      apply andb_prop in Hq as [Hc _]. apply negb_true_iff in Hc.
      cbn [strip_prefix]. now rewrite Hc. }
    unfold Gemini.parseOutline. now rewrite E, E'.
Qed.

Lemma parseOutline_fence_witness :
  let body := "{" +:+ lf +:+ "  " +:+ q "chapters" +:+ ": []" +:+ lf +:+ "}" in
  Gemini.stripFence (Some ("```json" +:+ lf +:+ body +:+ lf +:+ "```" +:+ lf))
  = body
  /\ Gemini.stripFence (Some " [1, 2] ") = "[1, 2]".
Proof.
  intros body. split.
  - exact (proj1 (proj2 (proj2 (parseOutline_fence _))
                    "" "json" lf body lf lf eq_refl eq_refl eq_refl eq_refl
                    eq_refl eq_refl ltac:(discriminate) eq_refl eq_refl
                    eq_refl eq_refl)).
  - exact (proj1 (proj1 (proj2 (parseOutline_fence " [1, 2] ")) eq_refl)).
Defined.

(** ** Book generation: what fails *)

Lemma promiseAll_rejected (titles : list Json.json) (outcomes : list Outcome) :
  List.length outcomes = List.length titles ->
  (exists j e, outcomes !! j = Some (Rejected e)) ->
  exists j e,
    outcomes !! j = Some (Rejected e)
    /\ Gemini.promiseAll (zip_with Gemini.thenChapter titles outcomes) = inr e.
Proof.
  revert outcomes. induction titles as [|t titles IH];
    intros [|o outcomes] Hlen (j & e & Hj); try discriminate.
  destruct o as [r|e0].
  - destruct j as [|j]; [discriminate|].
    destruct (IH outcomes) as (j' & e' & Hj' & Hp);
      [simpl in Hlen; congruence | eauto |].
    exists (S j'), e'. split; [exact Hj'|]. cbn. now rewrite Hp.
  - exists 0, e0. split; reflexivity.
Qed.

(** A run of [generateBook] on an outline with an array of chapters. *)
Lemma generateBook_run (srv : Service) (topic : string)
    (outlineResponse : Response.t) (outline : Json.json)
    (chapterTitles : list Json.json) :
  srv 0 (Gemini.outlineRequest topic) = Resolved outlineResponse ->
  Gemini.parseOutline (Response.text outlineResponse) = Some outline ->
  Gemini.chapterTitlesOf outline = inl chapterTitles ->
  run srv 0 (Gemini.generateBook topic)
  = (Gemini.outlineRequest topic
       :: List.map (Gemini.chapterRequest topic) chapterTitles,
     match
       Gemini.promiseAll
         (zip_with Gemini.thenChapter chapterTitles
            (chapterOutcomes srv topic chapterTitles))
     with
     | inl chapters => inl (Book.mk (Json.get "title" outline) chapters)
     | inr e => inr e
     end).
Proof.
  intros Hsrv Hparse Htitles.
  unfold Gemini.generateBook, call. simpl. rewrite Hsrv. simpl.
  rewrite Hparse, Htitles, run_bind, run_awaitAll.
  assert (E : imap (fun i r => srv (1 + i) r)
                (List.map (Gemini.chapterRequest topic) chapterTitles)
              = chapterOutcomes srv topic chapterTitles).
  { unfold chapterOutcomes. apply list_eq. intros j.
    rewrite !list_lookup_imap, list_lookup_fmap.
    now destruct (chapterTitles !! j). }
  rewrite E.
  destruct (Gemini.promiseAll _); simpl; now rewrite app_nil_r.
Qed.

(** X6.  [generateBook] issues the calls of all the chapters of the
    outline, whatever becomes of them.  When the call of some chapter is
    rejected there is no book, not even of the chapters that were
    written: the result is the error of a rejected chapter call, as it
    came, without a message of the gateway around it. *)
Theorem generateBook_chapter_rejected (srv : Service) (topic : string)
    (outlineResponse : Response.t) (outline : Json.json)
    (chapterTitles : list Json.json) :
  srv 0 (Gemini.outlineRequest topic) = Resolved outlineResponse ->
  Gemini.parseOutline (Response.text outlineResponse) = Some outline ->
  Gemini.chapterTitlesOf outline = inl chapterTitles ->
  requests srv (Gemini.generateBook topic)
  = Gemini.outlineRequest topic
      :: List.map (Gemini.chapterRequest topic) chapterTitles
  /\ ((exists j t e,
         chapterTitles !! j = Some t
         /\ srv (S j) (Gemini.chapterRequest topic t) = Rejected e) ->
      exists j t e,
        chapterTitles !! j = Some t
        /\ srv (S j) (Gemini.chapterRequest topic t) = Rejected e
        /\ result srv (Gemini.generateBook topic) = inr e).
Proof.
  intros Hsrv Hparse Htitles.
  pose proof (generateBook_run srv topic _ _ _ Hsrv Hparse Htitles) as Hrun.
  unfold requests, result. rewrite Hrun. split; [reflexivity|].
  intros (j & t & e & Ht & He).
  assert (Hlook : forall i,
            chapterOutcomes srv topic chapterTitles !! i
            = (fun t => srv (S i) (Gemini.chapterRequest topic t))
                <$> chapterTitles !! i).
  { intros i. unfold chapterOutcomes. now rewrite list_lookup_imap. }
  destruct (promiseAll_rejected chapterTitles
              (chapterOutcomes srv topic chapterTitles))
    as (j' & e' & Hj' & Hp).
  { unfold chapterOutcomes. now rewrite length_imap. }
  { exists j, e. rewrite Hlook, Ht. cbn. now rewrite He. }
  rewrite Hlook in Hj'.
  destruct (chapterTitles !! j') as [t'|] eqn:Et'; [|discriminate].
  cbn in Hj'. injection Hj' as Hj'.
  exists j', t', e'. cbn [snd]. now rewrite Hp.
Qed.

Lemma generateBook_chapter_rejected_witness :
  requests failingService (Gemini.generateBook "Rocq")
  = [Gemini.outlineRequest "Rocq";
     Gemini.chapterRequest "Rocq" (Json.JStr "A");
     Gemini.chapterRequest "Rocq" (Json.JStr "B")]
  /\ exists e, result failingService (Gemini.generateBook "Rocq") = inr e.
Proof.
  assert (Hparse : Gemini.parseOutline
                     (Response.text (textResponse (Some exampleText)))
                   = Some exampleOutline) by (vm_compute; reflexivity).
  destruct (generateBook_chapter_rejected failingService "Rocq"
              (textResponse (Some exampleText)) exampleOutline
              [Json.JStr "A"; Json.JStr "B"] eq_refl Hparse eq_refl)
    as [Hreq Hres].
  split; [exact Hreq|].
  destruct Hres as (j & t & e & _ & _ & He).
  - exists 0, (Json.JStr "A"), (Error "503 Service Unavailable").
    split; reflexivity.
  - now exists e.
Defined.

(** X7.  [generateBook] without a usable outline issues the call of the
    outline and no other.  A rejection of that call comes out as it is.
    An answer without text, with white space only, or with a text that
    stops the reader of JSON short of any escape for a code unit from
    256 on (a syntax error, then) gives 'Could not generate a valid book
    outline.'; an answer that parses to a value without an array of
    chapters gives an error too, never a book without chapters. *)
Theorem generateBook_outline_failure (srv : Service) (topic : string) :
  let r := Gemini.outlineRequest topic in
  let op := Gemini.generateBook topic in
  (forall e, srv 0 r = Rejected e ->
     requests srv op = [r] /\ result srv op = inr e)
  /\ (forall response, srv 0 r = Resolved response ->
        (Json.beyond Json.LDefault (Gemini.stripFence (Response.text response))
         = false
         /\ Gemini.parseOutline (Response.text response) = None)
        \/ Response.text response = None
        \/ (exists ws, Response.text response = Some ws
                       /\ all_chars is_js_space ws = true) ->
        requests srv op = [r]
        /\ result srv op
           = inr (Error "Could not generate a valid book outline."))
  /\ (forall response outline, srv 0 r = Resolved response ->
        Gemini.parseOutline (Response.text response) = Some outline ->
        (forall cs, Json.get "chapters" outline <> Some (Json.JArr cs)) ->
        requests srv op = [r] /\ exists e, result srv op = inr e).
Proof.
  intros r op. subst r op. unfold requests, result, Gemini.generateBook.
  split; [|split].
  - intros e Hs. simpl. now rewrite Hs.
  - intros response Hs Hbad.
    assert (Hparse : Gemini.parseOutline (Response.text response) = None).
    { destruct Hbad as [[_ H] | [-> | (ws & -> & Hws)]];
        [exact H | reflexivity |].
      unfold Gemini.parseOutline, Gemini.stripFence.
      rewrite or_else_empty.
      assert (E : trim ws = "").
      { pose proof (trim_is_empty ws) as Ht. rewrite Hws in Ht.
        now destruct (trim ws). }
      now rewrite E. }
    simpl. rewrite Hs. simpl. now rewrite Hparse.
  - intros response outline Hs Hparse Hno.
    assert (exists e, Gemini.chapterTitlesOf outline = inr e) as [e He].
    { unfold Gemini.chapterTitlesOf.
      destruct outline; try (destruct (Json.get "chapters" _) as [[]|]);
        try (eexists; reflexivity);
        exfalso; eapply Hno; eassumption || reflexivity. }
    simpl. rewrite Hs. simpl. rewrite Hparse, He. simpl.
    split; [reflexivity | now exists e].
Qed.

Lemma generateBook_outline_failure_witness :
  let srv : Service :=
    fun _ _ => Resolved (textResponse (Some "{title: Rocq}")) in
  requests srv (Gemini.generateBook "Rocq") = [Gemini.outlineRequest "Rocq"]
  /\ result srv (Gemini.generateBook "Rocq")
     = inr (Error "Could not generate a valid book outline.").
Proof.
  intros srv.
  apply (proj1 (proj2 (generateBook_outline_failure srv "Rocq"))
           (textResponse (Some "{title: Rocq}")) eq_refl).
  left. split; reflexivity.
Defined.

(* ===================================================================== *)
(** * The application: more on groups, URLs and the transcript *)
(* ===================================================================== *)

(** ** The active group exists *)

Lemma groupsEffect_active (c : AppState) (now : N) :
  activeExists (groupsEffect c now c).
Proof.
  unfold activeExists.
  destruct (existsb (hasId (activeUrlGroupId c)) (urlGroups c)) eqn:Ex.
  - now rewrite (groupsEffect_settled c c now Ex).
  - unfold groupsEffect. rewrite Ex.
    destruct (urlGroups c) as [|g gs] eqn:E; simpl.
    + unfold hasId. simpl. now rewrite String.eqb_refl.
    + rewrite E. simpl. unfold hasId at 1. now rewrite String.eqb_refl.
Qed.

Lemma welcomeEffect_groups (c s : AppState) (now : N) :
  urlGroups (welcomeEffect c now s) = urlGroups s
  /\ activeUrlGroupId (welcomeEffect c now s) = activeUrlGroupId s.
Proof. unfold welcomeEffect. now destruct (negb _). Qed.

Lemma flush_active_settled (prev cur : AppState) (now : N) :
  activeExists cur -> activeExists (flush prev cur now).
Proof.
  intros H. unfold activeExists.
  destruct (flush_settled prev cur now H) as [-> ->]. exact H.
Qed.

Lemma flush_active_changed (prev cur : AppState) (now : N) :
  groupsDepsChanged prev cur = true -> activeExists (flush prev cur now).
Proof.
  intros Hd. unfold flush.
  assert (H1 : activeExists (commit prev cur now)).
  { unfold commit. rewrite Hd. cbv zeta.
    pose proof (groupsEffect_active cur now) as HG.
    destruct (welcomeDepsChanged prev cur); [|exact HG].
    unfold activeExists.
    destruct (welcomeEffect_groups cur (groupsEffect cur now cur) now)
      as [-> ->].
    exact HG. }
  unfold activeExists.
  destruct (commit_settled cur (commit prev cur now) now H1) as (-> & _ & ->).
  exact H1.
Qed.

Lemma sameContext_active (a a' : AppState) :
  sameContext a a' -> activeExists a -> activeExists a'.
Proof.
  intros (Hg & _ & Ha & _) H. unfold activeExists. now rewrite Hg, Ha.
Qed.

Lemma setUrlGroups_changed (a : AppState) (gs : list URLGroup.t) (i : string) :
  groupsDepsChanged a (setActiveUrlGroupId i (setUrlGroups gs a)) = true.
Proof.
  unfold groupsDepsChanged. simpl.
  replace (urlGroupsRef a =? S (urlGroupsRef a))%nat with false; [reflexivity|].
  symmetry. apply Nat.eqb_neq. lia.
Qed.

Section Active.
Variable isValidUrl : string -> bool.

(** An event leaves a state in which the active group exists, or one
    with a new array of groups, which the effect of line 364 looks at. *)
Lemma handle_active (s : Sys) (ev : Event) (now : N) :
  Forall goodPending (pending s) ->
  activeExists (app s) ->
  activeExists (app (handle isValidUrl s ev now))
  \/ groupsDepsChanged (app s) (app (handle isValidUrl s ev now)) = true.
Proof.
  intros Hg Ha.
  assert (Hset : forall gs, groupsDepsChanged (app s) (setUrlGroups gs (app s))
                            = true).
  { intros gs. apply (setUrlGroups_changed (app s) gs (activeUrlGroupId (app s))). }
  destruct ev as [input|url|gid|gname|confirm|rinput|file| |ptext|query|v|v|v|md| | | |i o].
  - (* AddUrl *)
    unfold handle. destruct (_ && _); [|now left].
    destruct (KBM.handleAddUrl _ _ _ _) as [k' [u|]]; [|now left].
    right. apply Hset.
  - unfold handle. destruct (_ && _); [|now left]. right. apply Hset.
  - (* SelectGroup *)
    unfold handle. destruct (isLoggedIn _ && _); [|now left].
    cbn [andb]. destruct (existsb (hasId gid) _) eqn:Ex; now left.
  - (* AddGroup *)
    unfold handle. destruct (_ && _); [|now left].
    destruct (KBM.handleAddNewGroup gname) as [n|]; [|now left].
    right. apply setUrlGroups_changed.
  - (* RemoveGroup *)
    unfold handle. destruct (_ && _); [|now left].
    cbn [app]. unfold handleRemoveGroup.
    destruct (_ <=? _)%nat; [now left|]. destruct confirm; [|now left].
    right. rewrite String.eqb_refl. cbv zeta.
    unfold groupsDepsChanged. simpl.
    replace (urlGroupsRef (app s) =? S (urlGroupsRef (app s)))%nat with false;
      [reflexivity|].
    symmetry. apply Nat.eqb_neq. lia.
  - (* RenameGroup *)
    unfold handle. destruct (_ && _); [|now left].
    destruct (KBM.handleConfirmRename rinput _) as [[gi n]|]; [|now left].
    cbn [app]. unfold handleRenameGroup.
    destruct (negb _); [now left|]. right. apply Hset.
  - unfold handle, handleAddFile. destruct (_ && _); [|now left].
    destruct (negb _); now left.
  - unfold handle. destruct (_ && _); now left.
  - unfold handle, handleSetTextContext. destruct (_ && _); [|now left].
    destruct (truthy _); now left.
  - left. destruct (handle_SendMessage isValidUrl s query now)
      as [->|(_ & a' & p & -> & Hc & _)]; [exact Ha|].
    simpl. eauto using sameContext_active.
  - unfold handle. destruct (_ && _); now left.
  - unfold handle. destruct (_ && _); now left.
  - unfold handle. destruct (_ && _); now left.
  - unfold handle. destruct (_ && _); now left.
  - unfold handle. destruct (isLoggedIn _); now left.
  - unfold handle. destruct (isLoggedIn _); now left.
  - left. destruct (handle_RunSuggestionsEffect isValidUrl s now)
      as (a' & new & -> & Hc & _).
    simpl. eauto using sameContext_active.
  - left. destruct (handle_Resolve isValidUrl s i o now Hg)
      as [->|(p & a' & _ & -> & Hc & _)]; [exact Ha|].
    simpl. eauto using sameContext_active.
Qed.

Lemma step_active (s : Sys) (ev : Event) (now : N) :
  Forall goodPending (pending s) ->
  activeExists (app s) -> activeExists (app (step isValidUrl s ev now)).
Proof.
  intros Hg Ha. unfold step. cbn [app].
  destruct (handle_active s ev now Hg Ha) as [H|H].
  - now apply flush_active_settled.
  - now apply flush_active_changed.
Qed.

Lemma steps_active (evs : list (Event * N)) (s : Sys) :
  Forall goodPending (pending s) ->
  activeExists (app s) -> activeExists (app (steps isValidUrl s evs)).
Proof.
  revert s. induction evs as [|[ev now] evs IH]; intros s Hg Ha; [exact Ha|].
  simpl. apply IH; [now apply step_goodPending | now apply step_active].
Qed.
End Active.

(** X8.  The renders that follow a change of the groups or of the active
    identifier leave an active identifier that names a group, whatever
    the state was: without groups the default group 'My Knowledge Base'
    is made and is active; with groups and an identifier that names none
    of them, the groups stay and the first of them becomes active.  From
    then on every event keeps it so, the removal of groups included: in
    every run from such a state without pending calls, the active group
    exists. *)
Theorem active_group_exists (isValidUrl : string -> bool) :
  (forall prev cur now,
     groupsDepsChanged prev cur = true ->
     activeExists (flush prev cur now)
     /\ (urlGroups cur = [] ->
         urlGroups (flush prev cur now)
         = [URLGroup.mk (newGroupId now) "My Knowledge Base" []]
         /\ activeUrlGroupId (flush prev cur now) = newGroupId now)
     /\ (forall g gs,
           urlGroups cur = g :: gs ->
           existsb (hasId (activeUrlGroupId cur)) (urlGroups cur) = false ->
           urlGroups (flush prev cur now) = g :: gs
           /\ activeUrlGroupId (flush prev cur now) = URLGroup.id g))
  /\ (forall (s : Sys) (evs : list (Event * N)),
        pending s = [] -> activeExists (app s) ->
        let s' := steps isValidUrl s evs in
        activeExists (app s') /\ is_Some (activeGroup (app s'))).
Proof.
  assert (Hcommit : forall prev cur now gs i,
            groupsDepsChanged prev cur = true ->
            urlGroups (groupsEffect cur now cur) = gs ->
            activeUrlGroupId (groupsEffect cur now cur) = i ->
            urlGroups (flush prev cur now) = gs
            /\ activeUrlGroupId (flush prev cur now) = i).
  { intros prev cur now gs i Hd Hg Hi.
    assert (H1 : urlGroups (commit prev cur now) = gs
                 /\ activeUrlGroupId (commit prev cur now) = i
                 /\ activeExists (commit prev cur now)).
    { unfold commit. rewrite Hd. cbv zeta.
      pose proof (groupsEffect_active cur now) as HA.
      destruct (welcomeDepsChanged prev cur); [|now repeat split].
      unfold activeExists.
      destruct (welcomeEffect_groups cur (groupsEffect cur now cur) now)
        as [-> ->].
      now repeat split. }
    destruct H1 as (H1 & H2 & HA). unfold flush.
    destruct (commit_settled cur (commit prev cur now) now HA)
      as (-> & _ & ->).
    now split. }
  split.
  - intros prev cur now Hd. split; [now apply flush_active_changed|]. split.
    + intros He. apply Hcommit; [exact Hd | |];
        unfold groupsEffect; rewrite He; reflexivity.
    + intros g gs He Hno. apply Hcommit; [exact Hd | |];
        unfold groupsEffect; rewrite Hno, He; [exact He | reflexivity].
  - intros s evs Hp Ha s'. subst s'.
    assert (H : activeExists (app (steps isValidUrl s evs))).
    { apply steps_active; [rewrite Hp; constructor | exact Ha]. }
    split; [exact H|].
    unfold activeExists in H. rewrite existsb_hasId_find in H.
    now apply bool_decide_eq_true in H.
Qed.

Lemma active_group_exists_witness :
  activeExists (flush (sampleApp [] "" chat)
                  (setUrlGroups [] (sampleApp [] "" chat)) 7)
  /\ activeUrlGroupId
       (flush (sampleApp [emptyGroup] "group-3" chat)
          (setUrlGroups [smallGroup; emptyGroup]
             (sampleApp [emptyGroup] "group-9" chat)) 7)
     = "group-2"
  /\ activeExists
       (app (steps sampleIsValidUrl
               (sampleSys [smallGroup; emptyGroup] "group-2" chat)
               [(RemoveGroup true, 1%N); (RemoveGroup true, 2%N)])).
Proof.
  split; [|split].
  - apply (proj1 (active_group_exists sampleIsValidUrl)). reflexivity.
  - refine (proj2 (proj2 (proj2 (proj1 (active_group_exists sampleIsValidUrl)
                                   _ _ 7%N _))
                    smallGroup [emptyGroup] _ _)); reflexivity.
  - apply (proj2 (active_group_exists sampleIsValidUrl)); reflexivity.
Defined.

(** ** Adding and removing URLs *)

Lemma existsb_hasId_map (f : URLGroup.t -> URLGroup.t) (i : string)
    (gs : list URLGroup.t) :
  (forall g, URLGroup.id (f g) = URLGroup.id g) ->
  existsb (hasId i) (List.map f gs) = existsb (hasId i) gs.
Proof.
  intros Hf. rewrite !existsb_hasId_find, findGroup_map by exact Hf.
  now destruct (findGroup i gs).
Qed.

Lemma activeExists_group (a : AppState) :
  activeExists a ->
  exists g, activeGroup a = Some g /\ URLGroup.id g = activeUrlGroupId a.
Proof.
  unfold activeExists, activeGroup. rewrite existsb_hasId_find.
  intros H. apply bool_decide_eq_true in H as [g Hg].
  exists g. split; [exact Hg | now apply findGroup_hasId in Hg].
Qed.

Lemma firstn_room {A} (n : nat) (l : list A) :
  List.length l <= n -> firstn n l = l.
Proof. intros H. now apply firstn_all2. Qed.

(** X9.  Submitting the URL field in chat mode.  The field is an input
    of type url: what it hands over has no line break and no ASCII
    white space at either end.  Such an input is accepted exactly when
    it is not blank, the URL parser takes it, the active group holds
    fewer than 20 URLs and none of them is the input, code unit by code
    unit.  When accepted, the input goes, as the field handed it over,
    to the end of the URLs of the active group, the field is emptied and
    no error is shown; otherwise an error is shown, the field keeps the
    input and the application state is what it was. *)
Theorem addUrl_outcome (isValidUrl : string -> bool) (s : Sys)
    (input : string) (now : N) :
  urlFieldValue input = true ->
  inChat (app s) -> activeExists (app s) ->
  let urls := currentUrlsForChat (app s) in
  let s' := step isValidUrl s (AddUrl input) now in
  if negb (all_chars is_js_space input) && isValidUrl input
     && (List.length urls <? MAX_URLS)%nat
     && negb (existsb (String.eqb input) urls)
  then
    KBM.error (kbm s') = None /\ KBM.currentUrlInput (kbm s') = ""
    /\ currentUrlsForChat (app s') = (urls ++ [input])%list
    /\ activeUrlGroupId (app s') = activeUrlGroupId (app s)
    /\ List.map URLGroup.id (urlGroups (app s'))
       = List.map URLGroup.id (urlGroups (app s))
  else
    is_Some (KBM.error (kbm s')) /\ KBM.currentUrlInput (kbm s') = input
    /\ app s' = app s /\ pending s' = pending s.
Proof.
  intros _ Hin Ha urls s'. subst s'.
  assert (Hk : KBM.handleAddUrl isValidUrl urls MAX_URLS
                 (KBM.mkKbm input (KBM.error (kbm s)))
               = if negb (all_chars is_js_space input) && isValidUrl input
                    && (List.length urls <? MAX_URLS)%nat
                    && negb (existsb (String.eqb input) urls)
                 then (KBM.mkKbm "" None, Some input)
                 else
                   (KBM.mkKbm input
                      (Some (if all_chars is_js_space input then KBM.errEmpty
                             else if negb (isValidUrl input)
                                  then KBM.errInvalid
                                  else if (MAX_URLS <=? List.length urls)%nat
                                       then KBM.errLimit MAX_URLS
                                       else KBM.errDuplicate)), None)).
  { unfold KBM.handleAddUrl. cbn [KBM.currentUrlInput].
    unfold truthy. rewrite trim_is_empty, negb_involutive.
    destruct (all_chars is_js_space input); [reflexivity|]. cbn [negb andb].
    destruct (isValidUrl input); [|reflexivity]. cbn [negb andb].
    rewrite (Nat.ltb_antisym MAX_URLS (List.length urls)).
    destruct (MAX_URLS <=? List.length urls)%nat; [reflexivity|].
    cbn [negb andb]. now destruct (existsb _ urls). }
  destruct (negb (all_chars is_js_space input) && isValidUrl input
            && (List.length urls <? MAX_URLS)%nat
            && negb (existsb (String.eqb input) urls)) eqn:Eok.
  - (* accepted *)
    apply andb_prop in Eok as [Eok _]. apply andb_prop in Eok as [_ Hroom].
    apply Nat.ltb_lt in Hroom.
    destruct Hin as [Hlog Hmode].
    assert (Hh : handle isValidUrl s (AddUrl input) now
                 = mkSys (handleAddUrl input (app s)) (KBM.mkKbm "" None)
                     (pending s)).
    { unfold handle. rewrite Hlog, Hmode. cbn [andb bool_decide].
      rewrite bool_decide_true by reflexivity. fold urls. now rewrite Hk. }
    unfold step. rewrite Hh. cbn [app kbm pending KBM.error KBM.currentUrlInput].
    set (f := fun group : URLGroup.t =>
                if hasId (activeUrlGroupId (app s)) group
                then URLGroup.mk (URLGroup.id group) (URLGroup.name group)
                       (firstn MAX_URLS (URLGroup.urls group ++ [input])%list)
                else group).
    assert (Hf : forall g, URLGroup.id (f g) = URLGroup.id g).
    { intros g. unfold f. now destruct (hasId _ g). }
    assert (Hgs : urlGroups (handleAddUrl input (app s))
                  = List.map f (urlGroups (app s))) by reflexivity.
    assert (Ha' : activeExists (handleAddUrl input (app s))).
    { unfold activeExists. rewrite Hgs.
      change (activeUrlGroupId (handleAddUrl input (app s)))
        with (activeUrlGroupId (app s)).
      now rewrite existsb_hasId_map. }
    destruct (flush_settled (app s) (handleAddUrl input (app s)) now Ha')
      as [Eg Ea].
    destruct (activeExists_group (app s) Ha) as (g & Hg & Hid).
    split; [reflexivity|]. split; [reflexivity|]. split; [|split].
    + unfold currentUrlsForChat, activeGroup. rewrite Eg, Ea, Hgs.
      change (activeUrlGroupId (handleAddUrl input (app s)))
        with (activeUrlGroupId (app s)).
      rewrite findGroup_map by exact Hf.
      assert (Hurls : urls = URLGroup.urls g).
      { subst urls. unfold currentUrlsForChat. now rewrite Hg. }
      rewrite Hurls in Hroom |- *. unfold activeGroup in Hg. rewrite Hg.
      cbn [fmap option_fmap option_map]. unfold f.
      unfold hasId. rewrite Hid, String.eqb_refl. cbn [URLGroup.urls].
      apply firstn_room. rewrite length_app. cbn [List.length].
      unfold Datatypes.length in *. lia.
    + now rewrite Ea.
    + rewrite Eg, Hgs, List.map_map. apply List.map_ext. exact Hf.
  - (* refused *)
    rewrite (step_AddUrl_rejected isValidUrl s input now _ Hin Hk).
    cbn [app kbm pending KBM.error KBM.currentUrlInput]. eauto.
Qed.

Lemma addUrl_outcome_witness :
  let s := sampleSys [smallGroup; emptyGroup] "group-2" chat in
  currentUrlsForChat
    (app (step sampleIsValidUrl s (AddUrl "https://new.example.com/") 7))
  = [sampleUrl 0; "https://new.example.com/"].
Proof.
  intros s.
  pose proof (addUrl_outcome sampleIsValidUrl s "https://new.example.com/" 7
                eq_refl (conj eq_refl eq_refl) eq_refl) as H.
  exact (proj1 (proj2 (proj2 H))).
Defined.

Lemma filter_absent (u : string) (l : list string) :
  ~ In u l -> List.filter (fun url => negb (String.eqb url u)) l = l.
Proof.
  induction l as [|x l IH]; [reflexivity|]. intros Hn. simpl.
  destruct (String.eqb_spec x u) as [->|_].
  - exfalso. apply Hn. now left.
  - simpl. f_equal. apply IH. intros H. apply Hn. now right.
Qed.

Lemma filter_gone (u : string) (l : list string) :
  ~ In u (List.filter (fun url => negb (String.eqb url u)) l).
Proof.
  intros H. apply List.filter_In in H as [_ H].
  now rewrite String.eqb_refl in H.
Qed.

(** X10.  [handleRemoveUrl] takes every occurrence of the URL out of
    the groups that carry the active identifier and touches no other
    group; names, identifiers and the order of the groups stay.  After
    [handleAddUrl] of a URL that the active group does not hold, it
    gives back the groups as they were. *)
Theorem removeUrl_undoes_addUrl (a : AppState) (u : string) :
  (forall g, In g (urlGroups (handleRemoveUrl u a)) ->
             URLGroup.id g = activeUrlGroupId a -> ~ In u (URLGroup.urls g))
  /\ (forall g, In g (urlGroups a) -> URLGroup.id g <> activeUrlGroupId a ->
                In g (urlGroups (handleRemoveUrl u a)))
  /\ List.map URLGroup.id (urlGroups (handleRemoveUrl u a))
     = List.map URLGroup.id (urlGroups a)
  /\ List.map URLGroup.name (urlGroups (handleRemoveUrl u a))
     = List.map URLGroup.name (urlGroups a)
  /\ (urlsBounded a ->
      (forall g, In g (urlGroups a) -> URLGroup.id g = activeUrlGroupId a ->
                 ~ In u (URLGroup.urls g)) ->
      urlGroups (handleRemoveUrl u (handleAddUrl u a)) = urlGroups a).
Proof.
  set (rm := fun group : URLGroup.t =>
               if hasId (activeUrlGroupId a) group
               then URLGroup.mk (URLGroup.id group) (URLGroup.name group)
                      (List.filter (fun url => negb (String.eqb url u))
                         (URLGroup.urls group))
               else group).
  assert (Hrm : urlGroups (handleRemoveUrl u a) = List.map rm (urlGroups a))
    by reflexivity.
  split; [|split; [|split; [|split]]].
  - intros g Hg Hid. rewrite Hrm in Hg. apply List.in_map_iff in Hg
      as (g0 & <- & _).
    unfold rm in *. destruct (hasId (activeUrlGroupId a) g0) eqn:E.
    + apply filter_gone.
    + unfold hasId in E. rewrite Hid, String.eqb_refl in E. discriminate.
  - intros g Hg Hid. rewrite Hrm. apply List.in_map_iff. exists g.
    split; [|exact Hg]. unfold rm, hasId.
    destruct (String.eqb_spec (URLGroup.id g) (activeUrlGroupId a));
      [contradiction | reflexivity].
  - rewrite Hrm, List.map_map. apply List.map_ext. intros g. unfold rm.
    now destruct (hasId _ g).
  - rewrite Hrm, List.map_map. apply List.map_ext. intros g. unfold rm.
    now destruct (hasId _ g).
  - intros Hb Hno. unfold handleRemoveUrl, handleAddUrl.
    cbn [urlGroups setUrlGroups activeUrlGroupId].
    rewrite List.map_map. rewrite <- (List.map_id (urlGroups a)) at 2.
    apply List.map_ext_in. intros g Hg.
    unfold urlsBounded in Hb. rewrite List.Forall_forall in Hb.
    specialize (Hb g Hg). unfold hasId at 2.
    destruct (String.eqb_spec (URLGroup.id g) (activeUrlGroupId a)) as [E|E].
    + unfold hasId. cbn [URLGroup.id]. rewrite E, String.eqb_refl.
      cbn [URLGroup.id URLGroup.name URLGroup.urls].
      destruct g as [gi gn gu]. cbn [URLGroup.id URLGroup.name URLGroup.urls] in *.
      f_equal; [congruence|].
      assert (Hcut : firstn MAX_URLS (gu ++ [u])%list = (gu ++ [u])%list
                     \/ firstn MAX_URLS (gu ++ [u])%list = gu).
      { destruct (Nat.eq_dec (List.length gu) MAX_URLS) as [Hl|Hl].
        - right. rewrite <- Hl. rewrite firstn_app, Nat.sub_diag.
          cbn [firstn]. rewrite app_nil_r. now apply firstn_all2.
        - left. apply firstn_all2. rewrite length_app. cbn [List.length].
          unfold Datatypes.length in *. lia. }
      assert (Hfil : List.filter (fun url => negb (String.eqb url u)) gu = gu).
      { apply filter_absent. apply (Hno (URLGroup.mk gi gn gu) Hg E). }
      destruct Hcut as [-> | ->]; [|exact Hfil].
      rewrite List.filter_app, Hfil. cbn [List.filter].
      rewrite String.eqb_refl. cbn [negb]. apply app_nil_r.
    + unfold hasId.
      destruct (String.eqb_spec (URLGroup.id g) (activeUrlGroupId a));
        [contradiction | reflexivity].
Qed.

Lemma removeUrl_undoes_addUrl_witness :
  let a := sampleApp [smallGroup; emptyGroup] "group-3" chat in
  urlGroups (handleRemoveUrl (sampleUrl 0) (handleAddUrl (sampleUrl 0) a))
  = urlGroups a.
Proof.
  intros a.
  apply (proj2 (proj2 (proj2 (proj2 (removeUrl_undoes_addUrl a (sampleUrl 0)))))).
  - repeat constructor; cbn; lia.
  - intros g [<- | [<- | []]]; [discriminate | intros _ []].
Defined.

(** ** The transcript *)

Lemma commit_sameContext (a a' : AppState) (now : N) :
  sameContext a a' -> commit a a' now = a'.
Proof.
  intros Hc. unfold commit. rewrite (sameContext_deps a a' Hc).
  replace (welcomeDepsChanged a a') with false; [reflexivity|].
  symmetry. apply welcomeDepsChanged_false.
  pose proof (sameContext_deps a a' Hc) as Hd.
  destruct Hc as (_ & _ & _ & _ & Hf & Hm & _).
  split; [exact Hd|]. now split.
Qed.

Lemma flush_sameContext (a a' : AppState) (now : N) :
  sameContext a a' -> flush a a' now = a'.
Proof.
  intros Hc. unfold flush. rewrite (commit_sameContext a a' now Hc).
  apply commit_sameContext, sameContext_refl.
Qed.




(** What [handleSendMessage] does when it does not return at once. *)
Lemma exec_send (a : AppState) (query : string) (now : N) :
  all_chars is_js_space query = false ->
  isLoading a = false -> isFetchingSuggestions a = false ->
  exists p,
    exec (handleSendMessage a query now) a
    = (updChatMessages
         (fun prev => (prev ++ [userMessage query now; modelPlaceholder now])%list)
         (setInitialQuerySuggestions [] (setIsLoading true a)), [p])
    /\ origin p = ChatSend
    /\ request p
       = Gemini.chatRequest query (currentUrlsForChat a) (fileContext a)
           (useWebSearch a) (useThinking a) (customPrompt a)
    /\ forall (out : Outcome) (now' : N) (a0 : AppState),
         exists m,
           exec (resume p out now') a0
           = (setIsLoading false
                (updChatMessages
                   (replaceById (ChatMessage.id (modelPlaceholder now)) m) a0),
              [])
           /\ ChatMessage.id m = ChatMessage.id (modelPlaceholder now)
           /\ ChatMessage.timestamp m = now
           /\ ChatMessage.isLoading m = Some false
           /\ match out with
              | Resolved r =>
                  ChatMessage.sender m = MODEL
                  /\ ChatMessage.text m
                     = match Response.text r with
                       | Some (String c t) => String c t
                       | _ => "I received an empty response."
                       end
              | Rejected e =>
                  ChatMessage.sender m = SYSTEM
                  /\ ChatMessage.urlContext m = None
                  /\ exists msg,
                       Gemini.chatCatch e = Throw (Error msg)
                       /\ ChatMessage.text m = "Error: " +:+ msg
              end.
Proof.
  intros Hq Hl Hf. unfold handleSendMessage, truthy.
  rewrite trim_is_empty, Hq, Hl, Hf. cbn [negb orb].
  eexists. split; [reflexivity|]. split; [reflexivity|].
  split; [reflexivity|].
  intros out now' a0. cbn [resume].
  destruct out as [r|e].
  - eexists. split; [reflexivity|]. cbn.
    repeat split. now destruct (Response.text r) as [[|c t]|].
  - destruct (chatCatch_message e) as (msg & Hmsg & _).
    cbn [Gemini.generateContentWithUrlContext try_catch bind call await_async].
    rewrite Hmsg. cbn [await_async].
    eexists. split; [reflexivity|]. cbn.
    repeat split. exists msg. now split.
Qed.

Lemma step_send (isValidUrl : string -> bool) (s : Sys) (query : string)
    (now : N) :
  inChat (app s) ->
  all_chars is_js_space query = false ->
  isLoading (app s) = false -> isFetchingSuggestions (app s) = false ->
  exists p,
    step isValidUrl s (SendMessage query) now
    = mkSys
        (updChatMessages
           (fun prev => (prev ++ [userMessage query now; modelPlaceholder now])%list)
           (setInitialQuerySuggestions [] (setIsLoading true (app s))))
        (kbm s) (pending s ++ [p])
    /\ origin p = ChatSend
    /\ request p
       = Gemini.chatRequest query (currentUrlsForChat (app s))
           (fileContext (app s)) (useWebSearch (app s)) (useThinking (app s))
           (customPrompt (app s))
    /\ forall (out : Outcome) (now' : N) (a0 : AppState),
         exists m,
           exec (resume p out now') a0
           = (setIsLoading false
                (updChatMessages
                   (replaceById (ChatMessage.id (modelPlaceholder now)) m) a0),
              [])
           /\ ChatMessage.id m = ChatMessage.id (modelPlaceholder now)
           /\ ChatMessage.timestamp m = now
           /\ ChatMessage.isLoading m = Some false
           /\ match out with
              | Resolved r =>
                  ChatMessage.sender m = MODEL
                  /\ ChatMessage.text m
                     = match Response.text r with
                       | Some (String c t) => String c t
                       | _ => "I received an empty response."
                       end
              | Rejected e =>
                  ChatMessage.sender m = SYSTEM
                  /\ ChatMessage.urlContext m = None
                  /\ exists msg,
                       Gemini.chatCatch e = Throw (Error msg)
                       /\ ChatMessage.text m = "Error: " +:+ msg
              end.
Proof.
  intros [Hlog Hmode] Hq Hl Hf.
  destruct (exec_send (app s) query now Hq Hl Hf) as (p & Hexec & Hrest).
  exists p. split; [|exact Hrest].
  unfold step.
  assert (Hh : handle isValidUrl s (SendMessage query) now
               = mkSys
                   (updChatMessages
                      (fun prev =>
                         (prev ++ [userMessage query now; modelPlaceholder now])%list)
                      (setInitialQuerySuggestions []
                         (setIsLoading true (app s))))
                   (kbm s) (pending s ++ [p])).
  { unfold handle. rewrite Hlog, Hmode. cbn [andb].
    rewrite bool_decide_true by reflexivity. now rewrite Hexec. }
  rewrite Hh. cbn [app kbm pending].
  rewrite flush_sameContext; [reflexivity|]. repeat split.
Qed.

Lemma step_resolve (isValidUrl : string -> bool) (s : Sys) (p : Pending)
    (rest : list Pending) (out : Outcome) (now : N) (a' : AppState) :
  pending s = p :: rest ->
  exec (resume p out now) (app s) = (a', []) ->
  sameContext (app s) a' ->
  step isValidUrl s (Resolve 0 out) now = mkSys a' (kbm s) rest.
Proof.
  intros Hp Hexec Hc. unfold step.
  assert (Hh : handle isValidUrl s (Resolve 0 out) now = mkSys a' (kbm s) rest).
  { unfold handle. rewrite Hp. cbn [lookup list_lookup].
    rewrite Hexec. cbn [delete list_delete]. now rewrite app_nil_r. }
  rewrite Hh. cbn [app kbm pending]. now rewrite flush_sameContext.
Qed.

(** X12.  One exchange.  A question that is not blank, sent in chat
    mode while nothing is loading, puts the question and a 'Thinking...'
    placeholder at the end of the transcript, turns the loading flag on,
    clears the suggestions and issues one chat request, built from the
    URLs of the active group, the file context and the settings.  When
    the call settles, the placeholder is replaced in place and the flag
    is off again: by the text of the answer from the model, or 'I
    received an empty response.' when it has none; on a failure by a
    message of the system, 'Error: ' and the message of the gateway. *)
Theorem send_then_answer (isValidUrl : string -> bool) (s : Sys)
    (query : string) (now1 now2 : N) (out : Outcome) :
  inChat (app s) -> pending s = [] ->
  all_chars is_js_space query = false ->
  isLoading (app s) = false -> isFetchingSuggestions (app s) = false ->
  let s1 := step isValidUrl s (SendMessage query) now1 in
  let s2 := step isValidUrl s1 (Resolve 0 out) now2 in
  chatMessages (app s1)
  = (chatMessages (app s)
       ++ [userMessage query now1; modelPlaceholder now1])%list
  /\ isLoading (app s1) = true
  /\ initialQuerySuggestions (app s1) = []
  /\ List.map request (pending s1)
     = [Gemini.chatRequest query (currentUrlsForChat (app s))
          (fileContext (app s)) (useWebSearch (app s)) (useThinking (app s))
          (customPrompt (app s))]
  /\ exists m,
       chatMessages (app s2)
       = (replaceById (ChatMessage.id (modelPlaceholder now1)) m
            (chatMessages (app s))
          ++ [userMessage query now1; m])%list
       /\ isLoading (app s2) = false /\ pending s2 = []
       /\ ChatMessage.id m = ChatMessage.id (modelPlaceholder now1)
       /\ ChatMessage.timestamp m = now1
       /\ ChatMessage.isLoading m = Some false
       /\ match out with
          | Resolved r =>
              ChatMessage.sender m = MODEL
              /\ ChatMessage.text m
                 = match Response.text r with
                   | Some (String c t) => String c t
                   | _ => "I received an empty response."
                   end
          | Rejected e =>
              ChatMessage.sender m = SYSTEM
              /\ ChatMessage.urlContext m = None
              /\ exists msg,
                   Gemini.chatCatch e = Throw (Error msg)
                   /\ ChatMessage.text m = "Error: " +:+ msg
          end.
Proof.
  intros Hin Hp Hq Hl Hf s1 s2.
  destruct (step_send isValidUrl s query now1 Hin Hq Hl Hf)
    as (p & Hs1 & Ho & Hreq & Hres).
  rewrite Hp in Hs1. cbn [List.app] in Hs1.
  subst s2 s1. rewrite Hs1. cbn [app pending].
  split; [reflexivity|]. split; [reflexivity|]. split; [reflexivity|].
  split; [cbn; now rewrite Hreq|].
  match goal with
  | |- context [step isValidUrl (mkSys ?a ?k ?ps) _ _] =>
      destruct (Hres out now2 a) as (m & Hexec & Hm);
      rewrite (step_resolve isValidUrl (mkSys a k ps) p [] out now2 _
                 eq_refl Hexec ltac:(repeat split))
  end.
  exists m. cbn [app pending].
  split; [|split; [reflexivity|split; [reflexivity|exact Hm]]].
  cbn [chatMessages setIsLoading updChatMessages setChatMessages
       setInitialQuerySuggestions].
  unfold replaceById. rewrite List.map_app. f_equal.
  cbn [List.map]. destruct Hm as (Hid & _).
  replace (String.eqb (ChatMessage.id (userMessage query now1))
             (ChatMessage.id (modelPlaceholder now1))) with false
    by reflexivity.
  now rewrite String.eqb_refl.
Qed.

Lemma send_then_answer_witness :
  let s := sampleSys [smallGroup] "group-2" chat in
  let s2 :=
    step sampleIsValidUrl (step sampleIsValidUrl s (SendMessage "Hi") 1)
      (Resolve 0 (Resolved (textResponse None))) 2 in
  exists m,
    chatMessages (app s2) = [userMessage "Hi" 1; m]
    /\ ChatMessage.text m = "I received an empty response.".
Proof.
  intros s s2.
  destruct (send_then_answer sampleIsValidUrl s "Hi" 1 2
              (Resolved (textResponse None)) (conj eq_refl eq_refl) eq_refl
              eq_refl eq_refl eq_refl)
    as (_ & _ & _ & _ & m & Ht & _ & _ & _ & _ & _ & _ & Htext).
  exists m. split; [exact Ht | exact Htext].
Defined.



(** ** Suggestions in the application *)

Lemma suggestionsCatch_message (e : Thrown) :
  exists msg, Gemini.suggestionsCatch e = Throw (Error msg) /\ msg <> "".
Proof.
  destruct e as [ge|]; [|eexists; split; [reflexivity | discriminate]].
  unfold Gemini.suggestionsCatch. cbv zeta.
  destruct (_ && _); eexists; (split; [reflexivity | discriminate]).
Qed.

(** The suggestions effect when it calls the gateway. *)
Lemma exec_fetch (c a : AppState) (now : N) :
  mode c = chat ->
  currentUrlsForChat c <> [] \/ fileContentOf (fileContext c) <> None ->
  exists p,
    exec (suggestionsEffect c now) a
    = (setInitialQuerySuggestions [] (setIsFetchingSuggestions true a), [p])
    /\ origin p = SuggestionFetch
    /\ request p
       = Gemini.suggestionsRequest (currentUrlsForChat c)
           (fileContentOf (fileContext c))
    /\ forall (out : Outcome) (now' : N) (a0 : AppState),
         exists a',
           exec (resume p out now') a0 = (setIsFetchingSuggestions false a', [])
           /\ match out with
              | Resolved r =>
                  a' = setInitialQuerySuggestions
                         (firstn 4
                            (parseSuggestions (default "" (Response.text r))))
                         a0
              | Rejected e =>
                  exists msg,
                    Gemini.suggestionsCatch e = Throw (Error msg)
                    /\ a' = updChatMessages
                              (fun prev =>
                                 (prev ++
                                  [ChatMessage.mk
                                     ("sys-err-suggestion-fetch-" +:+ pretty now')
                                     ("Error: " +:+ msg) SYSTEM now' None None])%list)
                              a0
              end.
Proof.
  intros Hm Hctx.
  assert (Hgate : ((0 <? List.length (currentUrlsForChat c))%nat
                   || bool_decide (is_Some (fileContext c))) = true).
  { destruct Hctx as [Hu | Hf].
    - destruct (currentUrlsForChat c); [contradiction | reflexivity].
    - destruct (fileContext c); [apply orb_true_r | contradiction]. }
  assert (Hskip : ((List.length (currentUrlsForChat c) =? 0)%nat
                   && negb (bool_decide (is_Some (fileContext c)))) = false).
  { destruct (currentUrlsForChat c); [|reflexivity].
    cbn in Hgate |- *. now rewrite Hgate. }
  assert (Hcall : ((List.length (currentUrlsForChat c) =? 0)%nat
                   && Gemini.noFileContent (fileContentOf (fileContext c)))
                  = false).
  { destruct Hctx as [Hu | Hf].
    - destruct (currentUrlsForChat c); [contradiction | reflexivity].
    - apply andb_false_iff. right. unfold fileContentOf in *.
      destruct (fileContext c) as [fc|]; [|contradiction].
      destruct (truthy (FileContext.content fc)) eqn:Et; [|contradiction].
      cbn. now rewrite Et. }
  unfold suggestionsEffect. rewrite Hm, bool_decide_true by reflexivity.
  rewrite Hgate. cbn [andb]. unfold fetchAndSetInitialSuggestions.
  rewrite Hskip. cbv zeta.
  change (match fileContext c with
          | Some fc =>
              if truthy (FileContext.content fc)
              then Some (FileContext.content fc) else None
          | None => None
          end) with (fileContentOf (fileContext c)).
  unfold Gemini.getInitialSuggestions. rewrite Hcall.
  cbn [exec try_catch bind call await_async].
  eexists. split; [reflexivity|]. split; [reflexivity|].
  split; [reflexivity|].
  intros out now' a0. cbn [resume].
  destruct out as [r|e].
  - cbn [try_catch bind await_async exec]. eexists. split; [reflexivity|].
    do 2 f_equal. now destruct (Response.text r) as [[|ch t]|].
  - destruct (suggestionsCatch_message e) as (msg & Hmsg & Hne).
    cbn [try_catch bind await_async]. rewrite Hmsg.
    cbn [try_catch bind await_async exec]. eexists. split; [reflexivity|].
    exists msg. split; [reflexivity|].
    cbn [messageOf or_else Error message]. unfold truthy.
    now destruct msg.
Qed.

(** The suggestions effect when it does not call the gateway: outside
    chat mode or without URL and file it clears the suggestions; with a
    file whose text is empty, and no URL, the gateway answers by itself
    with its canned sentence. *)
Lemma exec_no_fetch (c a : AppState) (now : N) :
  (mode c <> chat \/ (currentUrlsForChat c = [] /\ fileContext c = None) ->
   exec (suggestionsEffect c now) a = (setInitialQuerySuggestions [] a, []))
  /\ (mode c = chat -> currentUrlsForChat c = [] ->
      (exists fc, fileContext c = Some fc /\ FileContext.content fc = "") ->
      exec (suggestionsEffect c now) a
      = (setIsFetchingSuggestions false
           (setInitialQuerySuggestions
              ["Add some URLs or a file to get topic suggestions."]
              (setInitialQuerySuggestions []
                 (setIsFetchingSuggestions true a))), [])).
Proof.
  split.
  - intros H. unfold suggestionsEffect.
    destruct H as [Hm | [Hu Hf]].
    + rewrite bool_decide_false by exact Hm. reflexivity.
    + rewrite Hu, Hf. now destruct (bool_decide (mode c = chat)).
  - intros Hm Hu (fc & Hf & He). unfold suggestionsEffect.
    rewrite Hm, Hu, Hf, bool_decide_true by reflexivity.
    unfold fetchAndSetInitialSuggestions. rewrite He.
    vm_compute. reflexivity.
Qed.

Lemma fileContentOf_cases (fc : option FileContext.t) :
  fileContentOf fc <> None
  \/ fc = None \/ (exists x, fc = Some x /\ FileContext.content x = "").
Proof.
  destruct fc as [[n [|ch t]]|]; [right; right; eauto | left | right; left];
    [discriminate | reflexivity].
Qed.

(** In every case the effect keeps the suggestions within four, now and
    when its call settles. *)
Lemma exec_suggestions_bounded (c a : AppState) (now : N) :
  suggestionsBounded (fst (exec (suggestionsEffect c now) a))
  /\ Forall boundedPending (snd (exec (suggestionsEffect c now) a)).
Proof.
  destruct (decide (mode c = chat)) as [Hm|Hm].
  2: { rewrite (proj1 (exec_no_fetch c a now)) by now left.
       split; [cbn; unfold suggestionsBounded; cbn; lia | constructor]. }
  destruct (currentUrlsForChat c) as [|u us] eqn:Hu;
    [destruct (fileContentOf_cases (fileContext c)) as [Hf | [Hf | Hf]]|].
  - destruct (exec_fetch c a now Hm (or_intror Hf)) as (p & -> & _ & _ & Hres).
    split; [cbn; unfold suggestionsBounded; cbn; lia|].
    constructor; [|constructor]. intros out now' a0 Ha0.
    destruct (Hres out now' a0) as (a' & -> & Ha').
    destruct out as [r|e]; [subst a'; cbn; apply firstn_le_length|].
    destruct Ha' as (msg & _ & ->). exact Ha0.
  - rewrite (proj1 (exec_no_fetch c a now)) by (right; now split).
    split; [cbn; unfold suggestionsBounded; cbn; lia | constructor].
  - rewrite (proj2 (exec_no_fetch c a now) Hm Hu Hf).
    split; [cbn; unfold suggestionsBounded; cbn; lia | constructor].
  - assert (Hne : currentUrlsForChat c <> []) by (rewrite Hu; discriminate).
    destruct (exec_fetch c a now Hm (or_introl Hne)) as (p & He & _ & _ & Hres).
    rewrite He.
    split; [cbn; unfold suggestionsBounded; cbn; lia|].
    constructor; [|constructor]. intros out now' a0 Ha0.
    destruct (Hres out now' a0) as (a' & -> & Ha').
    destruct out as [r|e]; [subst a'; cbn; apply firstn_le_length|].
    destruct Ha' as (msg & _ & ->). exact Ha0.
Qed.

Lemma exec_send_bounded (a : AppState) (query : string) (now : N) :
  suggestionsBounded a ->
  suggestionsBounded (fst (exec (handleSendMessage a query now) a))
  /\ Forall boundedPending (snd (exec (handleSendMessage a query now) a)).
Proof.
  intros Ha.
  destruct (all_chars is_js_space query) eqn:Hq;
    [|destruct (isLoading a) eqn:Hl;
      [|destruct (isFetchingSuggestions a) eqn:Hf]].
  - unfold handleSendMessage, truthy. rewrite trim_is_empty, Hq.
    split; [exact Ha | constructor].
  - unfold handleSendMessage. rewrite Hl, orb_true_r.
    split; [exact Ha | constructor].
  - unfold handleSendMessage. rewrite Hf, orb_true_r.
    split; [exact Ha | constructor].
  - destruct (exec_send a query now Hq Hl Hf) as (p & -> & _ & _ & Hres).
    split; [cbn; unfold suggestionsBounded; cbn; lia|].
    constructor; [|constructor]. intros out now' a0 Ha0.
    destruct (Hres out now' a0) as (m & -> & _). exact Ha0.
Qed.

Lemma commit_suggestions (prev cur : AppState) (now : N) :
  initialQuerySuggestions (commit prev cur now) = initialQuerySuggestions cur.
Proof.
  unfold commit, welcomeEffect, groupsEffect. cbv zeta.
  destruct (groupsDepsChanged prev cur), (welcomeDepsChanged prev cur);
    repeat match goal with
           | |- context [if ?b then _ else _] => destruct b
           end; reflexivity.
Qed.

Section Bounded.
Variable isValidUrl : string -> bool.

Lemma handle_suggestions (s : Sys) (ev : Event) (now : N) :
  Forall goodPending (pending s) ->
  Forall boundedPending (pending s) -> suggestionsBounded (app s) ->
  suggestionsBounded (app (handle isValidUrl s ev now))
  /\ Forall boundedPending (pending (handle isValidUrl s ev now)).
Proof.
  intros Hg Hp Ha.
  destruct ev as [input|url|gid|gname|confirm|rinput|file| |ptext|query|v|v|v|md| | | |i o];
    try (match goal with
         | |- context [handle _ _ ?e _] =>
             assert (H : initialQuerySuggestions (app (handle isValidUrl s e now))
                         = initialQuerySuggestions (app s)
                         /\ pending (handle isValidUrl s e now) = pending s)
         end;
         [ unfold handle, KBM.handleAddUrl, KBM.handleAddNewGroup,
             KBM.handleConfirmRename, handleAddFile, handleSetTextContext,
             handleRemoveGroup, handleRenameGroup;
           repeat match goal with
                  | |- context [if ?b then _ else _] => destruct b
                  | |- context [match ?x with _ => _ end] => destruct x
                  end; split; reflexivity
         | destruct H as [H1 H2]; unfold suggestionsBounded;
           rewrite H1, H2; split; assumption ]).
  - (* SendMessage *)
    unfold handle. destruct (_ && _); [|now split].
    destruct (exec_send_bounded (app s) query now Ha) as [H1 H2].
    destruct (exec (handleSendMessage (app s) query now) (app s)) as [a' new].
    split; [exact H1|]. cbn [pending]. apply Forall_app_2; assumption.
  - (* RunSuggestionsEffect *)
    unfold handle.
    destruct (exec_suggestions_bounded (app s) (app s) now) as [H1 H2].
    destruct (exec (suggestionsEffect (app s) now) (app s)) as [a' new].
    split; [exact H1|]. cbn [pending]. apply Forall_app_2; assumption.
  - (* Resolve *)
    unfold handle. destruct (pending s !! i) as [p|] eqn:Ei; [|now split].
    pose proof (proj1 (Forall_lookup _ _) Hg i p Ei) as Hgp.
    pose proof (proj1 (Forall_lookup _ _) Hp i p Ei) as Hbp.
    destruct (Hgp o now (app s)) as (a' & Hexec & _).
    specialize (Hbp o now (app s) Ha). rewrite Hexec in Hbp |- *.
    split; [exact Hbp|]. cbn [pending]. rewrite app_nil_r.
    now apply Forall_delete.
Qed.

Lemma step_suggestions (s : Sys) (ev : Event) (now : N) :
  Forall goodPending (pending s) ->
  Forall boundedPending (pending s) -> suggestionsBounded (app s) ->
  suggestionsBounded (app (step isValidUrl s ev now))
  /\ Forall boundedPending (pending (step isValidUrl s ev now)).
Proof.
  intros Hg Hp Ha.
  destruct (handle_suggestions s ev now Hg Hp Ha) as [H1 H2].
  unfold step. cbn [app pending]. split; [|exact H2].
  unfold suggestionsBounded, flush. now rewrite !commit_suggestions.
Qed.

Lemma steps_suggestions (evs : list (Event * N)) (s : Sys) :
  Forall goodPending (pending s) ->
  Forall boundedPending (pending s) -> suggestionsBounded (app s) ->
  suggestionsBounded (app (steps isValidUrl s evs)).
Proof.
  revert s. induction evs as [|[ev now] evs IH]; intros s Hg Hp Ha;
    [exact Ha|].
  simpl. destruct (step_suggestions s ev now Hg Hp Ha) as [H1 H2].
  apply IH; [now apply step_goodPending | exact H2 | exact H1].
Qed.
End Bounded.

(** X14.  No more than four suggestions are ever on offer: in every
    run from a state without pending calls that shows at most four, the
    application shows at most four, however many the model returns and
    in whatever order the calls settle. *)
Theorem suggestions_at_most_four (isValidUrl : string -> bool) (s : Sys)
    (evs : list (Event * N)) :
  pending s = [] -> suggestionsBounded (app s) ->
  List.length (initialQuerySuggestions (app (steps isValidUrl s evs))) <= 4.
Proof.
  intros Hp Ha.
  apply (steps_suggestions isValidUrl evs s); [| |exact Ha];
    rewrite Hp; constructor.
Qed.

Lemma suggestions_at_most_four_witness :
  let s := sampleSys [smallGroup] "group-2" chat in
  let answer :=
    textResponse
      (Some (JsonPrint.stringify
               (Json.JObj
                  [("suggestions",
                    Json.JArr
                      [Json.JStr "a"; Json.JStr "b"; Json.JStr "c";
                       Json.JStr "d"; Json.JStr "e"])]))) in
  List.length
    (initialQuerySuggestions
       (app (steps sampleIsValidUrl s
               [(RunSuggestionsEffect, 1%N);
                (Resolve 0 (Resolved answer), 2%N)]))) <= 4.
Proof.
  intros s answer.
  apply (suggestions_at_most_four sampleIsValidUrl s); [reflexivity|].
  unfold suggestionsBounded. cbn. lia.
Defined.

(** X15.  A fetch of suggestions.  In chat mode, with a URL in the
    active group or a file context with text, the suggestions effect
    turns the fetching flag on, clears the suggestions and issues one
    request, for the URLs of the active group and the text of the file.
    When the call resolves, the transcript is untouched and the
    suggestions are the first four strings of the array that the answer
    holds under 'suggestions', none when the answer has no text or its
    text is no JSON; this for every answer whose text, once trimmed and
    without its fence, holds no escape for a code unit from 256 on where
    the reader of JSON comes to it.  When the call is rejected, the
    suggestions stay empty and a message of the system, 'Error: ' and
    the message of the gateway, goes to the end of the transcript.
    Either way the fetching flag is off again. *)
Theorem suggestions_fetch (isValidUrl : string -> bool) (s : Sys)
    (now1 now2 : N) (out : Outcome) :
  mode (app s) = chat -> pending s = [] ->
  currentUrlsForChat (app s) <> []
  \/ fileContentOf (fileContext (app s)) <> None ->
  let s1 := step isValidUrl s RunSuggestionsEffect now1 in
  let s2 := step isValidUrl s1 (Resolve 0 out) now2 in
  isFetchingSuggestions (app s1) = true
  /\ initialQuerySuggestions (app s1) = []
  /\ chatMessages (app s1) = chatMessages (app s)
  /\ List.map request (pending s1)
     = [Gemini.suggestionsRequest (currentUrlsForChat (app s))
          (fileContentOf (fileContext (app s)))]
  /\ isFetchingSuggestions (app s2) = false /\ pending s2 = []
  /\ match out with
     | Resolved r =>
         (Json.beyond Json.LDefault
            (stripJsonFence (trim (default "" (Response.text r)))) = false ->
          initialQuerySuggestions (app s2)
          = firstn 4 (parseSuggestions (default "" (Response.text r))))
         /\ chatMessages (app s2) = chatMessages (app s)
     | Rejected e =>
         initialQuerySuggestions (app s2) = []
         /\ exists msg,
              Gemini.suggestionsCatch e = Throw (Error msg)
              /\ chatMessages (app s2)
                 = (chatMessages (app s)
                      ++ [ChatMessage.mk
                            ("sys-err-suggestion-fetch-" +:+ pretty now2)
                            ("Error: " +:+ msg) SYSTEM now2 None None])%list
     end.
Proof.
  intros Hm Hp Hctx s1 s2.
  destruct (exec_fetch (app s) (app s) now1 Hm Hctx)
    as (p & Hexec & Ho & Hreq & Hres).
  assert (Hs1 : s1 = mkSys (setInitialQuerySuggestions []
                              (setIsFetchingSuggestions true (app s)))
                       (kbm s) [p]).
  { subst s1. unfold step.
    assert (Hh : handle isValidUrl s RunSuggestionsEffect now1
                 = mkSys (setInitialQuerySuggestions []
                            (setIsFetchingSuggestions true (app s)))
                     (kbm s) [p]).
    { unfold handle. rewrite Hexec, Hp. reflexivity. }
    rewrite Hh. cbn [app kbm pending].
    rewrite flush_sameContext; [reflexivity | repeat split]. }
  destruct (Hres out now2 (app s1)) as (a' & Hexec2 & Ha').
  assert (Hc : sameContext (app s1) (setIsFetchingSuggestions false a')).
  { destruct out as [r|e]; [subst a'; repeat split|].
    destruct Ha' as (msg & _ & ->). repeat split. }
  assert (Hs2 : s2 = mkSys (setIsFetchingSuggestions false a') (kbm s1) []).
  { subst s2. apply (step_resolve isValidUrl s1 p [] out now2);
      [now rewrite Hs1 | exact Hexec2 | exact Hc]. }
  rewrite Hs2. cbn [app pending]. rewrite Hs1 in Ha' |- *. cbn [app pending] in *.
  split; [reflexivity|]. split; [reflexivity|]. split; [reflexivity|].
  split; [cbn; now rewrite Hreq|].
  split; [reflexivity|]. split; [reflexivity|].
  destruct out as [r|e].
  - subst a'. split; [intros _|]; reflexivity.
  - destruct Ha' as (msg & Hmsg & ->). split; [reflexivity|].
    exists msg. split; [exact Hmsg | reflexivity].
Qed.

Lemma suggestions_fetch_witness :
  let s := sampleSys [smallGroup] "group-2" chat in
  let answer :=
    textResponse
      (Some ("```json" +:+ lf +:+ "{" +:+ q "suggestions" +:+ ": ["
             +:+ q "What is new?" +:+ ", 7, " +:+ q "How do I start?"
             +:+ "]}" +:+ lf +:+ "```")) in
  initialQuerySuggestions
    (app (step sampleIsValidUrl (step sampleIsValidUrl s RunSuggestionsEffect 1)
            (Resolve 0 (Resolved answer)) 2))
  = ["What is new?"; "How do I start?"].
Proof.
  intros s answer.
  assert (Hne : currentUrlsForChat (app s) <> []) by discriminate.
  pose proof (suggestions_fetch sampleIsValidUrl s 1 2 (Resolved answer)
                eq_refl eq_refl (or_introl Hne)) as H.
  cbv zeta in H. destruct H as (_ & _ & _ & _ & _ & _ & Hsug & _).
  rewrite Hsug; vm_compute; reflexivity.
Defined.

(** X16.  The suggestions effect without a call.  Outside chat mode,
    or with no URL in the active group and no file context, it clears
    the suggestions and nothing else.  With a file context whose text is
    empty and no URL the fetch starts, but the gateway answers by itself:
    no call is issued, and the one suggestion on offer is its canned
    sentence 'Add some URLs or a file to get topic suggestions.' *)
Theorem suggestions_without_call (isValidUrl : string -> bool) (s : Sys)
    (now : N) :
  let s' := step isValidUrl s RunSuggestionsEffect now in
  (mode (app s) <> chat
   \/ (currentUrlsForChat (app s) = [] /\ fileContext (app s) = None) ->
   s' = mkSys (setInitialQuerySuggestions [] (app s)) (kbm s) (pending s))
  /\ (mode (app s) = chat -> currentUrlsForChat (app s) = [] ->
      (exists fc, fileContext (app s) = Some fc
                  /\ FileContext.content fc = "") ->
      pending s' = pending s
      /\ initialQuerySuggestions (app s')
         = ["Add some URLs or a file to get topic suggestions."]
      /\ isFetchingSuggestions (app s') = false
      /\ chatMessages (app s') = chatMessages (app s)).
Proof.
  intros s'. subst s'. unfold step. split.
  - intros H.
    assert (Hh : handle isValidUrl s RunSuggestionsEffect now
                 = mkSys (setInitialQuerySuggestions [] (app s)) (kbm s)
                     (pending s)).
    { unfold handle. rewrite (proj1 (exec_no_fetch (app s) (app s) now) H).
      now rewrite app_nil_r. }
    rewrite Hh. cbn [app kbm pending].
    rewrite flush_sameContext; [reflexivity | repeat split].
  - intros Hm Hu Hf.
    assert (Hh : handle isValidUrl s RunSuggestionsEffect now
                 = mkSys
                     (setIsFetchingSuggestions false
                        (setInitialQuerySuggestions
                           ["Add some URLs or a file to get topic suggestions."]
                           (setInitialQuerySuggestions []
                              (setIsFetchingSuggestions true (app s)))))
                     (kbm s) (pending s)).
    { unfold handle.
      rewrite (proj2 (exec_no_fetch (app s) (app s) now) Hm Hu Hf).
      now rewrite app_nil_r. }
    rewrite Hh. cbn [app kbm pending].
    rewrite flush_sameContext; [repeat split | repeat split].
Qed.

Lemma suggestions_without_call_witness :
  let a := setFileContext (Some (FileContext.mk "empty.txt" ""))
             (sampleApp [emptyGroup] "group-3" chat) in
  let s' := step sampleIsValidUrl (mkSys a KBM.initial [])
              RunSuggestionsEffect 7 in
  pending s' = []
  /\ initialQuerySuggestions (app s')
     = ["Add some URLs or a file to get topic suggestions."].
Proof.
  intros a s'.
  destruct (proj2 (suggestions_without_call sampleIsValidUrl
                     (mkSys a KBM.initial []) 7) eq_refl eq_refl
              (ex_intro _ (FileContext.mk "empty.txt" "") (conj eq_refl eq_refl)))
    as (Hp & Hs & _).
  split; [exact Hp | exact Hs].
Defined.

(** ** Groups *)

Lemma trim_idem (x : string) : trim (trim x) = trim x.
Proof.
  destruct (trim_spec x) as (l & r & _ & _ & _ & Hs & He).
  now apply trim_id.
Qed.

Lemma trim_nonblank (x : string) :
  all_chars is_js_space x = false -> truthy (trim x) = true.
Proof. intros H. unfold truthy. now rewrite trim_is_empty, H. Qed.

Lemma existsb_hasId_app (i : string) (gs : list URLGroup.t) (g : URLGroup.t) :
  URLGroup.id g = i -> existsb (hasId i) (gs ++ [g]) = true.
Proof.
  intros <-. rewrite existsb_app. cbn. unfold hasId.
  rewrite String.eqb_refl. apply orb_true_iff. right. reflexivity.
Qed.

(** X17.  Adding and renaming a group, in chat mode.  A blank name does
    nothing.  Otherwise the new group, named by the input without the
    white space around it and holding no URL, goes to the end of the
    groups and becomes the active one; renaming gives the trimmed input
    as name to the active group and leaves its URLs, its identifier, the
    other groups and the choice of the active group as they were. *)
Theorem group_add_rename (isValidUrl : string -> bool) (s : Sys)
    (name : string) (now : N) :
  inChat (app s) -> activeExists (app s) ->
  let added := step isValidUrl s (AddGroup name) now in
  let renamed := step isValidUrl s (RenameGroup name) now in
  if all_chars is_js_space name then added = s /\ renamed = s
  else
    urlGroups (app added)
    = (urlGroups (app s) ++ [URLGroup.mk (newGroupId now) (trim name) []])%list
    /\ activeUrlGroupId (app added) = newGroupId now
    /\ activeUrlGroupId (app renamed) = activeUrlGroupId (app s)
    /\ List.map URLGroup.id (urlGroups (app renamed))
       = List.map URLGroup.id (urlGroups (app s))
    /\ List.map URLGroup.urls (urlGroups (app renamed))
       = List.map URLGroup.urls (urlGroups (app s))
    /\ (forall g, In g (urlGroups (app s)) ->
                  URLGroup.id g <> activeUrlGroupId (app s) ->
                  In g (urlGroups (app renamed)))
    /\ (forall g, activeGroup (app s) = Some g ->
                  activeGroup (app renamed)
                  = Some (URLGroup.mk (URLGroup.id g) (trim name)
                            (URLGroup.urls g))).
Proof.
  intros [Hlog Hmode] Ha added renamed. subst added renamed.
  assert (Hin : isLoggedIn (app s) && bool_decide (mode (app s) = chat) = true).
  { rewrite Hlog, Hmode. reflexivity. }
  destruct (activeExists_group (app s) Ha) as (g0 & Hg0 & Hid0).
  destruct (all_chars is_js_space name) eqn:Hn.
  - (* blank *)
    assert (Ht : truthy (trim name) = false).
    { unfold truthy. now rewrite trim_is_empty, Hn. }
    assert (H1 : handle isValidUrl s (AddGroup name) now = s).
    { unfold handle, KBM.handleAddNewGroup. rewrite Hin, Ht. reflexivity. }
    assert (H2 : handle isValidUrl s (RenameGroup name) now = s).
    { unfold handle, KBM.handleConfirmRename. rewrite Hin, Hg0, Ht.
      reflexivity. }
    unfold step. rewrite H1, H2, flush_same. now destruct s.
  - pose proof (trim_nonblank name Hn) as Ht.
    assert (H1 : handle isValidUrl s (AddGroup name) now
                 = mkSys (handleAddGroup (trim name) now (app s)) (kbm s)
                     (pending s)).
    { unfold handle, KBM.handleAddNewGroup. rewrite Hin, Ht. reflexivity. }
    assert (H2 : handle isValidUrl s (RenameGroup name) now
                 = mkSys (handleRenameGroup (URLGroup.id g0) (trim name) (app s))
                     (kbm s) (pending s)).
    { unfold handle, KBM.handleConfirmRename. rewrite Hin, Hg0, Ht.
      reflexivity. }
    unfold step. rewrite H1, H2. cbn [app].
    assert (Ha1 : activeExists (handleAddGroup (trim name) now (app s))).
    { unfold activeExists, handleAddGroup. cbn.
      now apply existsb_hasId_app. }
    destruct (flush_settled (app s) (handleAddGroup (trim name) now (app s))
                now Ha1) as [-> ->].
    split; [reflexivity|]. split; [reflexivity|].
    set (f := fun g : URLGroup.t =>
                if hasId (URLGroup.id g0) g
                then URLGroup.mk (URLGroup.id g) (trim name) (URLGroup.urls g)
                else g).
    assert (Hr : handleRenameGroup (URLGroup.id g0) (trim name) (app s)
                 = setUrlGroups (List.map f (urlGroups (app s))) (app s)).
    { unfold handleRenameGroup.
      rewrite trim_idem, Ht. reflexivity. }
    rewrite Hr.
    assert (Hf : forall g, URLGroup.id (f g) = URLGroup.id g).
    { intros g. unfold f. now destruct (hasId _ g). }
    assert (Ha2 : activeExists
                    (setUrlGroups (List.map f (urlGroups (app s))) (app s))).
    { unfold activeExists. cbn. now rewrite existsb_hasId_map. }
    destruct (flush_settled (app s)
                (setUrlGroups (List.map f (urlGroups (app s))) (app s))
                now Ha2) as [Eg Ea].
    split; [now rewrite Ea|].
    split; [rewrite Eg; cbn; rewrite List.map_map; now apply List.map_ext|].
    split.
    { rewrite Eg. cbn. rewrite List.map_map. apply List.map_ext.
      intros g. unfold f. now destruct (hasId _ g). }
    split.
    { intros g Hg Hne. rewrite Eg. cbn. apply List.in_map_iff. exists g.
      split; [|exact Hg]. unfold f, hasId. rewrite Hid0.
      destruct (String.eqb_spec (URLGroup.id g) (activeUrlGroupId (app s)));
        [contradiction | reflexivity]. }
    intros g Hg. unfold activeGroup. rewrite Eg, Ea.
    cbn [urlGroups setUrlGroups activeUrlGroupId].
    rewrite findGroup_map by exact Hf.
    unfold activeGroup in Hg, Hg0. rewrite Hg in Hg0 |- *.
    injection Hg0 as <-. cbn [fmap option_fmap option_map]. unfold f, hasId.
    now rewrite String.eqb_refl.
Qed.

Lemma group_add_rename_witness :
  let s := sampleSys [smallGroup] "group-2" chat in
  urlGroups (app (step sampleIsValidUrl s (AddGroup "  Guides ") 7))
  = [smallGroup; URLGroup.mk "group-7" "Guides" []]
  /\ activeGroup (app (step sampleIsValidUrl s (RenameGroup " Docs ") 7))
     = Some (URLGroup.mk "group-2" "Docs" [sampleUrl 0]).
Proof.
  intros s. split.
  - pose proof (group_add_rename sampleIsValidUrl s "  Guides " 7
                  (conj eq_refl eq_refl) eq_refl) as H.
    cbv zeta in H. exact (proj1 H).
  - pose proof (group_add_rename sampleIsValidUrl s " Docs " 7
                  (conj eq_refl eq_refl) eq_refl) as H.
    cbv zeta in H.
    exact (proj2 (proj2 (proj2 (proj2 (proj2 (proj2 H))))) smallGroup eq_refl).
Defined.

(** ** Logging out *)

Lemma commit_nodeps (prev cur : AppState) (now : N) :
  groupsDepsChanged prev cur = false -> welcomeDepsChanged prev cur = false ->
  commit prev cur now = cur.
Proof. intros H1 H2. unfold commit. now rewrite H1, H2. Qed.

Lemma flush_setIsLoggedIn (a : AppState) (v : bool) (now : N) :
  flush a (setIsLoggedIn v a) now = setIsLoggedIn v a.
Proof.
  assert (Hg : forall x y,
            urlGroupsRef x = urlGroupsRef y ->
            activeUrlGroupId x = activeUrlGroupId y ->
            fileContextRef x = fileContextRef y -> mode x = mode y ->
            commit x y now = y).
  { intros x y H1 H2 H3 H4. apply commit_nodeps.
    - now apply groupsDepsChanged_false.
    - apply welcomeDepsChanged_false.
      split; [now apply groupsDepsChanged_false | now split]. }
  unfold flush. rewrite (Hg a (setIsLoggedIn v a)) by reflexivity.
  now apply Hg.
Qed.

(** X18.  Logging out keeps what the application holds in memory.
    After a logout the groups, the file context, the transcript and the
    pending calls are what they were, and no event of the panels or of
    the header does anything until the next login; after that login the
    application state is the one from before the logout, the
    conversation of the user who logged out included. *)
Theorem logout_keeps_state (isValidUrl : string -> bool) (s : Sys)
    (now1 now2 : N) :
  isLoggedIn (app s) = true ->
  let s1 := step isValidUrl s Logout now1 in
  let s2 := step isValidUrl s1 Login now2 in
  app s1 = setIsLoggedIn false (app s)
  /\ chatMessages (app s1) = chatMessages (app s)
  /\ pending s1 = pending s
  /\ (forall ev now,
        match ev with
        | Login | RunSuggestionsEffect | Resolve _ _ => True
        | _ => step isValidUrl s1 ev now = s1
        end)
  /\ app s2 = app s /\ pending s2 = pending s.
Proof.
  intros Hlog s1 s2.
  assert (Hs1 : s1 = mkSys (setIsLoggedIn false (app s)) KBM.initial (pending s)).
  { subst s1. unfold step.
    assert (Hh : handle isValidUrl s Logout now1
                 = mkSys (setIsLoggedIn false (app s)) KBM.initial (pending s)).
    { unfold handle. now rewrite Hlog. }
    rewrite Hh. cbn [app kbm pending]. now rewrite flush_setIsLoggedIn. }
  assert (Hs2 : s2 = mkSys (setIsLoggedIn true (setIsLoggedIn false (app s)))
                       KBM.initial (pending s)).
  { subst s2. rewrite Hs1. unfold step.
    assert (Hh : handle isValidUrl
                   (mkSys (setIsLoggedIn false (app s)) KBM.initial (pending s))
                   Login now2
                 = mkSys (setIsLoggedIn true (setIsLoggedIn false (app s)))
                     KBM.initial (pending s)) by reflexivity.
    rewrite Hh. cbn [app kbm pending]. now rewrite flush_setIsLoggedIn. }
  rewrite Hs2, Hs1. cbn [app pending].
  split; [reflexivity|]. split; [reflexivity|]. split; [reflexivity|].
  split.
  - intros ev now.
    destruct ev; try exact I;
      match goal with
      | |- step _ ?t ?e _ = _ =>
          assert (Hh : handle isValidUrl t e now = t) by reflexivity;
          unfold step; rewrite Hh; cbn [app kbm pending];
          now rewrite flush_same
      end.
  - split; [|reflexivity].
    destruct (app s). cbn in Hlog |- *. now rewrite Hlog.
Qed.

Lemma logout_keeps_state_witness :
  let a := setChatMessages [userMessage "My question" 1]
             (sampleApp [smallGroup] "group-2" chat) in
  let s := mkSys a KBM.initial [] in
  chatMessages
    (app (step sampleIsValidUrl (step sampleIsValidUrl s Logout 2) Login 3))
  = [userMessage "My question" 1].
Proof.
  intros a s.
  pose proof (logout_keeps_state sampleIsValidUrl s 2 3 eq_refl) as H.
  cbv zeta in H. destruct H as (_ & _ & _ & _ & H & _).
  now rewrite H.
Defined.

(* ===================================================================== *)
(** * Credentials: the login form and the stored session *)
(* ===================================================================== *)

Lemma nonblank_nonempty (x : string) :
  truthy (trim x) = true -> truthy x = true.
Proof.
  rewrite truthy_trim. destruct x; [discriminate | reflexivity].
Qed.

Lemma checkLoginStatus_logout (store : Credentials.Storage) :
  Credentials.checkLoginStatus (Credentials.logoutStorage store) = None.
Proof.
  unfold Credentials.checkLoginStatus, Credentials.logoutStorage.
  unfold Credentials.Storage in *.
  rewrite lookup_delete_ne by discriminate.
  rewrite lookup_delete_ne by discriminate.
  now rewrite lookup_delete_eq.
Qed.

(** X19.  Logging in and coming back.  A form that passes validation
    (key and e-mail address not blank, an at-sign in the address) probes
    the key as it was typed.  When the probe answers with success, the
    three entries are stored and [onLogin] gets key and address; from
    that storage [checkLoginStatus] restores the session with the same
    address and key, and after [handleLogout] has cleared the storage it
    restores nothing.  When the probe fails, in either way, the storage
    is left as it was, an earlier session in it included, [onLogin] is
    not called and the form shows the invalid-key error. *)
Theorem login_round_trip (st st1 : Credentials.LoginState)
    (store : Credentials.Storage) (url : string) :
  Credentials.handleSubmitStart st = (st1, Some url) ->
  url = Credentials.probeUrl (Credentials.apiKey st)
  /\ includes "@" (Credentials.email st) = true
  /\ Credentials.isLoading st1 = true
  /\ (let '(st2, store2, creds) :=
        Credentials.handleSubmitDone st1 store (Credentials.FetchResolved true) in
      creds = Some (Credentials.apiKey st, Credentials.email st)
      /\ Credentials.isLoading st2 = false
      /\ Credentials.checkLoginStatus store2
         = Some (Credentials.email st, Credentials.apiKey st)
      /\ Credentials.checkLoginStatus (Credentials.logoutStorage store2) = None)
  /\ (forall o, o <> Credentials.FetchResolved true ->
        Credentials.handleSubmitDone st1 store o
        = (Credentials.mkLogin (Credentials.apiKey st) (Credentials.email st)
             false "Invalid API key. Please check your key and try again.",
           store, None)).
Proof.
  unfold Credentials.handleSubmitStart.
  destruct (truthy (trim (Credentials.apiKey st))) eqn:Hk; [|discriminate].
  destruct (truthy (trim (Credentials.email st))) eqn:He; [|discriminate].
  destruct (includes "@" (Credentials.email st)) eqn:Hat; [|discriminate].
  cbn [negb orb]. intros H. injection H as <- <-.
  apply nonblank_nonempty in Hk, He.
  split; [reflexivity|]. split; [reflexivity|]. split; [reflexivity|].
  split.
  - cbn [Credentials.handleSubmitDone Credentials.apiKey Credentials.email
         Credentials.isLoading].
    split; [reflexivity|]. split; [reflexivity|].
    split; [|apply checkLoginStatus_logout].
    unfold Credentials.checkLoginStatus. unfold Credentials.Storage in *.
    rewrite lookup_insert_eq.
    rewrite lookup_insert_ne by discriminate.
    rewrite lookup_insert_ne by discriminate.
    rewrite lookup_insert_eq.
    rewrite lookup_insert_ne by discriminate.
    rewrite lookup_insert_eq.
    now rewrite Hk, He.
  - intros o Ho. destruct o as [[|]|]; [contradiction | reflexivity..].
Qed.

Lemma login_round_trip_witness :
  let st := Credentials.mkLogin "AIza-key" "ada@example.org" false "" in
  let '(_, store2, _) :=
    Credentials.handleSubmitDone (Credentials.mkLogin "AIza-key" "ada@example.org" true "")
      (∅ : Credentials.Storage) (Credentials.FetchResolved true) in
  Credentials.checkLoginStatus store2 = Some ("ada@example.org", "AIza-key").
Proof.
  intros st.
  pose proof (login_round_trip st _ ∅ _ eq_refl) as (_ & _ & _ & H & _).
  exact (proj1 (proj2 (proj2 H))).
Defined.

(* ===================================================================== *)
(** * The image editor and the book generator *)
(* ===================================================================== *)

Lemma split_lacks (sep : ascii) (s : string) :
  lacks sep s = true -> Studio.split sep s = [s].
Proof.
  induction s as [|c s IH]; [reflexivity|].
  unfold lacks. cbn [all_chars]. intros H. apply andb_prop in H as [Hc Hs].
  apply negb_true_iff in Hc. cbn [Studio.split]. rewrite Hc.
  now rewrite (IH Hs).
Qed.

Lemma split_at (sep : ascii) (h p : string) :
  lacks sep h = true ->
  Studio.split sep (h +:+ String sep p) = h :: Studio.split sep p.
Proof.
  induction h as [|c h IH].
  - intros _. rewrite app_nil. cbn [Studio.split].
    now rewrite Ascii.eqb_refl.
  - unfold lacks. cbn [all_chars]. intros H. apply andb_prop in H as [Hc Hs].
    apply negb_true_iff in Hc. rewrite app_cons. cbn [Studio.split].
    rewrite Hc. now rewrite (IH Hs).
Qed.

(** What [editImage] throws is an [Error] with a message. *)
Lemma editImage_error (srv : Service) (prompt data mime : string) (e : Thrown) :
  result srv (Gemini.editImage prompt data mime) = inr e ->
  exists msg, e = Error msg /\ msg <> "".
Proof.
  unfold result, Gemini.editImage. rewrite run_call_catch.
  destruct (srv 0 (Gemini.editRequest prompt data mime)) as [response|[ge|]].
  - cbv zeta. rewrite fold_editStep.
    destruct (negb (truthy _)); cbn; intros H; [|discriminate].
    injection H as <-. eexists. split; [reflexivity | discriminate].
  - cbn. intros H. injection H as <-. eexists. split; [reflexivity | discriminate].
  - cbn. intros H. injection H as <-. eexists. split; [reflexivity | discriminate].
Qed.

(** X20.  Editing an image.  With a prompt that is not blank and a
    source image, [handleGenerate] turns the loading flag on, clears the
    result and the error, and calls [editImage] with the prompt as it
    was typed, the type of the file, and what follows the comma of the
    data URL.  When the call has settled the flag is off and exactly one
    of result and error is set: the image, text and type that
    [editImage] returned, or the message of what it threw, which is
    never empty, so that 'An unexpected error occurred.' is never
    shown. *)
Theorem imageEditor_edit (srv : Service) (st : Studio.ImageEditorState)
    (mime header payload : string) :
  all_chars is_js_space (Studio.prompt st) = false ->
  Studio.sourceImage st
  = Some (Studio.SourceImage.mk mime (header +:+ "," +:+ payload)) ->
  lacks "," header = true -> lacks "," payload = true ->
  let '(st1, call) := Studio.handleGenerateStart st in
  call = Some (Studio.CallEdit (Studio.prompt st) (Some payload) mime)
  /\ Studio.isLoading st1 = true
  /\ Studio.result st1 = None /\ Studio.error st1 = None
  /\ let r := result srv (Gemini.editImage (Studio.prompt st) payload mime) in
     let st2 := Studio.handleGenerateEdited st1 r in
     Studio.isLoading st2 = false
     /\ match r with
        | inl res =>
            Studio.result st2
            = Some (Studio.ImageResult.mk (Gemini.EditResult.base64Image res)
                      (Gemini.EditResult.text res)
                      (Gemini.EditResult.mimeType res))
            /\ Studio.error st2 = None
        | inr e =>
            Studio.result st2 = None
            /\ exists msg,
                 e = Error msg /\ msg <> "" /\ Studio.error st2 = Some msg
        end.
Proof.
  intros Hp Hsrc Hh Hpay. unfold Studio.handleGenerateStart.
  rewrite truthy_trim, Hp, Hsrc. cbn [negb Studio.SourceImage.dataUrl
    Studio.SourceImage.fileType Studio.isLoading Studio.result Studio.error].
  change (header +:+ "," +:+ payload) with (header +:+ String "," payload).
  rewrite (split_at "," header payload Hh), (split_lacks "," payload Hpay).
  split; [reflexivity|]. split; [reflexivity|]. split; [reflexivity|].
  split; [reflexivity|].
  destruct (result srv (Gemini.editImage (Studio.prompt st) payload mime))
    as [res|e] eqn:Er.
  - cbn. repeat split.
  - destruct (editImage_error srv _ _ _ e Er) as (msg & -> & Hne).
    cbn. split; [reflexivity|]. split; [reflexivity|].
    exists msg. split; [reflexivity|]. split; [exact Hne|].
    unfold truthy. now destruct msg.
Qed.

Lemma imageEditor_edit_witness :
  let st := Studio.mkImageEditor "Add a hat"
              (Some (Studio.SourceImage.mk "image/png"
                       "data:image/png;base64,iVBORw0KGgo="))
              None false None in
  snd (Studio.handleGenerateStart st)
  = Some (Studio.CallEdit "Add a hat" (Some "iVBORw0KGgo=") "image/png").
Proof.
  intros st.
  pose proof (imageEditor_edit (fun _ _ => Rejected NotError) st "image/png"
                "data:image/png;base64" "iVBORw0KGgo=" eq_refl eq_refl
                eq_refl eq_refl) as H.
  destruct (Studio.handleGenerateStart st) as [st1 call].
  exact (proj1 H).
Defined.

(** X21.  Generating an image.  Without a source image the prompt goes
    to [generateImage], which asks for one square JPEG.  The first image
    of the answer is shown, with the prompt of the call quoted in its
    caption; an answer with an image that carries no bytes still counts
    as a result, with an empty image.  An answer without images and a
    rejection are shown as errors that begin with 'Image generation
    failed: ', but for a rejection with a value that is no [Error]. *)
Theorem imageEditor_generate (st : Studio.ImageEditorState)
    (o : ImageGen.ImagesOutcome) :
  all_chars is_js_space (Studio.prompt st) = false ->
  Studio.sourceImage st = None ->
  let '(st1, call) := Studio.handleGenerateStart st in
  let '(request, settle) := ImageGen.generateImage (Studio.prompt st) in
  let st2 := Studio.handleGenerateGenerated (Studio.prompt st) st1 (settle o) in
  call = Some (Studio.CallGenerate (Studio.prompt st))
  /\ ImageGen.prompt request = Studio.prompt st
  /\ ImageGen.numberOfImages request = 1
  /\ Studio.isLoading st2 = false
  /\ match o with
     | ImageGen.ImagesResolved response =>
         match ImageGen.generatedImages response with
         | Some (g :: _) =>
             Studio.result st2
             = Some (Studio.ImageResult.mk
                       (default "" (ImageGen.imageBytes g))
                       ("Generated image for: " +:+ q (Studio.prompt st))
                       "image/jpeg")
             /\ Studio.error st2 = None
         | _ =>
             Studio.result st2 = None
             /\ Studio.error st2
                = Some "Image generation failed: The model did not return an image."
         end
     | ImageGen.ImagesRejected (IsError e) =>
         Studio.result st2 = None
         /\ Studio.error st2 = Some ("Image generation failed: " +:+ message e)
     | ImageGen.ImagesRejected NotError =>
         Studio.result st2 = None
         /\ Studio.error st2
            = Some "An unknown error occurred during image generation."
     end.
Proof.
  intros Hp Hsrc. unfold Studio.handleGenerateStart, ImageGen.generateImage.
  rewrite truthy_trim, Hp, Hsrc. cbn [negb].
  split; [reflexivity|]. split; [reflexivity|]. split; [reflexivity|].
  split; [now destruct (ImageGen.generateImageThen o)|].
  destruct o as [[[[|g gs]|]]|[e|]]; cbn; try (split; reflexivity).
  split; [|reflexivity]. do 2 f_equal.
  now destruct (ImageGen.imageBytes g) as [[|c b]|].
Qed.

Lemma imageEditor_generate_witness :
  let st := Studio.mkImageEditor "A red fox" None None false None in
  let st2 :=
    Studio.handleGenerateGenerated "A red fox"
      (fst (Studio.handleGenerateStart st))
      (snd (ImageGen.generateImage "A red fox")
         (ImageGen.ImagesResolved (ImageGen.mkImagesResponse
                            (Some [ImageGen.mkGeneratedImage None])))) in
  Studio.result st2
  = Some (Studio.ImageResult.mk "" ("Generated image for: " +:+ q "A red fox")
            "image/jpeg").
Proof.
  intros st st2.
  pose proof (imageEditor_generate st
                (ImageGen.ImagesResolved (ImageGen.mkImagesResponse
                                   (Some [ImageGen.mkGeneratedImage None])))
                eq_refl eq_refl) as H.
  exact (proj1 (proj2 (proj2 (proj2 (proj2 H))))).
Defined.

(** X22.  Generating a book from the form.  A topic that is not blank
    goes to [generateBook] as it was typed; the book shown before and
    the error are cleared.  When the operation has settled the flag is
    off, and either the book is shown from its first chapter, or no book
    and an error: the message of what was thrown, or 'Failed to generate
    the book.' when that has no message.  So a rejected outline call
    shows the message of the rejection itself, and an answer whose text
    is no JSON (a syntax error met before any escape for a code unit
    from 256 on) shows 'Could not generate a valid book outline.' *)
Theorem bookGenerator_outcome (srv : Service) (st : Studio.BookGeneratorState) :
  all_chars is_js_space (Studio.topic st) = false ->
  let '(st1, call) := Studio.handleBookStart st in
  let r := result srv (Gemini.generateBook (Studio.topic st)) in
  let st2 := Studio.handleBookDone st1 r in
  call = Some (Studio.topic st)
  /\ Studio.isGenerating st1 = true /\ Studio.book st1 = None
  /\ Studio.isGenerating st2 = false
  /\ match r with
     | inl b =>
         Studio.book st2 = Some b /\ Studio.bookError st2 = None
         /\ Studio.activeIndex st2 = 0
     | inr e =>
         Studio.book st2 = None
         /\ Studio.bookError st2
            = Some (Studio.messageOr e "Failed to generate the book.")
     end
  /\ (forall e,
        srv 0 (Gemini.outlineRequest (Studio.topic st)) = Rejected e ->
        Studio.bookError st2
        = Some (Studio.messageOr e "Failed to generate the book."))
  /\ (forall response,
        srv 0 (Gemini.outlineRequest (Studio.topic st)) = Resolved response ->
        Json.beyond Json.LDefault (Gemini.stripFence (Response.text response))
        = false ->
        Gemini.parseOutline (Response.text response) = None ->
        Studio.bookError st2 = Some "Could not generate a valid book outline.").
Proof.
  intros Ht. unfold Studio.handleBookStart. rewrite truthy_trim, Ht.
  cbn [negb]. cbv zeta.
  split; [reflexivity|]. split; [reflexivity|]. split; [reflexivity|].
  split; [now destruct (result srv _)|].
  split; [now destruct (result srv _)|].
  split.
  - intros e Hs.
    assert (E : result srv (Gemini.generateBook (Studio.topic st)) = inr e).
    { unfold result, Gemini.generateBook. simpl. now rewrite Hs. }
    now rewrite E.
  - intros response Hs _ Hparse.
    assert (E : result srv (Gemini.generateBook (Studio.topic st))
                = inr (Error "Could not generate a valid book outline.")).
    { unfold result, Gemini.generateBook. simpl. rewrite Hs. simpl.
      now rewrite Hparse. }
    now rewrite E.
Qed.

Lemma bookGenerator_outcome_witness :
  let st := Studio.mkBookGenerator "Rocq" None false None 3 in
  let srv : Service := fun _ _ => Rejected (Error "") in
  Studio.bookError
    (Studio.handleBookDone (fst (Studio.handleBookStart st))
       (result srv (Gemini.generateBook "Rocq")))
  = Some "Failed to generate the book.".
Proof.
  intros st srv.
  pose proof (bookGenerator_outcome srv st eq_refl) as H.
  exact (proj1 (proj2 (proj2 (proj2 (proj2 (proj2 H))))) (Error "") eq_refl).
Defined.

(** ** The name of the downloaded file *)

Lemma replaceSpaceRuns_noSpace (inRun : bool) (s : string) :
  noSpace (Studio.replaceSpaceRuns inRun s) = true.
Proof.
  revert inRun. induction s as [|c s IH]; intros inRun; [reflexivity|].
  cbn [Studio.replaceSpaceRuns].
  destruct (is_js_space c) eqn:Ec.
  - destruct inRun; [apply IH|]. unfold noSpace. cbn [all_chars].
    rewrite (IH true : all_chars _ _ = true). reflexivity.
  - unfold noSpace. cbn [all_chars]. rewrite Ec.
    now rewrite (IH false : all_chars _ _ = true).
Qed.

Lemma replaceSpaceRuns_id (inRun : bool) (s : string) :
  noSpace s = true -> Studio.replaceSpaceRuns inRun s = s.
Proof.
  revert inRun. induction s as [|c s IH]; intros inRun; [reflexivity|].
  unfold noSpace. cbn [all_chars]. intros H. apply andb_prop in H as [Hc Hs].
  apply negb_true_iff in Hc. cbn [Studio.replaceSpaceRuns]. rewrite Hc.
  now rewrite (IH false Hs).
Qed.

Lemma replaceSpaceRuns_length (inRun : bool) (s : string) :
  String.length (Studio.replaceSpaceRuns inRun s) <= String.length s.
Proof.
  revert inRun. induction s as [|c s IH]; intros inRun; [reflexivity|].
  cbn [Studio.replaceSpaceRuns].
  destruct (is_js_space c); [destruct inRun|]; cbn [String.length].
  - specialize (IH true). lia.
  - specialize (IH true). lia.
  - specialize (IH false). lia.
Qed.

Lemma replaceSpaceRuns_word (inRun : bool) (w rest : string) :
  noSpace w = true -> is_empty w = false ->
  Studio.replaceSpaceRuns inRun (w +:+ rest)
  = w +:+ Studio.replaceSpaceRuns false rest.
Proof.
  revert inRun. induction w as [|c w IH]; intros inRun Hw Hne; [discriminate|].
  unfold noSpace in Hw. cbn [all_chars] in Hw.
  apply andb_prop in Hw as [Hc Hw]. apply negb_true_iff in Hc.
  rewrite !app_cons. cbn [Studio.replaceSpaceRuns]. rewrite Hc. f_equal.
  destruct w as [|d w']; [now rewrite !app_nil|].
  now apply IH.
Qed.

Lemma replaceSpaceRuns_run (sp rest : string) :
  all_chars is_js_space sp = true ->
  Studio.replaceSpaceRuns true (sp +:+ rest)
  = Studio.replaceSpaceRuns true rest.
Proof.
  induction sp as [|c sp IH]; intros Hsp; [now rewrite app_nil|].
  cbn [all_chars] in Hsp. apply andb_prop in Hsp as [Hc Hsp].
  rewrite app_cons. cbn [Studio.replaceSpaceRuns]. rewrite Hc. now apply IH.
Qed.

Lemma replaceSpaceRuns_gap (sp rest : string) :
  all_chars is_js_space sp = true -> is_empty sp = false ->
  Studio.replaceSpaceRuns false (sp +:+ rest)
  = "_" +:+ Studio.replaceSpaceRuns true rest.
Proof.
  destruct sp as [|c sp]; intros Hsp Hne; [discriminate|].
  cbn [all_chars] in Hsp. apply andb_prop in Hsp as [Hc Hsp].
  rewrite app_cons. cbn [Studio.replaceSpaceRuns]. rewrite Hc.
  now rewrite (replaceSpaceRuns_run sp rest Hsp).
Qed.

Lemma replaceSpaceRuns_gapped (pairs : list (string * string))
    (trail : string) :
  forallb gapWord pairs = true -> all_chars is_js_space trail = true ->
  Studio.replaceSpaceRuns false (gapped pairs +:+ trail)
  = underscored pairs +:+ (if is_empty trail then "" else "_").
Proof.
  intros Hp Ht. induction pairs as [|[g w] pairs IH].
  - cbn [gapped underscored foldr]. rewrite !app_nil.
    destruct trail as [|c trail]; [reflexivity|].
    rewrite <- (app_nil_end (String c trail)).
    rewrite (replaceSpaceRuns_gap (String c trail) "" Ht eq_refl).
    reflexivity.
  - cbn [forallb] in Hp. apply andb_prop in Hp as [Hgw Hp].
    unfold gapWord in Hgw. cbn [fst snd] in Hgw.
    apply andb_prop in Hgw as [Hgw Hwne]. apply andb_prop in Hgw as [Hgw Hw].
    apply andb_prop in Hgw as [Hg Hgne].
    apply negb_true_iff in Hwne, Hgne.
    cbn [gapped underscored foldr fst snd].
    fold (gapped pairs). fold (underscored pairs).
    rewrite !append_assoc.
    rewrite (replaceSpaceRuns_gap g _ Hg Hgne).
    rewrite (replaceSpaceRuns_word true w _ Hw Hwne).
    rewrite (IH Hp). reflexivity.
Qed.

Lemma gapped_decompose (s : string) :
  exists first pairs trail,
    s = first +:+ gapped pairs +:+ trail
    /\ noSpace first = true /\ forallb gapWord pairs = true
    /\ all_chars is_js_space trail = true.
Proof.
  induction s as [|c s (first & pairs & trail & Hs & Hf & Hp & Ht)].
  - exists "", [], "". repeat split.
  - destruct (is_js_space c) eqn:Ec.
    + destruct first as [|d first].
      * destruct pairs as [|[g w] pairs].
        -- exists "", [], (String c trail). subst s.
           repeat split. cbn [all_chars]. now rewrite Ec, Ht.
        -- exists "", ((String c g, w) :: pairs), trail. subst s.
           split; [unfold gapped; cbn [foldr fst snd];
                   repeat first [rewrite app_nil | rewrite app_cons
                                | rewrite append_assoc]; reflexivity|].
           split; [reflexivity|]. split; [|exact Ht].
           cbn [forallb] in Hp |- *. apply andb_prop in Hp as [Hgw Hp].
           rewrite Hp, andb_true_r. unfold gapWord in *.
           cbn [fst snd all_chars is_empty] in *. rewrite Ec. cbn [andb negb].
           apply andb_prop in Hgw as [Hgw Hwne].
           apply andb_prop in Hgw as [Hgw Hw].
           apply andb_prop in Hgw as [Hg _].
           now rewrite Hg, Hw, Hwne.
      * exists "", ((String c "", String d first) :: pairs), trail. subst s.
        split; [unfold gapped; cbn [foldr fst snd];
                repeat first [rewrite app_nil | rewrite app_cons
                             | rewrite append_assoc]; reflexivity|].
        split; [reflexivity|]. split; [|exact Ht].
        cbn [forallb]. rewrite Hp, andb_true_r. unfold gapWord.
        cbn [fst snd all_chars is_empty]. rewrite Ec.
        rewrite Hf. reflexivity.
    + exists (String c first), pairs, trail. subst s.
      split; [reflexivity|]. split; [|now split].
      unfold noSpace. cbn [all_chars]. rewrite Ec. exact Hf.
Qed.

(** X23.  The name of the downloaded book.  It is the title with every
    run of white space, line breaks included, replaced by one
    underscore, and '.html' behind it.  In full: every title is a
    first word (maybe empty), then runs of white space each followed by
    a word, then a last run (maybe empty); for each way to read the
    title so, the name is the first word, then an underscore and the
    word for each run, then an underscore when the last run is not
    empty.  Hence no white space is left
    before the extension, the name is never longer than title and
    extension, and a title without white space is kept as it is.  A
    title that is not a string, which the outline parser does not
    exclude, has no [replace] method: there is no name then. *)
Theorem downloadName_spec (b : Book.t) :
  match Book.title b with
  | Some (Json.JStr title) =>
      exists name,
        Studio.downloadName b = Some (name +:+ ".html")
        /\ (exists first pairs trail,
              title = first +:+ gapped pairs +:+ trail
              /\ noSpace first = true /\ forallb gapWord pairs = true
              /\ all_chars is_js_space trail = true)
        /\ (forall first pairs trail,
              title = first +:+ gapped pairs +:+ trail ->
              noSpace first = true -> forallb gapWord pairs = true ->
              all_chars is_js_space trail = true ->
              name = first +:+ underscored pairs
                     +:+ (if is_empty trail then "" else "_"))
        /\ noSpace name = true
        /\ String.length name <= String.length title
        /\ (noSpace title = true -> name = title)
        /\ Studio.replaceSpaceRuns false name = name
  | _ => Studio.downloadName b = None
  end.
Proof.
  unfold Studio.downloadName.
  destruct (Book.title b) as [[| | |title| |]|]; try reflexivity.
  exists (Studio.replaceSpaceRuns false title).
  split; [reflexivity|].
  split; [apply gapped_decompose|].
  split.
  { intros first pairs trail -> Hf Hp Ht.
    destruct first as [|c first].
    - rewrite !app_nil. now apply replaceSpaceRuns_gapped.
    - rewrite (replaceSpaceRuns_word false (String c first) _ Hf eq_refl).
      now rewrite (replaceSpaceRuns_gapped pairs trail Hp Ht). }
  split; [apply replaceSpaceRuns_noSpace|].
  split; [apply replaceSpaceRuns_length|].
  split; [apply replaceSpaceRuns_id|].
  apply replaceSpaceRuns_id, replaceSpaceRuns_noSpace.
Qed.

Lemma downloadName_spec_witness :
  Studio.downloadName
    (Book.mk (Some (Json.JStr ("My  big" +:+ lf +:+ "book "))) [])
  = Some "My_big_book_.html".
Proof.
  pose proof (downloadName_spec
                (Book.mk (Some (Json.JStr ("My  big" +:+ lf +:+ "book "))) []))
    as H.
  cbn [Book.title] in H. destruct H as (name & Hname & _ & Hshape & _).
  rewrite Hname.
  rewrite (Hshape "My" [("  ", "big"); (lf, "book")] " "
             eq_refl eq_refl eq_refl eq_refl).
  reflexivity.
Defined.

(* ===================================================================== *)
(** * JSON: what is printed parses back *)
(* ===================================================================== *)

Lemma fmap_app_app {A} (ta tb : list A) (X : option (list A)) :
  (fun r => (ta ++ r)%list) <$> ((fun r => (tb ++ r)%list) <$> X)
  = (fun r => ((ta ++ tb) ++ r)%list) <$> X.
Proof. destruct X; cbn; [now rewrite List.app_assoc | reflexivity]. Qed.

Lemma lex_cons (st : Json.lexstate) (c : ascii) (s : string) :
  Json.lex st (String c s)
  = match Json.lex_step st c with
    | Some (st', ts) => (fun rest => (ts ++ rest)%list) <$> Json.lex st' s
    | None => None
    end.
Proof. reflexivity. Qed.

Lemma lex_feed (p : string) :
  forall st st' ts rest,
    feed st p = Some (st', ts) ->
    Json.lex st (p +:+ rest)
    = (fun r => (ts ++ r)%list) <$> Json.lex st' rest.
Proof.
  induction p as [|c p IH]; intros st st' ts rest H.
  - injection H as <- <-. rewrite app_nil. now destruct (Json.lex st rest).
  - cbn [feed] in H. rewrite app_cons, lex_cons.
    destruct (Json.lex_step st c) as [[st1 ts1]|]; [|discriminate].
    destruct (feed st1 p) as [[st2 ts2]|] eqn:Ef; [|discriminate].
    injection H as <- <-. rewrite (IH _ _ _ rest Ef). apply fmap_app_app.
Qed.

Lemma feed_app (p1 p2 : string) :
  forall st st1 ts1 st2 ts2,
    feed st p1 = Some (st1, ts1) -> feed st1 p2 = Some (st2, ts2) ->
    feed st (p1 +:+ p2) = Some (st2, (ts1 ++ ts2)%list).
Proof.
  induction p1 as [|c p1 IH]; intros st st1 ts1 st2 ts2 H1 H2.
  - injection H1 as <- <-. now rewrite app_nil.
  - cbn [feed] in H1. rewrite app_cons. cbn [feed].
    destruct (Json.lex_step st c) as [[sa ta]|]; [|discriminate].
    destruct (feed sa p1) as [[sb tb]|] eqn:Ef; [|discriminate].
    injection H1 as <- <-. rewrite (IH _ _ _ _ _ Ef H2).
    now rewrite List.app_assoc.
Qed.

(** One code unit, quoted, is read back as itself. *)
Lemma feed_quote_char (c : ascii) (acc : list ascii) :
  feed (Json.LStr acc) (JsonPrint.quote_char c) = Some (Json.LStr (c :: acc), []).
Proof.
  destruct c as [[] [] [] [] [] [] [] []]; vm_compute; reflexivity.
Qed.

Lemma feed_quote_body (s : string) (acc : list ascii) :
  feed (Json.LStr acc) (JsonPrint.quote_body s)
  = Some (Json.LStr (List.rev (list_ascii_of_string s) ++ acc)%list, []).
Proof.
  revert acc. induction s as [|c s IH]; intros acc; [reflexivity|].
  cbn [JsonPrint.quote_body list_ascii_of_string List.rev].
  rewrite (feed_app _ _ _ _ _ _ _ (feed_quote_char c acc) (IH (c :: acc))).
  now rewrite <- List.app_assoc.
Qed.

Lemma feed_quote (s : string) :
  feed Json.LDefault (JsonPrint.quote s) = Some (Json.LDefault, [Json.TStr s]).
Proof.
  unfold JsonPrint.quote, q, dq.
  change (String dq_char "" +:+ JsonPrint.quote_body s +:+ String dq_char "")
    with (String dq_char (JsonPrint.quote_body s +:+ String dq_char "")).
  cbn [feed]. change (Json.lex_step Json.LDefault dq_char)
    with (Some (Json.LStr [], @nil Json.token)).
  cbv iota beta.
  assert (Hclose : forall acc,
            feed (Json.LStr acc) (String dq_char "")
            = Some (Json.LDefault, [Json.TStr (Json.of_rev acc)]))
    by reflexivity.
  rewrite (feed_app _ _ _ _ _ _ _ (feed_quote_body s []) (Hclose _)).
  unfold Json.of_rev. rewrite app_nil_r, List.rev_involutive.
  now rewrite string_of_list_ascii_of_string.
Qed.

Lemma lex_quote (s rest : string) :
  Json.lex Json.LDefault (JsonPrint.quote s +:+ rest)
  = (fun r => ([Json.TStr s] ++ r)%list) <$> Json.lex Json.LDefault rest.
Proof. apply lex_feed, feed_quote. Qed.

Lemma lex_punct (c : ascii) (t : Json.token) (rest : string) :
  Json.lex_start c = Some (Json.LDefault, [t]) ->
  Json.lex Json.LDefault (String c rest)
  = (fun r => ([t] ++ r)%list) <$> Json.lex Json.LDefault rest.
Proof. intros H. rewrite lex_cons. cbn [Json.lex_step]. now rewrite H. Qed.

Lemma lex_word (w : string) (acc : list ascii) (t : Json.token)
    (rest : string) :
  feed Json.LDefault w = Some (Json.LWord acc, []) ->
  Json.word_token (Json.of_rev acc) = Some t ->
  delimited rest = true ->
  Json.lex Json.LDefault (w +:+ rest)
  = (fun r => ([t] ++ r)%list) <$> Json.lex Json.LDefault rest.
Proof.
  intros Hf Hw Hd. rewrite (lex_feed w _ _ _ rest Hf).
  destruct rest as [|c r].
  - cbn [Json.lex Json.lex_end]. now rewrite Hw.
  - unfold delimited in Hd. cbn [startsIn] in Hd. apply negb_true_iff in Hd.
    rewrite !lex_cons. cbn [Json.lex_step]. rewrite Hd, Hw.
    destruct (Json.lex_start c) as [[st' ts]|]; [|reflexivity].
    now destruct (Json.lex st' r).
Qed.

(** Induction on values, with the elements and members in reach. *)
Lemma json_rect_nested (P : Json.json -> Prop) :
  P Json.JNull -> (forall b, P (Json.JBool b)) -> (forall l, P (Json.JNum l)) ->
  (forall s, P (Json.JStr s)) ->
  (forall xs, Forall P xs -> P (Json.JArr xs)) ->
  (forall ms, Forall (fun m => P (snd m)) ms -> P (Json.JObj ms)) ->
  forall v, P v.
Proof.
  intros Hn Hb Hl Hs Ha Ho.
  fix IH 1. intros [| b | l | s | xs | ms].
  - exact Hn.
  - apply Hb.
  - apply Hl.
  - apply Hs.
  - apply Ha. induction xs as [|x xs IHxs]; constructor; [apply IH | exact IHxs].
  - apply Ho. induction ms as [|[k x] ms IHms]; constructor;
      [apply IH | exact IHms].
Qed.

(** What follows a value in printed JSON. *)
Lemma delimited_punct (c : ascii) (rest : string) :
  Json.is_lower c = false -> delimited (String c rest) = true.
Proof. intros H. unfold delimited. cbn. now rewrite H. Qed.

Lemma lex_elements (xs : list Json.json) (rest : string) :
  Forall (fun x => numberFree x = true ->
                   forall rest, delimited rest = true ->
                   Json.lex Json.LDefault (JsonPrint.stringify x +:+ rest)
                   = (fun r => (tokens x ++ r)%list)
                       <$> Json.lex Json.LDefault rest) xs ->
  forallb numberFree xs = true ->
  Json.lex Json.LDefault
    (fold_right (fun x acc => "," +:+ JsonPrint.stringify x +:+ acc)
       ("]" +:+ rest) xs)
  = (fun r => ((flat_map (fun y => Json.TComma :: tokens y) xs
                ++ [Json.TRBracket]) ++ r)%list)
      <$> Json.lex Json.LDefault rest.
Proof.
  intros HF. induction HF as [|x xs Hx _ IH]; intros Hnf.
  - cbn [fold_right flat_map List.app].
    apply (lex_punct "]" Json.TRBracket). reflexivity.
  - cbn [forallb] in Hnf. apply andb_prop in Hnf as [Hnx Hnxs].
    cbn [fold_right flat_map].
    change ("," +:+ JsonPrint.stringify x +:+ ?t)
      with (String "," (JsonPrint.stringify x +:+ t)).
    rewrite (lex_punct "," Json.TComma) by reflexivity.
    rewrite (Hx Hnx).
    2: { destruct xs; cbn [fold_right]; now apply delimited_punct. }
    rewrite (IH Hnxs), !fmap_app_app.
    destruct (Json.lex Json.LDefault rest) as [r|]; [|reflexivity].
    cbn [fmap option_fmap option_map]. f_equal. cbn [List.app].
    now rewrite <- !List.app_assoc.
Qed.

Lemma join_map {A} (f : A -> string) (sep : string) (x : A) (xs : list A)
    (t : string) :
  join sep (List.map f (x :: xs)) +:+ t
  = f x +:+ fold_right (fun y acc => sep +:+ f y +:+ acc) t xs.
Proof.
  revert x. induction xs as [|y ys IH]; intros x; [reflexivity|].
  change (join sep (List.map f (x :: y :: ys)))
    with (f x +:+ sep +:+ join sep (List.map f (y :: ys))).
  rewrite !append_assoc, IH. reflexivity.
Qed.

Lemma lex_members (ms : list (string * Json.json)) (rest : string) :
  Forall (fun m => numberFree (snd m) = true ->
                   forall rest, delimited rest = true ->
                   Json.lex Json.LDefault (JsonPrint.stringify (snd m) +:+ rest)
                   = (fun r => (tokens (snd m) ++ r)%list)
                       <$> Json.lex Json.LDefault rest) ms ->
  forallb (fun m => numberFree (snd m)) ms = true ->
  Json.lex Json.LDefault
    (fold_right
       (fun m acc =>
          "," +:+ (JsonPrint.quote (fst m) +:+ ":"
                   +:+ JsonPrint.stringify (snd m)) +:+ acc)
       ("}" +:+ rest) ms)
  = (fun r =>
       ((flat_map (fun m => Json.TComma :: Json.TStr (fst m) :: Json.TColon
                            :: tokens (snd m)) ms
         ++ [Json.TRBrace]) ++ r)%list)
      <$> Json.lex Json.LDefault rest.
Proof.
  intros HF. induction HF as [|[k x] ms Hx _ IH]; intros Hnf.
  - cbn [fold_right flat_map List.app].
    apply (lex_punct "}" Json.TRBrace). reflexivity.
  - cbn [forallb snd] in Hnf. apply andb_prop in Hnf as [Hnx Hnms].
    cbn [fold_right flat_map fst snd] in Hx |- *.
    rewrite !append_assoc.
    change ("," +:+ ?t) with (String "," t).
    rewrite (lex_punct "," Json.TComma) by reflexivity.
    rewrite lex_quote.
    change (":" +:+ ?t) with (String ":" t).
    rewrite (lex_punct ":" Json.TColon) by reflexivity.
    rewrite (Hx Hnx).
    2: { destruct ms; cbn [fold_right]; now apply delimited_punct. }
    rewrite (IH Hnms), !fmap_app_app.
    destruct (Json.lex Json.LDefault rest) as [r|]; [|reflexivity].
    cbn [fmap option_fmap option_map]. f_equal. cbn [List.app].
    now rewrite <- !List.app_assoc.
Qed.

(** The lexer on a printed value without numbers. *)
Lemma lex_stringify (v : Json.json) :
  numberFree v = true ->
  forall rest, delimited rest = true ->
  Json.lex Json.LDefault (JsonPrint.stringify v +:+ rest)
  = (fun r => (tokens v ++ r)%list) <$> Json.lex Json.LDefault rest.
Proof.
  induction v as [| b | l | s | xs IH | ms IH] using json_rect_nested;
    intros Hnf rest Hd.
  - apply (lex_word "null" ["l"; "l"; "u"; "n"]%char); auto.
  - destruct b.
    + apply (lex_word "true" ["e"; "u"; "r"; "t"]%char); auto.
    + apply (lex_word "false" ["e"; "s"; "l"; "a"; "f"]%char); auto.
  - discriminate.
  - apply lex_quote.
  - cbn [JsonPrint.stringify numberFree tokens] in *.
    rewrite !append_assoc. change ("[" +:+ ?t) with (String "[" t).
    rewrite (lex_punct "[" Json.TLBracket) by reflexivity.
    destruct xs as [|x xs].
    + cbn [List.map join]. rewrite app_nil.
      change ("]" +:+ rest) with (String "]" rest).
      rewrite (lex_punct "]" Json.TRBracket) by reflexivity.
      now rewrite fmap_app_app.
    + rewrite (join_map JsonPrint.stringify "," x xs).
      cbn [forallb] in Hnf. apply andb_prop in Hnf as [Hnx Hnxs].
      pose proof (Forall_inv IH) as Hx. pose proof (Forall_inv_tail IH) as Hxs.
      rewrite (Hx Hnx).
      2: { destruct xs; cbn [fold_right]; now apply delimited_punct. }
      rewrite (lex_elements xs rest Hxs Hnxs), !fmap_app_app.
      destruct (Json.lex Json.LDefault rest) as [r|]; [|reflexivity].
      cbn [fmap option_fmap option_map]. f_equal. cbn [List.app].
      now rewrite <- !List.app_assoc.
  - cbn [JsonPrint.stringify numberFree tokens] in *.
    rewrite !append_assoc. change ("{" +:+ ?t) with (String "{" t).
    rewrite (lex_punct "{" Json.TLBrace) by reflexivity.
    destruct ms as [|[k x] ms].
    + cbn [List.map join]. rewrite app_nil.
      change ("}" +:+ rest) with (String "}" rest).
      rewrite (lex_punct "}" Json.TRBrace) by reflexivity.
      now rewrite fmap_app_app.
    + rewrite (join_map
                 (fun p => JsonPrint.quote (fst p) +:+ ":"
                           +:+ JsonPrint.stringify (snd p)) "," (k, x) ms).
      cbn [forallb fst snd] in Hnf |- *.
      apply andb_prop in Hnf as [Hnx Hnms].
      pose proof (Forall_inv IH) as Hx. pose proof (Forall_inv_tail IH) as Hms.
      cbn [snd] in Hx.
      rewrite !append_assoc, lex_quote.
      change (":" +:+ ?t) with (String ":" t).
      rewrite (lex_punct ":" Json.TColon) by reflexivity.
      rewrite (Hx Hnx).
      2: { destruct ms; cbn [fold_right]; now apply delimited_punct. }
      rewrite (lex_members ms rest Hms Hnms), !fmap_app_app.
      destruct (Json.lex Json.LDefault rest) as [r|]; [|reflexivity].
      cbn [fmap option_fmap option_map]. f_equal. cbn [List.app].
      now rewrite <- !List.app_assoc.
Qed.

(** The parser on the tokens of a value. *)
Lemma parse_elements (xs : list Json.json) :
  Forall (fun x => forall close stk rest,
            Json.parse_tokens (Json.PValue close stk) (tokens x ++ rest)
            = Json.parse_tokens (Json.PDone x stk) rest) xs ->
  forall v acc stk rest,
    Json.parse_tokens (Json.PDone v (Json.FArr acc :: stk))
      (flat_map (fun y => Json.TComma :: tokens y) xs
       ++ Json.TRBracket :: rest)
    = Json.parse_tokens
        (Json.PDone (Json.JArr (List.rev acc ++ v :: xs)) stk) rest.
Proof.
  intros HF. induction HF as [|x xs Hx _ IH]; intros v acc stk rest.
  - reflexivity.
  - cbn [flat_map]. rewrite <- List.app_assoc. cbn [List.app].
    cbn [Json.parse_tokens Json.pstep].
    rewrite Hx, IH. cbn [List.rev]. now rewrite <- List.app_assoc.
Qed.

Lemma parse_members (ms : list (string * Json.json)) :
  Forall (fun m => forall close stk rest,
            Json.parse_tokens (Json.PValue close stk) (tokens (snd m) ++ rest)
            = Json.parse_tokens (Json.PDone (snd m) stk) rest) ms ->
  forall k v acc stk rest,
    Json.parse_tokens (Json.PDone v (Json.FObj acc k :: stk))
      (flat_map (fun m => Json.TComma :: Json.TStr (fst m) :: Json.TColon
                          :: tokens (snd m)) ms
       ++ Json.TRBrace :: rest)
    = Json.parse_tokens
        (Json.PDone (Json.JObj (List.rev acc ++ (k, v) :: ms)) stk) rest.
Proof.
  intros HF. induction HF as [|[k' x] ms Hx _ IH]; intros k v acc stk rest.
  - reflexivity.
  - cbn [flat_map fst snd] in Hx |- *.
    rewrite <- List.app_assoc. cbn [List.app].
    cbn [Json.parse_tokens Json.pstep].
    rewrite Hx, IH. cbn [List.rev]. now rewrite <- List.app_assoc.
Qed.

Lemma parse_tokens_value (v : Json.json) :
  forall close stk rest,
    Json.parse_tokens (Json.PValue close stk) (tokens v ++ rest)
    = Json.parse_tokens (Json.PDone v stk) rest.
Proof.
  induction v as [| b | l | s | xs IH | ms IH] using json_rect_nested;
    intros close stk rest; try reflexivity.
  - now destruct b.
  - cbn [tokens]. destruct xs as [|x xs]; [reflexivity|].
    cbn [List.app]. rewrite <- !List.app_assoc. cbn [List.app].
    cbn [Json.parse_tokens Json.pstep].
    rewrite (Forall_inv IH).
    apply (parse_elements xs (Forall_inv_tail IH) x [] stk rest).
  - cbn [tokens]. destruct ms as [|[k x] ms]; [reflexivity|].
    cbn [List.app]. rewrite <- !List.app_assoc. cbn [List.app].
    cbn [Json.parse_tokens Json.pstep].
    pose proof (Forall_inv IH) as Hx. cbn [snd] in Hx.
    rewrite Hx.
    apply (parse_members ms (Forall_inv_tail IH) k x [] stk rest).
Qed.

Lemma lex_ws (w : string) :
  all_chars Json.is_json_ws w = true -> Json.lex Json.LDefault w = Some [].
Proof.
  induction w as [|c w IH]; [reflexivity|]. cbn [all_chars]. intros H.
  apply andb_prop in H as [Hc Hw]. rewrite lex_cons. cbn [Json.lex_step].
  unfold Json.lex_start. rewrite Hc, (IH Hw). reflexivity.
Qed.

Lemma json_ws_not_lower (c : ascii) :
  Json.is_json_ws c = true -> Json.is_lower c = false.
Proof.
  unfold Json.is_json_ws, Json.is_lower. generalize (nat_of_ascii c).
  intros n Hn. repeat (apply orb_prop in Hn as [Hn|Hn]);
    apply Nat.eqb_eq in Hn; subst n; reflexivity.
Qed.

(** [JSON.parse] reads what [JSON.stringify] printed, white space after
    it or not, as the value printed. *)
Lemma parse_stringify (v : Json.json) (w : string) :
  numberFree v = true -> all_chars Json.is_json_ws w = true ->
  Json.parse (JsonPrint.stringify v +:+ w) = Some v.
Proof.
  intros Hnf Hw. unfold Json.parse.
  rewrite (lex_stringify v Hnf w), (lex_ws w Hw).
  - cbn [fmap option_fmap option_map].
    rewrite parse_tokens_value. reflexivity.
  - destruct w as [|c w]; [reflexivity|]. cbn [all_chars] in Hw.
    apply andb_prop in Hw as [Hc _]. apply delimited_punct.
    now apply json_ws_not_lower.
Qed.

(* ===================================================================== *)
(** * The groups in local storage *)
(* ===================================================================== *)

Lemma numberFree_groups (gs : list URLGroup.t) :
  numberFree (Json.JArr (List.map Persist.encodeGroup gs)) = true.
Proof.
  cbn [numberFree]. induction gs as [|g gs IH]; [reflexivity|].
  cbn [List.map forallb]. rewrite IH, andb_true_r.
  cbn. rewrite andb_true_r.
  induction (URLGroup.urls g) as [|u us IHu]; [reflexivity | exact IHu].
Qed.

Lemma getInitialUrlGroups_saved (urlGroups : list URLGroup.t)
    (store : Credentials.Storage) (now : N) :
  Persist.getInitialUrlGroups (Persist.saveGroups urlGroups store) now
  = match urlGroups with
    | [] => Persist.defaultGroups now
    | _ :: _ => List.map Persist.encodeGroup urlGroups
    end.
Proof.
  unfold Persist.getInitialUrlGroups, Persist.saveGroups.
  unfold Credentials.Storage in *. rewrite lookup_insert_eq.
  pose proof (parse_stringify _ "" (numberFree_groups urlGroups) eq_refl)
    as Hparse.
  rewrite app_nil_end in Hparse. rewrite Hparse.
  destruct urlGroups as [|g gs]; reflexivity.
Qed.

Lemma firstCommit_storage (store : Credentials.Storage) (now : N) :
  Persist.firstCommit now (Persist.mkStart store None None)
  = Persist.mkStart (Persist.saveGroups [] store) None None.
Proof. reflexivity. Qed.

(** X24.  The groups at start.  The groups of an earlier session are
    not restored.  The first render has no groups and [isAppLoading]
    set: in the first commit the load effect does nothing and the
    groups effect writes '[]' under 'urlGroups' (line 365); the load
    effect of the second commit reads that, and stores the one default
    group 'My First Knowledge Base', whatever the storage held.
    [getInitialUrlGroups] by itself, on a storage that holds what line
    365 writes for groups, one at least, with any names and URLs, gives
    the same objects in the same order, each with its [id], [name] and
    [urls]; it makes the default group when nothing is stored, when the
    array stored is empty and when the text stored is no JSON (a syntax
    error met before any escape for a code unit from 256 on). *)
Theorem urlGroups_at_start (store : Credentials.Storage) (now1 now2 : N) :
  let first := Persist.firstCommit now1 (Persist.mkStart store None None) in
  Persist.loaded first = None
  /\ Persist.storage first !! "urlGroups" = Some "[]"
  /\ Persist.loaded (Persist.start store now1 now2)
     = Some (Persist.defaultGroups now2)
  /\ (forall urlGroups,
        Persist.getInitialUrlGroups (Persist.saveGroups urlGroups store) now2
        = match urlGroups with
          | [] => Persist.defaultGroups now2
          | _ :: _ => List.map Persist.encodeGroup urlGroups
          end)
  /\ (forall g,
        Json.get "id" (Persist.encodeGroup g) = Some (Json.JStr (URLGroup.id g))
        /\ Json.get "name" (Persist.encodeGroup g)
           = Some (Json.JStr (URLGroup.name g))
        /\ Json.get "urls" (Persist.encodeGroup g)
           = Some (Json.JArr (List.map Json.JStr (URLGroup.urls g))))
  /\ (store !! "urlGroups" = None \/
      (exists saved, store !! "urlGroups" = Some saved
                     /\ Json.beyond Json.LDefault saved = false
                     /\ Json.parse saved = None) ->
      Persist.getInitialUrlGroups store now2 = Persist.defaultGroups now2).
Proof.
  intros first. subst first.
  unfold Persist.start. rewrite firstCommit_storage.
  unfold Persist.loadEffect. cbn [negb Persist.storage Persist.loaded].
  split; [reflexivity|]. split.
  { unfold Persist.saveGroups. unfold Credentials.Storage in *.
    now rewrite lookup_insert_eq. }
  split; [now rewrite (getInitialUrlGroups_saved [])|].
  split; [intros urlGroups; apply getInitialUrlGroups_saved|]. split.
  - intros g. repeat split.
  - unfold Persist.getInitialUrlGroups.
    intros [-> | (saved & -> & _ & ->)]; [reflexivity|].
    now destruct (truthy saved).
Qed.

Lemma urlGroups_at_start_witness :
  let earlier : Credentials.Storage :=
    Persist.saveGroups [smallGroup; emptyGroup] ∅ in
  Persist.getInitialUrlGroups earlier 2
  = [Persist.encodeGroup smallGroup; Persist.encodeGroup emptyGroup]
  /\ Persist.loaded (Persist.start earlier 8 9)
     = Some [Persist.encodeGroup
               (URLGroup.mk "group-9" "My First Knowledge Base" [])].
Proof.
  intros earlier. split.
  - exact (proj1 (proj2 (proj2 (proj2 (urlGroups_at_start ∅ 1 2))))
             [smallGroup; emptyGroup]).
  - exact (proj1 (proj2 (proj2 (urlGroups_at_start earlier 8 9)))).
Defined.

Lemma someIdIs_groups (i : string) (gs : list URLGroup.t) :
  Persist.someIdIs i (List.map Persist.encodeGroup gs)
  = Some (existsb (hasId i) gs).
Proof.
  induction gs as [|g gs IH]; [reflexivity|].
  cbn [List.map Persist.someIdIs existsb].
  change (Persist.someIdIs i (Persist.encodeGroup g :: List.map Persist.encodeGroup gs))
    with (if Persist.idIs i (Persist.encodeGroup g) then Some true
          else Persist.someIdIs i (List.map Persist.encodeGroup gs)).
  change (Persist.idIs i (Persist.encodeGroup g)) with (hasId i g).
  rewrite IH. now destruct (hasId i g).
Qed.

Lemma firstId_groups (gs : list URLGroup.t) :
  Persist.firstId (List.map Persist.encodeGroup gs)
  = Json.JStr (default "" (URLGroup.id <$> head gs)).
Proof.
  destruct gs as [|g gs]; [reflexivity|].
  unfold Persist.firstId. cbn [List.map head].
  change (Json.get "id" (Persist.encodeGroup g))
    with (Some (Json.JStr (URLGroup.id g))).
  cbn [Persist.js_truthy fmap option_fmap option_map default URLGroup.id].
  now destruct (URLGroup.id g).
Qed.

Lemma loadActive_groups (store : Credentials.Storage)
    (gs : list URLGroup.t) :
  Persist.loadActive store (List.map Persist.encodeGroup gs)
  = Persist.Chosen
      (Json.JStr
         (match store !! "activeUrlGroupId" with
          | Some savedActiveId =>
              if truthy savedActiveId && existsb (hasId savedActiveId) gs
              then savedActiveId
              else default "" (URLGroup.id <$> head gs)
          | None => default "" (URLGroup.id <$> head gs)
          end)).
Proof.
  unfold Persist.loadActive. rewrite firstId_groups.
  destruct (store !! "activeUrlGroupId") as [saved|]; [|reflexivity].
  rewrite someIdIs_groups.
  destruct (truthy saved); [|reflexivity].
  now destruct (existsb (hasId saved) gs).
Qed.

(** X26.  The active group at start.  The identifier that an earlier
    session stored is not restored either.  The first commit leaves
    'activeUrlGroupId' in the storage as it was (the identifier of the
    first render is empty and is not written), and the load effect of
    the second commit, which has just made the default group, makes
    it the active one: it takes the identifier stored only when
    that names one of the groups it read, which here is the new
    identifier, 'group-' and the time, itself.  The rule of lines
    356-361 by itself, for groups as the handlers build them: the
    identifier stored when it is not empty and names one of the groups,
    else the identifier of the first group, the empty string without
    groups. *)
Theorem active_at_start (store : Credentials.Storage) (now1 now2 : N) :
  let first := Persist.firstCommit now1 (Persist.mkStart store None None) in
  Persist.storage first !! "activeUrlGroupId" = store !! "activeUrlGroupId"
  /\ Persist.chosen first = None
  /\ Persist.chosen (Persist.start store now1 now2)
     = Some (Persist.Chosen (Json.JStr ("group-" +:+ pretty now2)))
  /\ (forall gs : list URLGroup.t,
        Persist.loadActive store (List.map Persist.encodeGroup gs)
        = Persist.Chosen
            (Json.JStr
               (match store !! "activeUrlGroupId" with
                | Some savedActiveId =>
                    if truthy savedActiveId
                       && existsb (hasId savedActiveId) gs
                    then savedActiveId
                    else default "" (URLGroup.id <$> head gs)
                | None => default "" (URLGroup.id <$> head gs)
                end))).
Proof.
  intros first. subst first.
  unfold Persist.start. rewrite firstCommit_storage.
  unfold Persist.loadEffect.
  cbn [negb Persist.storage Persist.loaded Persist.chosen].
  split.
  { unfold Persist.saveGroups. unfold Credentials.Storage in *.
    now rewrite lookup_insert_ne by discriminate. }
  split; [reflexivity|]. split; [|apply loadActive_groups].
  rewrite (getInitialUrlGroups_saved []).
  set (g := URLGroup.mk ("group-" +:+ pretty now2) "My First Knowledge Base" []).
  change (Persist.defaultGroups now2) with (List.map Persist.encodeGroup [g]).
  rewrite loadActive_groups. do 2 f_equal.
  destruct (_ !! "activeUrlGroupId") as [saved|]; [|reflexivity].
  destruct (truthy saved); [|reflexivity].
  cbn [andb existsb orb]. rewrite orb_false_r. unfold hasId.
  destruct (String.eqb_spec (URLGroup.id g) saved) as [<-|_]; reflexivity.
Qed.

Lemma active_at_start_witness :
  let earlier : Credentials.Storage :=
    Persist.saveActive "group-3"
      (Persist.saveGroups [smallGroup; emptyGroup] ∅) in
  Persist.loadActive earlier
    [Persist.encodeGroup smallGroup; Persist.encodeGroup emptyGroup]
  = Persist.Chosen (Json.JStr "group-3")
  /\ Persist.chosen (Persist.start earlier 8 9)
     = Some (Persist.Chosen (Json.JStr "group-9")).
Proof.
  intros earlier. split.
  - exact (proj2 (proj2 (proj2 (active_at_start earlier 8 9)))
             [smallGroup; emptyGroup]).
  - exact (proj1 (proj2 (proj2 (active_at_start earlier 8 9)))).
Defined.

(* ===================================================================== *)
(** * Reading the suggestions of an answer *)
(* ===================================================================== *)

Lemma all_chars_app (p : ascii -> bool) (a b : string) :
  all_chars p (a +:+ b) = all_chars p a && all_chars p b.
Proof.
  induction a as [|c a IH]; [reflexivity|].
  rewrite app_cons. cbn [all_chars]. now rewrite IH, andb_assoc.
Qed.

(** A fence found before a character that is neither white space nor a
    backquote leaves that character in what follows the fence. *)
Lemma fence_before (q0 t r : string) (d : ascii) :
  is_js_space d = false -> Ascii.eqb "`" d = false ->
  strip_prefix "```" (q0 +:+ String d t) = Some r ->
  all_chars is_js_space r = false.
Proof.
  intros Hd Hb H.
  destruct q0 as [|a [|b [|c q3]]]; rewrite ?app_cons, ?app_nil in H;
    cbn [strip_prefix] in H.
  - rewrite Hb in H. discriminate.
  - destruct (Ascii.eqb "`" a); [|discriminate]. rewrite Hb in H. discriminate.
  - destruct (Ascii.eqb "`" a); [|discriminate].
    destruct (Ascii.eqb "`" b); [|discriminate]. rewrite Hb in H. discriminate.
  - destruct (Ascii.eqb "`" a); [|discriminate].
    destruct (Ascii.eqb "`" b); [|discriminate].
    destruct (Ascii.eqb "`" c); [|discriminate].
    injection H as <-. rewrite all_chars_app. cbn [all_chars].
    now rewrite Hd, andb_false_r.
Qed.

Lemma stripTailFence_before (p t : string) (d : ascii) :
  is_js_space d = false -> Ascii.eqb "`" d = false ->
  stripTailFence (p +:+ String d t) = p +:+ String d (stripTailFence t).
Proof.
  intros Hd Hb. induction p as [|c p IH].
  - rewrite !app_nil. cbn [stripTailFence strip_prefix]. now rewrite Hb.
  - rewrite !app_cons. cbn [stripTailFence].
    destruct (strip_prefix "```" (String c (p +:+ String d t))) as [r|] eqn:E.
    + rewrite <- app_cons in E.
      rewrite (fence_before (String c p) t r d Hd Hb E). now rewrite IH.
    + now rewrite IH.
Qed.

Lemma stripTailFence_close (w : string) :
  all_chars is_js_space w = true -> stripTailFence (w +:+ "```") = w.
Proof.
  induction w as [|c w IH]; [reflexivity|]. cbn [all_chars]. intros H.
  apply andb_prop in H as [Hc Hw]. rewrite app_cons.
  cbn [stripTailFence strip_prefix].
  rewrite (ws_not_backquote c Hc). now rewrite (IH Hw).
Qed.

Lemma omap_strings (xs : list string) :
  omap (fun x => match x with Json.JStr t => Some t | _ => None end)
    (List.map Json.JStr xs) = xs.
Proof. induction xs as [|x xs IH]; [reflexivity|]. cbn. now rewrite IH. Qed.

(** The printed object of suggestions: a brace, a body, a brace. *)
Lemma suggestions_text (vs : list Json.json) :
  exists body,
    JsonPrint.stringify (Json.JObj [("suggestions", Json.JArr vs)])
    = String "{" (body +:+ "}").
Proof. eexists. cbn [JsonPrint.stringify List.map join fst snd]. reflexivity. Qed.

(** X25.  Reading the suggestions of an answer (lines 410-421).  When
    the text of the answer is the JSON object with the array
    'suggestions', printed without white space, bare or between a fence
    of three backquotes tagged json, the suggestions are the strings of
    that array, in order; the entries that are no strings are dropped.
    An empty text gives no suggestion, and so does a text that, trimmed
    and without its fence, is no JSON (a syntax error met before any
    escape for a code unit from 256 on). *)
Theorem parseSuggestions_reads_answer (vs : list Json.json) :
  forallb numberFree vs = true ->
  let text := JsonPrint.stringify (Json.JObj [("suggestions", Json.JArr vs)]) in
  let strings :=
    omap (fun x => match x with Json.JStr t => Some t | _ => None end) vs in
  parseSuggestions text = strings
  /\ parseSuggestions ("```json" +:+ lf +:+ text +:+ lf +:+ "```") = strings
  /\ (forall xs, vs = List.map Json.JStr xs -> strings = xs)
  /\ parseSuggestions "" = []
  /\ (forall other,
        Json.beyond Json.LDefault (stripJsonFence (trim other)) = false ->
        Json.parse (stripJsonFence (trim other)) = None ->
        parseSuggestions other = []).
Proof.
  intros Hnf text strings.
  assert (Hv : numberFree (Json.JObj [("suggestions", Json.JArr vs)]) = true).
  { cbn. now rewrite Hnf. }
  destruct (suggestions_text vs) as (body & Hbody). fold text in Hbody.
  assert (Hend : text = (String "{" body) +:+ String "}" "").
  { rewrite Hbody. now rewrite app_cons. }
  assert (Hs : starts_ws text = false) by now rewrite Hbody.
  assert (He : ends_ws text = false) by (rewrite Hend; apply ends_ws_app).
  assert (Hget : forall w, all_chars Json.is_json_ws w = true ->
            match Json.parse (text +:+ w) with
            | Some parsed =>
                match Json.get "suggestions" parsed with
                | Some (Json.JArr xs) =>
                    omap (fun x => match x with
                                   | Json.JStr t => Some t
                                   | _ => None
                                   end) xs
                | _ => []
                end
            | None => []
            end = strings).
  { intros w Hw. subst text. rewrite (parse_stringify _ w Hv Hw). reflexivity. }
  assert (Hxs : forall xs, vs = List.map Json.JStr xs -> strings = xs).
  { intros xs ->. apply omap_strings. }
  assert (Hne : truthy text = true) by now rewrite Hbody.
  assert (Hpre : strip_prefix "```json" text = None) by now rewrite Hbody.
  clearbody text strings.
  assert (Htail : forall t,
            stripTailFence (text +:+ t) = text +:+ stripTailFence t).
  { intros t. rewrite Hend, !append_assoc.
    change (String "}" "" +:+ t) with (String "}" t).
    change (String "}" "" +:+ stripTailFence t)
      with (String "}" (stripTailFence t)).
    apply stripTailFence_before; reflexivity. }
  split; [|split; [|split; [|split]]].
  - unfold parseSuggestions. rewrite Hne, (trim_id text Hs He).
    unfold stripJsonFence. rewrite Hpre.
    rewrite <- (app_nil_end text) at 1. rewrite Htail.
    cbn [stripTailFence]. now apply Hget.
  - unfold parseSuggestions. cbn [truthy is_empty negb].
    assert (Ht : trim ("```json" +:+ lf +:+ text +:+ lf +:+ "```")
                 = "```json" +:+ lf +:+ text +:+ lf +:+ "```").
    { apply trim_id; [reflexivity|].
      rewrite <- !append_assoc. apply ends_ws_fence. }
    rewrite Ht. unfold stripJsonFence.
    change (strip_prefix "```json"
              ("```json" +:+ lf +:+ text +:+ lf +:+ "```"))
      with (Some (lf +:+ text +:+ lf +:+ "```")).
    cbv iota beta.
    rewrite (trimStart_app lf (text +:+ lf +:+ "```")); [|reflexivity|].
    + rewrite Htail, (stripTailFence_close lf eq_refl). now apply Hget.
    + rewrite Hend. reflexivity.
  - exact Hxs.
  - reflexivity.
  - intros other _ Hp. unfold parseSuggestions. rewrite Hp.
    now destruct (truthy other).
Qed.

Lemma parseSuggestions_reads_answer_witness :
  parseSuggestions
    (JsonPrint.stringify
       (Json.JObj
          [("suggestions",
            Json.JArr [Json.JStr "What is new?"; Json.JNull;
                       Json.JStr ("Say " +:+ q "hi")])]))
  = ["What is new?"; "Say " +:+ q "hi"].
Proof.
  exact (proj1 (parseSuggestions_reads_answer
                  [Json.JStr "What is new?"; Json.JNull;
                   Json.JStr ("Say " +:+ q "hi")] eq_refl)).
Defined.

(* ===================================================================== *)
(** * The chat form *)
(* ===================================================================== *)

Lemma filter_notSystem_two (l : list ChatMessage.t) (u m : ChatMessage.t) :
  ChatForm.notSystem u = true -> ChatForm.notSystem m = true ->
  1 < List.length (List.filter ChatForm.notSystem (l ++ [u; m])).
Proof.
  intros Hu Hm. rewrite List.filter_app, length_app. cbn [List.filter].
  rewrite Hu, Hm. cbn [List.length]. lia.
Qed.

(** X27.  Sending from the chat form.  [handleSend] does nothing for a
    blank field and while an answer is loading; otherwise it empties the
    field and hands on the text without the white space around it, and
    that trimmed text is the question in the transcript and in the
    request.  With the question and the placeholder at the end of the
    transcript no suggestion is shown, whatever the list of suggestions
    holds; and when the answer of the model is the next event, none is
    shown after it either, the transcript holding two messages that are
    not of the system.  (An event in between that starts the transcript
    anew, a change of the knowledge base for one, is not covered.) *)
Theorem chat_form_send (isValidUrl : string -> bool) (s : Sys)
    (userQuery : string) (now1 now2 : N) (r : Response.t)
    (later : list string) :
  inChat (app s) -> pending s = [] ->
  isLoading (app s) = false -> isFetchingSuggestions (app s) = false ->
  (forall busy, all_chars is_js_space userQuery = true \/ busy = true ->
                ChatForm.handleSend userQuery busy = (userQuery, None))
  /\ (all_chars is_js_space userQuery = false ->
      ChatForm.handleSend userQuery (isLoading (app s))
      = ("", Some (trim userQuery))
      /\ let s1 := step isValidUrl s (SendMessage (trim userQuery)) now1 in
         let s2 := step isValidUrl s1 (Resolve 0 (Resolved r)) now2 in
         chatMessages (app s1)
         = (chatMessages (app s)
              ++ [userMessage (trim userQuery) now1; modelPlaceholder now1])%list
         /\ List.map request (pending s1)
            = [Gemini.chatRequest (trim userQuery) (currentUrlsForChat (app s))
                 (fileContext (app s)) (useWebSearch (app s))
                 (useThinking (app s)) (customPrompt (app s))]
         /\ initialQuerySuggestions (app s1) = []
         /\ ChatForm.showSuggestions later (chatMessages (app s1)) = false
         /\ ChatForm.showSuggestions later (chatMessages (app s2)) = false).
Proof.
  intros Hin Hp Hl Hf. split.
  - intros busy H. unfold ChatForm.handleSend. rewrite truthy_trim.
    destruct H as [-> | ->]; [reflexivity|]. now rewrite andb_false_r.
  - intros Hq. split.
    { unfold ChatForm.handleSend. now rewrite truthy_trim, Hq, Hl. }
    assert (Hq' : all_chars is_js_space (trim userQuery) = false).
    { pose proof (truthy_trim (trim userQuery)) as H.
      rewrite trim_idem, truthy_trim, Hq in H. cbn [negb] in H.
      symmetry in H. now apply negb_true_iff in H. }
    intros s1 s2.
    destruct (step_send isValidUrl s (trim userQuery) now1 Hin Hq' Hl Hf)
      as (p & Hs1 & Ho & Hreq & Hres).
    rewrite Hp in Hs1. cbn [List.app] in Hs1.
    subst s2 s1. rewrite Hs1. cbn [app pending].
    split; [reflexivity|]. split; [cbn; now rewrite Hreq|].
    split; [reflexivity|].
    split.
    { cbn [app chatMessages setIsLoading updChatMessages setChatMessages
           setInitialQuerySuggestions].
      unfold ChatForm.showSuggestions. apply andb_false_iff. right.
      apply Nat.leb_gt. apply filter_notSystem_two; reflexivity. }
    match goal with
    | |- context [step isValidUrl (mkSys ?a ?k ?ps) _ _] =>
        destruct (Hres (Resolved r) now2 a) as (m & Hexec & Hid & _ & _ & Hm);
        rewrite (step_resolve isValidUrl (mkSys a k ps) p [] (Resolved r) now2 _
                   eq_refl Hexec ltac:(repeat split))
    end.
    destruct Hm as [Hsender _].
    cbn [app chatMessages setIsLoading updChatMessages setChatMessages
         setInitialQuerySuggestions].
    unfold ChatForm.showSuggestions. apply andb_false_iff. right.
    apply Nat.leb_gt. unfold replaceById. rewrite List.map_app.
    cbn [List.map].
    replace (String.eqb (ChatMessage.id (userMessage (trim userQuery) now1))
               (ChatMessage.id (modelPlaceholder now1))) with false
      by reflexivity.
    rewrite String.eqb_refl.
    apply filter_notSystem_two; [reflexivity|].
    unfold ChatForm.notSystem. now rewrite Hsender.
Qed.

Lemma chat_form_send_witness :
  let s := sampleSys [smallGroup] "group-2" chat in
  ChatForm.handleSend "  Hi there " false = ("", Some "Hi there")
  /\ chatMessages (app (step sampleIsValidUrl s (SendMessage (trim "  Hi there ")) 1))
     = [userMessage "Hi there" 1; modelPlaceholder 1].
Proof.
  intros s.
  destruct (proj2 (chat_form_send sampleIsValidUrl s "  Hi there " 1 2
                     (textResponse None) [] (conj eq_refl eq_refl) eq_refl
                     eq_refl eq_refl) eq_refl) as [H1 H2].
  cbv zeta in H2. destruct H2 as (H2 & _).
  split; [exact H1 | exact H2].
Defined.
